(** * Contract verifier: build-record lookup, import closure, trimming, retry

    A shallow embedding of the [Verifier] class (the verification helper
    of the repository): the functions that locate a build record, resolve
    a contract's source path, compute the transitive import closure of a
    source, trim the compiler input to that closure, and drive the
    verification request with its retry policy.

    Conventions of the embedding.
    - A JavaScript string is a [string] (the code units of the model are
      bytes; the paths and names of a build record are ASCII).
    - A JavaScript object used as a dictionary is the list of its own
      properties in creation order; [Object_keys] lists array-index keys
      first, in ascending numeric order, and then the other keys in
      creation order, as the language does.
    - A [Set<string>] is the list of its elements in insertion order.
    - A function that may throw returns an [outcome]; recursion that is
      not structural takes a fuel argument and answers [Diverge] when the
      fuel runs out; the fuel that the entry points supply is shown to be
      enough.  A collaborator that never answers is a [Diverge] too.
    - Objects that the code writes to after creation (build-info objects
      and compiler settings objects) live in a store and are passed by
      location; the other objects are never written and are values. *)

From Stdlib Require Import ZArith Ascii String List Bool Lia Sorted Permutation.
From stdpp Require Import base tactics option list sets gmap strings pretty.

Open Scope string_scope.
Open Scope list_scope.

(** ** Exceptions and outcomes *)

Inductive exn : Type :=
| Error (msg : string)       (* throw new Error(msg) / throw Error(msg) *)
| TypeError (msg : string)   (* raised by the runtime: property of null or undefined *)
| Foreign (msg : string).    (* raised inside a library or a collaborator *)

Inductive outcome (A : Type) : Type :=
| Ret (a : A)
| Throw (e : exn)
| Diverge.

Arguments Ret {A} a.
Arguments Throw {A} e.
Arguments Diverge {A}.

Definition obind {A B} (m : outcome A) (k : A -> outcome B) : outcome B :=
  match m with
  | Ret a => k a
  | Throw e => Throw e
  | Diverge => Diverge
  end.

Declare Scope outcome_scope.
Delimit Scope outcome_scope with outcome.
Notation "'let!' x ':=' m 'in' k" := (obind m (fun x => k))
  (at level 10, x name, m at level 100, k at level 200) : outcome_scope.
Open Scope outcome_scope.

(** Left-to-right iteration with a threaded accumulator, stopping at the
    first exception: the shape of a visitor callback that updates a
    captured variable. *)
Fixpoint foldM {A B} (f : A -> B -> outcome A) (a : A) (l : list B) : outcome A :=
  match l with
  | [] => Ret a
  | x :: l' =>
      match f a x with
      | Ret a' => foldM f a' l'
      | Throw e => Throw e
      | Diverge => Diverge
      end
  end.

(** ** Strings *)

(** [s.includes(sub)] *)
Fixpoint includes (s sub : string) : bool :=
  String.prefix sub s ||
  match s with
  | EmptyString => false
  | String _ s' => includes s' sub
  end.

(** The character class [\w]. *)
Definition is_word_char (c : ascii) : bool :=
  let n := nat_of_ascii c in
  (((48 <=? n) && (n <=? 57)) || ((65 <=? n) && (n <=? 90))
   || ((97 <=? n) && (n <=? 122)) || (n =? 95))%nat.

(** The characters that [.] does not match (line feed and carriage
    return; the two other line terminators are not ASCII). *)
Definition is_line_terminator (c : ascii) : bool :=
  let n := nat_of_ascii c in ((n =? 10) || (n =? 13))%nat.

(** The longest run of word characters at the head of [s], and the rest. *)
Fixpoint take_word (s : string) : string * string :=
  match s with
  | EmptyString => (EmptyString, EmptyString)
  | String c s' =>
      if is_word_char c
      then let '(w, rest) := take_word s' in (String c w, rest)
      else (EmptyString, s)
  end.

(** The tail of the expression, a captured greedy run of word characters
    and then [.sol], tried at the head of [s]; a shorter run cannot help,
    since the character after it would be a word character. *)
Definition word_dot_sol (s : string) : option string :=
  let '(w, rest) := take_word s in
  if String.prefix ".sol" rest then Some w else None.

(** [s.match(re)] for the regular expression of [getAbsoluteSourcePath]
    (any characters, a slash, a captured run of word characters, [.sol]),
    reduced to its capture group: [None] is the [null] of a failed match.
    The expression is not anchored and its first part is greedy, so on
    the first line that has a [/] followed by a word run and [.sol], the
    last such [/] of that line is the one chosen. *)
Fixpoint match_sol (s : string) (best : option string) : option string :=
  match s with
  | EmptyString => best
  | String c s' =>
      if is_line_terminator c then
        match best with
        | Some _ => best
        | None => match_sol s' None
        end
      else if Ascii.eqb c "/" then
        match word_dot_sol s' with
        | Some w => match_sol s' (Some w)
        | None => match_sol s' best
        end
      else match_sol s' best
  end.

(** ** JavaScript objects as dictionaries, and sets of strings *)

Definition JsObject (V : Type) : Type := list (string * V).

Definition digit_value (c : ascii) : option N :=
  let n := N_of_ascii c in
  if ((48 <=? n) && (n <=? 57))%N then Some (n - 48)%N else None.

Fixpoint decimal_value (s : string) (acc : N) : option N :=
  match s with
  | EmptyString => Some acc
  | String c s' =>
      match digit_value c with
      | Some d => decimal_value s' (10 * acc + d)%N
      | None => None
      end
  end.

(** A property key is an array index when it is the canonical decimal
    text of an integer below 2^32 - 1. *)
Definition array_index (k : string) : option N :=
  match k with
  | EmptyString => None
  | String c rest =>
      if Ascii.eqb c "0" then
        (if String.eqb rest "" then Some 0%N else None)
      else
        match decimal_value k 0 with
        | Some n => if (n <? 2 ^ 32 - 1)%N then Some n else None
        | None => None
        end
  end.

Fixpoint insert_index (x : N * string) (l : list (N * string)) : list (N * string) :=
  match l with
  | [] => [x]
  | y :: l' => if (fst x <=? fst y)%N then x :: l else y :: insert_index x l'
  end.

Definition sort_index (l : list (N * string)) : list (N * string) :=
  foldr insert_index [] l.

Definition index_keys (ks : list string) : list (N * string) :=
  omap (fun k => match array_index k with Some n => Some (n, k) | None => None end) ks.

Definition named_keys (ks : list string) : list string :=
  List.filter (fun k => match array_index k with Some _ => false | None => true end) ks.

(** [Object.keys(o)] *)
Definition Object_keys {V} (o : JsObject V) : list string :=
  map snd (sort_index (index_keys (map fst o))) ++ named_keys (map fst o).

(** [o[k]]; [None] is [undefined]. *)
Fixpoint obj_get {V} (o : JsObject V) (k : string) : option V :=
  match o with
  | [] => None
  | (k', v) :: o' => if String.eqb k' k then Some v else obj_get o' k
  end.

(** [o[k] = v]: an existing property keeps its place, a new one is
    created last.  (The key [__proto__], which assignment does not
    create, is left aside: it is never the name of a source.) *)
Fixpoint obj_set {V} (o : JsObject V) (k : string) (v : V) : JsObject V :=
  match o with
  | [] => [(k, v)]
  | (k', v') :: o' =>
      if String.eqb k' k then (k', v) :: o' else (k', v') :: obj_set o' k v
  end.

(** [Object.assign(target, source)] *)
Definition Object_assign {V} (target source : JsObject V) : JsObject V :=
  fold_left
    (fun t k => match obj_get source k with Some v => obj_set t k v | None => t end)
    (Object_keys source) target.

(** What makes a list of properties an object: no key occurs twice. *)
Definition is_object {V} (o : JsObject V) : Prop := NoDup (map fst o).

Definition JsSet : Type := list string.

(** [s.has(x)] *)
Definition Set_has (s : JsSet) (x : string) : bool := bool_decide (x ∈ s).

(** [s.add(x)] *)
Definition Set_add (s : JsSet) (x : string) : JsSet :=
  if Set_has s x then s else s ++ [x].

(** ** The compiler input *)

Definition loc : Type := nat.

Record SourceEntry : Type := { content : string }.

Record CompilerInput : Type := {
  language : string;
  sources : JsObject SourceEntry;
  settings : loc            (* the settings object, shared by reference *)
}.

Section Resolver.

(** The Solidity parser is a library: [parse_imports c] is the list of
    the paths of the import directives of [c], in the order in which
    [parser.visit] reaches them, or [None] when [parser.parse] throws. *)
Variable parse_imports : string -> option (list string).

Definition getContractSourceName (contractName : string) (input : CompilerInput)
  : outcome string :=
  match List.find (fun absoluteSourcePath =>
                     includes absoluteSourcePath ("/" +:+ contractName +:+ ".sol"))
                  (Object_keys (sources input)) with
  | None => Throw (Error ("Could not find source name for " +:+ contractName))
  | Some absoluteSourcePath => Ret absoluteSourcePath
  end.

Definition getAbsoluteSourcePath (relativeSourcePath : string) (input : CompilerInput)
  : outcome string :=
  match match_sol relativeSourcePath None with
  | None => Throw (TypeError "Cannot read properties of null (reading '1')")
  | Some contractName => getContractSourceName contractName input
  end.

Fixpoint getContractImportedSourceNames_fuel (fuel : nat) (sourceName : string)
    (input : CompilerInput) (previousSourceNames : JsSet) : outcome JsSet :=
  match fuel with
  | O => Diverge
  | S fuel' =>
      match obj_get (sources input) sourceName with
      | None => Throw (TypeError "Cannot read properties of undefined (reading 'content')")
      | Some entry =>
          match parse_imports (content entry) with
          | None => Throw (Foreign "ParserError")
          | Some paths =>
              foldM (fun previousSourceNames path =>
                       let! importedSourceName := getAbsoluteSourcePath path input in
                       if Set_has previousSourceNames importedSourceName
                       then Ret previousSourceNames
                       else getContractImportedSourceNames_fuel fuel' importedSourceName input
                              (Set_add previousSourceNames importedSourceName))
                    previousSourceNames paths
          end
      end
  end.

(** Every nested call adds a key of the source mapping that was not in
    the set, so the nesting depth is at most the number of keys. *)
Definition getContractImportedSourceNames (sourceName : string)
    (input : CompilerInput) (previousSourceNames : JsSet) : outcome JsSet :=
  getContractImportedSourceNames_fuel (S (length (sources input)))
    sourceName input previousSourceNames.

Definition trimmedBuildInfoInput (contractName : string) (input : CompilerInput)
  : outcome CompilerInput :=
  let! sourceName := getContractSourceName contractName input in
  let! importedSourceNames :=
    getContractImportedSourceNames sourceName input (Set_add [] sourceName) in
  Ret {| language := language input;
         sources :=
           (* keys, filter, map to one-property objects, reduce with
              Object.assign from the empty object; [source] is an own key,
              so [input.sources[source]] is defined *)
           fold_left (fun previous current => Object_assign previous current)
             (omap (fun source =>
                      match obj_get (sources input) source with
                      | Some entry => Some [(source, entry)]
                      | None => None
                      end)
                   (List.filter (fun source => Set_has importedSourceNames source)
                                (Object_keys (sources input))))
             [];
         settings := settings input |}.

End Resolver.

(** ** Build records, requests and responses *)

Record Optimizer : Type := { enabled : bool; runs : Z }.

(** Library links: source name, then library name, then address. *)
Definition LibraryLinks : Type := JsObject (JsObject string).

(** The [libraries] argument of the entry points. *)
Definition Libraries : Type := JsObject string.

Record Settings : Type := { optimizer : Optimizer; libraries : LibraryLinks }.

Record CompiledContract : Type := { abi : string; deployedCode : string }.

(** [output.contracts]: source name, then contract name. *)
Definition Contracts : Type := JsObject (JsObject CompiledContract).

(** A build-info object in memory. *)
Record BuildInfo : Type := {
  bi_input : CompilerInput;           (* buildInfo.input *)
  bi_contracts : Contracts            (* buildInfo.output.contracts *)
}.

(** A build-info file as [JSON.parse] reads it: a tree without sharing. *)
Record BuildInfoFile : Type := {
  file_language : string;
  file_sources : JsObject SourceEntry;
  file_settings : Settings;
  file_contracts : Contracts
}.

Record QualifiedName : Type := { sourceName : string; contractName : string }.

(** Modelled from the spec: [getAllFullyQualifiedNames] of the module
    [./buildinfo], which is not among the sources.  A build record maps
    (source path, contract name) to compiled-contract metadata, and the
    locators of a record are the pairs for which it has an entry. *)
Definition getAllFullyQualifiedNames (buildInfo : BuildInfo) : list QualifiedName :=
  flat_map (fun src =>
              match obj_get (bi_contracts buildInfo) src with
              | Some contracts =>
                  map (fun c => {| sourceName := src; contractName := c |})
                      (Object_keys contracts)
              | None => []
              end)
           (Object_keys (bi_contracts buildInfo)).

Record ContractInformation : Type := {
  ci_sourceName : string;
  ci_contractName : string;
  ci_solcVersion : string;
  ci_abi : string;                    (* contractInformation.contract.abi *)
  libraryLinks : LibraryLinks
}.

(** The constructor arguments: already encoded, or a list of values. *)
Inductive Args : Type :=
| ArgsEncoded (hex : string)
| ArgsValues (values : list string).

Record SourceFile : Type := { file_content : string; file_name : string }.

Record VerifyRequest : Type := {
  contract_address : string;
  source_code : list SourceFile;
  contract_name : string;
  version : string;
  args : Args;
  optimization : bool;
  request_runs : Z;                   (* the field [runs] of the request *)
  compiler_type : string
}.

(** What [axios.post] resolves to, and what [verify] returns as it is:
    the wrapping into the response class of the explorer service is
    commented out in [verifyContract].  Its static type is [any]; the
    fields are what the code reads from it.  A method is [None] when the
    object has no such property, as in the responses that axios builds:
    they have the properties [data], [status], [statusText], [headers],
    [config] and [request], and no method. *)
Record Response : Type := {
  data_success : bool;                (* the truth value of response.data.success *)
  data_text : string;                 (* response.data in a template literal *)
  status : Z;
  isVerificationSuccess : option bool;
  isBytecodeMissingInNetworkError : option bool;
  message : string
}.

(** The two ways [axios.post] settles; a rejection carries
    [error.response.data.message] when [error.response] exists. *)
Inductive PostResult : Type :=
| PostRejected (reason : option string)
| PostResolved (response : Response).

(** ** Effects: the store, the trace, the collaborators *)

Inductive event : Type :=
| EvSleep (ms : Z)                    (* await delay(ms): the flow waits *)
| EvTimer (ms : Z)                    (* delay(ms), not awaited: a timer is started *)
| EvGetCode (address : string)        (* retrieveContractBytecode *)
| EvReadBuildInfos                    (* the artifact directory is listed and read *)
| EvWriteFile (path : string) (data : VerifyRequest)
                                      (* fs.writeFileSync(path, JSON.stringify(data)) *)
| EvPost (url : string) (body : VerifyRequest)          (* axios.post(url, body) *)
| EvLog (msg : string).                                (* console.log *)

Record State : Type := {
  store_infos : list BuildInfo;
  store_settings : list Settings;
  trace : list event
}.

Definition initial_state : State :=
  {| store_infos := []; store_settings := []; trace := [] |}.

(** The collaborators.  Those that talk to the network or the disk answer
    as a function of what has happened so far.  [findContractSourceName]
    belongs to the module [./buildinfo], which is not among the sources,
    and is taken as given, like the functions of the libraries. *)
Record World : Type := {
  (* the Solidity parser, as in [Resolver] *)
  parse_imports : string -> option (list string);
  (* the deployed bytecode at an address, from the network provider *)
  retrieveContractBytecode : list event -> string -> outcome string;
  (* the files of the build-info directory, parsed *)
  readBuildInfos : list event -> outcome (list BuildInfoFile);
  findContractSourceName : BuildInfoFile -> string -> outcome string;
  (* source name, contract name, build info, deployed bytecode *)
  extractMatchingContractInformation :
    string -> string -> BuildInfoFile -> string -> outcome (option ContractInformation);
  getLibraryLinks : ContractInformation -> Libraries -> outcome LibraryLinks;
  (* abi, source name, contract name, values *)
  encodeArguments : string -> string -> string -> list string -> outcome string;
  getLongVersion : string -> outcome string;
  (* new URL(input, base).toString(): the serialised address, which the
     platform normalises and percent-encodes, or nothing when the
     constructor throws *)
  URL_toString : string -> string -> option string;
  (* fs.writeFileSync(path, data): the exception it throws, if any *)
  writeFileSync : list event -> string -> option exn;
  (* axios.post(url, body) *)
  axios_post : list event -> string -> VerifyRequest -> PostResult
}.

Record Verifier : Type := { network : World; apiKey : string }.

Definition M (A : Type) : Type := State -> outcome A * State.

Definition ret {A} (a : A) : M A := fun st => (Ret a, st).

Definition throw {A} (e : exn) : M A := fun st => (Throw e, st).

Definition bind {A B} (m : M A) (k : A -> M B) : M B :=
  fun st =>
    match m st with
    | (Ret a, st') => k a st'
    | (Throw e, st') => (Throw e, st')
    | (Diverge, st') => (Diverge, st')
    end.

Declare Scope verifier_scope.
Delimit Scope verifier_scope with verifier.
Notation "x <- m ;; k" := (bind m (fun x => k))
  (at level 20, m at level 99, k at level 200) : verifier_scope.
Notation "m ;; k" := (bind m (fun _ => k))
  (at level 100, k at level 200, right associativity) : verifier_scope.
Open Scope verifier_scope.

Definition lift {A} (o : outcome A) : M A := fun st => (o, st).

Definition add_event (e : event) (st : State) : State :=
  {| store_infos := store_infos st;
     store_settings := store_settings st;
     trace := trace st ++ [e] |}.

Definition set_info (l : loc) (b : BuildInfo) (st : State) : State :=
  {| store_infos := <[l := b]> (store_infos st);
     store_settings := store_settings st;
     trace := trace st |}.

Definition set_settings (l : loc) (s : Settings) (st : State) : State :=
  {| store_infos := store_infos st;
     store_settings := <[l := s]> (store_settings st);
     trace := trace st |}.

Definition emit (e : event) : M unit := fun st => (Ret tt, add_event e st).

(** A request to a collaborator: it answers from the history, and the
    request joins the history. *)
Definition call_out {A} (e : event) (answer : list event -> outcome A) : M A :=
  fun st => bind (emit e) (fun _ => lift (answer (trace st))) st.

Definition read_info (l : loc) : M BuildInfo :=
  fun st => match store_infos st !! l with
            | Some b => (Ret b, st)
            | None => (Throw (Foreign "no object at this location"), st)
            end.

Definition write_info (l : loc) (b : BuildInfo) : M unit :=
  fun st => (Ret tt, set_info l b st).

Definition read_settings (l : loc) : M Settings :=
  fun st => match store_settings st !! l with
            | Some s => (Ret s, st)
            | None => (Throw (Foreign "no object at this location"), st)
            end.

Definition write_settings (l : loc) (s : Settings) : M unit :=
  fun st => (Ret tt, set_settings l s st).

(** The objects that [JSON.parse] creates for one file. *)
Definition alloc_build_info (f : BuildInfoFile) : M loc :=
  fun st =>
    (Ret (length (store_infos st)),
     {| store_infos :=
          store_infos st ++
          [{| bi_input := {| language := file_language f;
                             sources := file_sources f;
                             settings := length (store_settings st) |};
              bi_contracts := file_contracts f |}];
        store_settings := store_settings st ++ [file_settings f];
        trace := trace st |}).

Fixpoint mapM {A B} (f : A -> M B) (l : list A) : M (list B) :=
  match l with
  | [] => ret []
  | x :: l' => y <- f x ;; ys <- mapM f l' ;; ret (y :: ys)
  end.

(** The tree below a build-info object, as a collaborator reads it. *)
Definition snapshot (l : loc) : M BuildInfoFile :=
  b <- read_info l ;;
  s <- read_settings (settings (bi_input b)) ;;
  ret {| file_language := language (bi_input b);
         file_sources := sources (bi_input b);
         file_settings := s;
         file_contracts := bi_contracts b |}.

(** [delay] of the explorer service module: a promise that resolves after
    [ms] milliseconds. *)
Definition await_delay (ms : Z) : M unit := emit (EvSleep ms).
Definition delay_not_awaited (ms : Z) : M unit := emit (EvTimer ms).

Definition console_log (msg : string) : M unit := emit (EvLog msg).

(** What [console.log] prints for the characters of a string, each one
    an argument of its own: the characters with a space between them. *)
Fixpoint spread (s : string) : string :=
  match s with
  | EmptyString => EmptyString
  | String c EmptyString => String c EmptyString
  | String c s' => String c (String " " (spread s'))
  end.

(** [logger.info(args)] is [console.log(...args)]: a string argument is
    spread into its characters. *)
Definition logger_info (args : string) : M unit := console_log (spread args).

(** ** The methods of the verifier *)

Definition MAX_VERIFICATION_INTENTS : Z := 3.

Definition apiURL : string := "https://beta-devnet-api.neonscan.org/contract/verify".
Definition browserURL : string := "https://neonscan.org".

Definition newline : string := String (ascii_of_nat 10) EmptyString.

(** [getBuildInfos]: every file of the artifact directory, parsed into
    fresh objects. *)
Definition getBuildInfos (this : Verifier) : M (list loc) :=
  files <- call_out EvReadBuildInfos (readBuildInfos (network this)) ;;
  mapM alloc_build_info files.

Definition has_contract (contractName' : string) (buildInfo : BuildInfo) : bool :=
  existsb (fun name => String.eqb (contractName name) contractName')
          (getAllFullyQualifiedNames buildInfo).

Definition findBuildInfoWithContract (buildInfos : list loc) (contractName' : string)
  : M loc :=
  fun st =>
    match List.find (fun buildInfo =>
                       match store_infos st !! buildInfo with
                       | Some b => has_contract contractName' b
                       | None => false
                       end)
                    buildInfos with
    | None =>
        (Throw (Error ("Could not find a build info for contract " +:+ contractName')), st)
    | Some found => (Ret found, st)
    end.

Definition verifyContract (this : Verifier) (url : string) (req : VerifyRequest)
  : M Response :=
  let file := "./" +:+ contract_name req +:+ ".json" in
  (fun st => bind (emit (EvWriteFile file req))
                  (fun _ => match writeFileSync (network this) (trace st) file with
                            | Some e => throw e
                            | None => ret tt
                            end) st) ;;
  result <- (fun st => bind (emit (EvPost url req))
                            (fun _ => ret (axios_post (network this) (trace st) url req)) st) ;;
  match result with
  | PostRejected reason =>
      console_log "error" ;;
      match reason with
      | Some m => throw (Error ("Failed to send verification request. Reason: " +:+ m))
      | None => throw (TypeError "Cannot read properties of undefined (reading 'data')")
      end
  | PostResolved response =>
      if data_success response then
        console_log "Verified!" ;;
        ret response
      else
        throw (Error ("Failed to send verification request." +:+ newline
                      +:+ "HTTP code: " +:+ pretty (status response) +:+ "." +:+ newline
                      +:+ "Response: " +:+ data_text response))
  end.

Definition attemptVerification (this : Verifier) (etherscanAPIEndpoints : string * string)
    (contractInformation : ContractInformation) (contractAddress : string)
    (etherscanAPIKey : string) (compilerInput : CompilerInput)
    (solcFullVersion : string) (deployArgumentsEncoded : Args) : M Response :=
  s <- read_settings (settings compilerInput) ;;
  write_settings (settings compilerInput)
    {| optimizer := optimizer s; libraries := libraryLinks contractInformation |} ;;
  let source_files :=
    omap (fun name =>
            match obj_get (sources compilerInput) name with
            | Some entry => Some {| file_content := content entry; file_name := name |}
            | None => None
            end)
         (Object_keys (sources compilerInput)) in
  s' <- read_settings (settings compilerInput) ;;
  let request :=
    {| contract_address := contractAddress;
       source_code := source_files;
       contract_name := ci_contractName contractInformation;
       version := solcFullVersion;
       args := deployArgumentsEncoded;
       optimization := enabled (optimizer s');
       request_runs := runs (optimizer s');
       compiler_type := "solidity" |} in
  response <- verifyContract this (fst etherscanAPIEndpoints) request ;;
  await_delay 5000 ;;
  ret response.

Definition verify (this : Verifier) (name address : string) (args' : Args)
    (libraries' : Libraries) : M Response :=
  await_delay 5000 ;;
  deployedBytecodeHex <-
    call_out (EvGetCode address)
             (fun t => retrieveContractBytecode (network this) t address) ;;
  let deployedBytecode := deployedBytecodeHex in       (* new Bytecode(hex) *)
  buildInfos <- getBuildInfos this ;;
  buildInfo <- findBuildInfoWithContract buildInfos name ;;
  b <- read_info buildInfo ;;
  trimmed <- lift (trimmedBuildInfoInput (parse_imports (network this)) name (bi_input b)) ;;
  write_info buildInfo {| bi_input := trimmed; bi_contracts := bi_contracts b |} ;;
  tree <- snapshot buildInfo ;;
  sourceName' <- lift (findContractSourceName (network this) tree name) ;;
  found <- lift (extractMatchingContractInformation (network this)
                   sourceName' name tree deployedBytecode) ;;
  match found with
  | None => throw (Error "Could not find a bytecode matching the requested contract")
  | Some contractInformation =>
      libraryLinks' <- lift (getLibraryLinks (network this) contractInformation libraries') ;;
      let contractInformation :=
        {| ci_sourceName := ci_sourceName contractInformation;
           ci_contractName := ci_contractName contractInformation;
           ci_solcVersion := ci_solcVersion contractInformation;
           ci_abi := ci_abi contractInformation;
           libraryLinks := libraryLinks' |} in
      deployArgumentsEncoded <-
        match args' with
        | ArgsEncoded hex => ret hex
        | ArgsValues values =>
            lift (encodeArguments (network this) (ci_abi contractInformation)
                    (ci_sourceName contractInformation)
                    (ci_contractName contractInformation) values)
        end ;;
      solcFullVersion <-
        lift (getLongVersion (network this) (ci_solcVersion contractInformation)) ;;
      b' <- read_info buildInfo ;;
      attemptVerification this (apiURL, browserURL) contractInformation address
        (apiKey this) (bi_input b') solcFullVersion args'
  end.

(** The retry branch of [call]: the log line, whose template increments
    [intent] once, and the timer that is started and not awaited. *)
Definition announce_retry (intent : Z) : M unit :=
  logger_info ("Could not find deployed bytecode in network, retrying "
               +:+ pretty intent +:+ "/" +:+ pretty MAX_VERIFICATION_INTENTS +:+ "...") ;;
  delay_not_awaited 5000.

(** [call], by recursion on the number of attempts that [intent] leaves.
    The recursive call receives [intent++] after the increment of the log
    line, that is [intent + 1]. *)
Fixpoint call_fuel (fuel : nat) (this : Verifier) (name address : string)
    (constructorArguments : Args) (libraries' : Libraries) (intent : Z) : M string :=
  response <- verify this name address constructorArguments libraries' ;;
  match isVerificationSuccess response with
  | None => throw (TypeError "response.isVerificationSuccess is not a function")
  | Some true =>
      match URL_toString (network this) ("/address/" +:+ address +:+ "#code") browserURL with
      | Some contractURL => ret contractURL
      | None => throw (TypeError "Invalid URL")
      end
  | Some false =>
      if (intent <? MAX_VERIFICATION_INTENTS)%Z then
        match isBytecodeMissingInNetworkError response with
        | None =>
            throw (TypeError "response.isBytecodeMissingInNetworkError is not a function")
        | Some true =>
            announce_retry intent ;;
            match fuel with
            | O => lift Diverge
            | S fuel' =>
                call_fuel fuel' this name address constructorArguments libraries'
                          (intent + 1)
            end
        | Some false =>
            throw (Error ("The contract verification failed. Reason: " +:+ message response))
        end
      else
        throw (Error ("The contract verification failed. Reason: " +:+ message response))
  end.

Definition call (this : Verifier) (name address : string)
    (constructorArguments : Args) (libraries' : Libraries) (intent : Z) : M string :=
  call_fuel (Z.to_nat (MAX_VERIFICATION_INTENTS - intent)) this name address
            constructorArguments libraries' intent.

(** ** The verification parameters *)

Definition double_quote : ascii := ascii_of_nat 34.
Definition backslash : ascii := ascii_of_nat 92.

(** A lowercase hexadecimal digit. *)
Definition hex_digit (n : nat) : ascii :=
  nth n (list_ascii_of_string "0123456789abcdef") "0"%char.

(** How [JSON.stringify] writes one character of a string: the quote
    and the backslash are escaped, the control characters have a short
    escape or a [\u00XX] one, and any other character stands for itself. *)
Definition json_escape_char (c : ascii) : string :=
  let n := nat_of_ascii c in
  if (n =? 34)%nat then String backslash (String double_quote EmptyString)
  else if (n =? 92)%nat then String backslash (String backslash EmptyString)
  else if (n =? 8)%nat then String backslash "b"
  else if (n =? 12)%nat then String backslash "f"
  else if (n =? 10)%nat then String backslash "n"
  else if (n =? 13)%nat then String backslash "r"
  else if (n =? 9)%nat then String backslash "t"
  else if (n <? 32)%nat then
    String backslash
      (String "u" (String "0" (String "0"
         (String (hex_digit (n / 16)) (String (hex_digit (n mod 16)) EmptyString)))))
  else String c EmptyString.

Fixpoint json_escape (s : string) : string :=
  match s with
  | EmptyString => EmptyString
  | String c s' => json_escape_char c +:+ json_escape s'
  end.

(** [JSON.stringify(s)] for a string [s]. *)
Definition JSON_stringify (s : string) : string :=
  String double_quote (json_escape s +:+ String double_quote EmptyString).

Fixpoint string_drop (n : nat) (s : string) : string :=
  match n, s with
  | S n', String _ s' => string_drop n' s'
  | _, _ => s
  end.

(** [s.replace(pattern, replacement)] with a string pattern: the first
    occurrence is replaced, the others stay.  (The replacements of the
    code are empty, so the [$] patterns of a replacement play no part.) *)
Fixpoint replace_first (s pattern replacement : string) : string :=
  if String.prefix pattern s
  then replacement +:+ string_drop (String.length pattern) s
  else match s with
       | EmptyString => EmptyString
       | String c s' => String c (replace_first s' pattern replacement)
       end.

(** The text that [getVerificationParams] gives for a source content. *)
Definition stringified_content (text : string) : string :=
  replace_first
    (replace_first (JSON_stringify text) (String backslash "n") EmptyString)
    (String backslash (String double_quote EmptyString)) EmptyString.

Record VerificationParams : Type := {
  vp_sources : list (string * string);
  vp_name : string;
  vp_address : string;
  vp_solcFullVersion : string;
  vp_sourceName : string;
  vp_contractName : string;
  vp_optimizations : Optimizer;
  vp_compilerVersion : string;
  vp_deployArguments : string
}.

Definition getVerificationParams (this : Verifier) (name address : string) (args' : Args)
  : M VerificationParams :=
  deployedBytecodeHex <-
    call_out (EvGetCode address)
             (fun t => retrieveContractBytecode (network this) t address) ;;
  let deployedBytecode := deployedBytecodeHex in       (* new Bytecode(hex) *)
  buildInfos <- getBuildInfos this ;;
  buildInfo <- findBuildInfoWithContract buildInfos name ;;
  b <- read_info buildInfo ;;
  trimmed <- lift (trimmedBuildInfoInput (parse_imports (network this)) name (bi_input b)) ;;
  write_info buildInfo {| bi_input := trimmed; bi_contracts := bi_contracts b |} ;;
  tree <- snapshot buildInfo ;;
  sourceName' <- lift (findContractSourceName (network this) tree name) ;;
  found <- lift (extractMatchingContractInformation (network this)
                   sourceName' name tree deployedBytecode) ;;
  match found with
  | None => throw (Error "Could not find a bytecode matching the requested contract")
  | Some contractInformation =>
      solcFullVersion <-
        lift (getLongVersion (network this) (ci_solcVersion contractInformation)) ;;
      deployArgumentsEncoded <-
        match args' with
        | ArgsEncoded hex => ret hex
        | ArgsValues values =>
            lift (encodeArguments (network this) (ci_abi contractInformation)
                    (ci_sourceName contractInformation)
                    (ci_contractName contractInformation) values)
        end ;;
      b' <- read_info buildInfo ;;
      let build := bi_input b' in
      s <- read_settings (settings build) ;;
      let sources' :=
        omap (fun name =>
                match obj_get (sources build) name with
                | Some entry => Some (name, stringified_content (content entry))
                | None => None
                end)
             (Object_keys (sources build)) in
      ret {| vp_sources := sources';
             vp_name := name;
             vp_address := address;
             vp_solcFullVersion := solcFullVersion;
             vp_sourceName := ci_sourceName contractInformation;
             vp_contractName := ci_contractName contractInformation;
             vp_optimizations := {| enabled := enabled (optimizer s);
                                    runs := runs (optimizer s) |};
             vp_compilerVersion := solcFullVersion;
             vp_deployArguments := deployArgumentsEncoded |}
  end.

(** ** The build-info directory *)

Module Artifacts.

(** The [fs] and [path] modules of the platform and [JSON.parse], as
    far as the verifier uses them.  The World's [readBuildInfos] stands
    for [getBuildInfos] below, read at the time of the call. *)
Record Node : Type := {
  path_join : string -> string -> string;            (* path.join(base, name) *)
  extname : string -> string;                        (* path.extname(p) *)
  existsSync : string -> bool;                       (* fs.existsSync(p) *)
  isFile : string -> bool;                           (* fs.statSync(p).isFile() *)
  isDirectory : string -> bool;                      (* fs.statSync(p).isDirectory() *)
  readdirSync : string -> outcome (list string);     (* fs.readdirSync(p) *)
  readFileSync : string -> outcome string;           (* fs.readFileSync(p).toString() *)
  JSON_parse : string -> outcome BuildInfoFile       (* JSON.parse(text) *)
}.

(** [array.map(f)] with a callback that may throw. *)
Fixpoint map_outcome {A B} (f : A -> outcome B) (l : list A) : outcome (list B) :=
  match l with
  | [] => Ret []
  | x :: l' =>
      let! y := f x in
      let! ys := map_outcome f l' in
      Ret (y :: ys)
  end.

Definition dir : string := "".

Definition _existsFile (node : Node) (filePath : string) : bool :=
  existsSync node filePath && isFile node filePath.

Definition _existsDir (node : Node) (dirPath : string) : bool :=
  existsSync node dirPath && isDirectory node dirPath.

Definition _fileAt (node : Node) (base name : string) (ensure : bool) : outcome string :=
  let filePath := path_join node base name in
  if ensure && negb (_existsFile node filePath)
  then Throw (Error ("Could not find a file at " +:+ filePath))
  else Ret filePath.

Definition _dirAt (node : Node) (base name : string) (ensure : bool) : outcome string :=
  let dirPath := path_join node base name in
  if ensure && negb (_existsDir node dirPath)
  then Throw (Error ("Could not find a directory at " +:+ dirPath))
  else Ret dirPath.

Definition getBuildInfo (node : Node) (fileName : string) : outcome BuildInfoFile :=
  let! buildInfoDir := _dirAt node dir "artifacts/build-info" true in
  let! artifactFile :=
    _fileAt node buildInfoDir
      (if String.eqb (extname node fileName) "" then fileName +:+ ".json" else fileName)
      true in
  let! text := readFileSync node artifactFile in
  JSON_parse node text.

Definition getBuildInfos (node : Node) : outcome (list BuildInfoFile) :=
  let! buildInfoDir := _dirAt node dir "artifacts/build-info" true in
  let! fileNames := readdirSync node buildInfoDir in
  map_outcome (getBuildInfo node) fileNames.

End Artifacts.

(** ** Helpers of the gas measurements *)

Module Gas.

(** A deployed token contract, as far as the helpers read it. *)
Record Contract : Type := { address : string }.

(** A dictionary from token symbol to contract. *)
Definition TokenList : Type := JsObject Contract.

Definition tokenSymbols : list string := ["AAA"; "BBB"; "CCC"].

(** An index argument of [slice], against the length: a negative one
    counts from the end, and both ends are clamped. *)
Definition clamp_index (len : nat) (i : Z) : nat :=
  if (i <? 0)%Z then Z.to_nat (Z.max (Z.of_nat len + i) 0)
  else Nat.min (Z.to_nat i) len.

(** [array.slice(start, end)], for integer arguments. *)
Definition Array_slice {A} (l : list A) (start finish : Z) : list A :=
  let k := clamp_index (length l) start in
  let final := clamp_index (length l) finish in
  firstn (final - k) (skipn k l).

(** [offset ?? 0] *)
Definition or_zero (offset : option Z) : Z :=
  match offset with Some n => n | None => 0%Z end.

Definition pickTokenAddresses (tokens : TokenList) (size : Z) (offset : option Z)
  : outcome (list string) :=
  Artifacts.map_outcome
    (fun symbol =>
       match obj_get tokens symbol with
       | Some token => Ret (address token)
       | None => Throw (TypeError "Cannot read properties of undefined (reading 'address')")
       end)
    (Array_slice tokenSymbols (or_zero offset) (size + or_zero offset)).

End Gas.

(** ** Sample build records and collaborators *)

Module Sample.

(** A stand-in for the parser: the import paths of a text are its
    single-quoted literals, and a literal left open is a parse error. *)
Fixpoint quoted_literals (s : string) (cur : option string) (acc : list string)
  : option (list string) :=
  match s with
  | EmptyString => match cur with None => Some acc | Some _ => None end
  | String c s' =>
      match cur with
      | Some p =>
          if Ascii.eqb c "'" then quoted_literals s' None (acc ++ [p])
          else quoted_literals s' (Some (p +:+ String c EmptyString)) acc
      | None =>
          if Ascii.eqb c "'" then quoted_literals s' (Some EmptyString) acc
          else quoted_literals s' None acc
      end
  end.

Definition parser (text : string) : option (list string) :=
  quoted_literals text None [].

Definition file (path text : string) : string * SourceEntry :=
  (path, {| content := text |}).

Definition input_of (srcs : JsObject SourceEntry) : CompilerInput :=
  {| language := "Solidity"; sources := srcs; settings := 0 |}.

(** A imports B, B imports nothing, C is unrelated. *)
Definition abc : JsObject SourceEntry :=
  [ file "contracts/A.sol" "import './B.sol'; contract A {}";
    file "contracts/B.sol" "contract B {}";
    file "contracts/C.sol" "contract C {}" ].

(** The same sources, listed in the opposite order. *)
Definition cba : JsObject SourceEntry :=
  [ file "contracts/C.sol" "contract C {}";
    file "contracts/B.sol" "contract B {}";
    file "contracts/A.sol" "import './B.sol'; contract A {}" ].

(** A imports B and B imports A. *)
Definition cyclic : JsObject SourceEntry :=
  [ file "contracts/A.sol" "import './B.sol'; contract A {}";
    file "contracts/B.sol" "import './A.sol'; contract B {}" ].

(** Two sources have the file name Foo.sol, and A imports the second
    of them. *)
Definition same_name : JsObject SourceEntry :=
  [ file "contracts/A.sol" "import './b/Foo.sol'; contract A {}";
    file "contracts/a/Foo.sol" "contract Foo {}";
    file "contracts/b/Foo.sol" "contract Foo {}" ].

(** A imports Foo by a path without a slash; the record has Foo. *)
Definition slashless : JsObject SourceEntry :=
  [ file "contracts/A.sol" "import 'Foo.sol'; contract A {}";
    file "contracts/Foo.sol" "contract Foo {}" ].

(** Two sources with the same file name, and one whose path only
    contains the searched text. *)
Definition two_foo : JsObject SourceEntry :=
  [ file "a/Foo.sol" "contract Foo {}";
    file "b/Foo.sol" "contract Foo {}" ].

Definition foo_inside : JsObject SourceEntry :=
  [ file "old/Foo.sol.bak/notes.txt" "";
    file "src/Foo.sol" "contract Foo {}" ].

Definition compiled (name : string) : string * CompiledContract :=
  (name, {| abi := "[]"; deployedCode := "6080" |}).

Definition abc_file : BuildInfoFile :=
  {| file_language := "Solidity";
     file_sources := abc;
     file_settings := {| optimizer := {| enabled := true; runs := 200 |};
                         libraries := [] |};
     file_contracts := [ ("contracts/A.sol", [compiled "A"]);
                         ("contracts/B.sol", [compiled "B"]);
                         ("contracts/C.sol", [compiled "C"]) ] |}.

(** A second record, of another compilation, that has no contract A. *)
Definition other_file : BuildInfoFile :=
  {| file_language := "Solidity";
     file_sources := [ file "contracts/D.sol" "contract D {}" ];
     file_settings := {| optimizer := {| enabled := false; runs := 0 |};
                         libraries := [] |};
     file_contracts := [ ("contracts/D.sol", [compiled "D"]) ] |}.

Definition links : LibraryLinks := [ ("contracts/L.sol", [("L", "0x01")]) ].

(** The answer of the verification service to a request that it
    accepts, as axios hands it over: no method. *)
Definition accepted : Response :=
  {| data_success := true; data_text := "[object Object]"; status := 200;
     isVerificationSuccess := None;
     isBytecodeMissingInNetworkError := None;
     message := "undefined" |}.

(** Collaborators that always succeed.  The addresses of the samples
    have no character that a URL would escape. *)
Definition world : World :=
  {| parse_imports := parser;
     retrieveContractBytecode := fun _ _ => Ret "6080";
     readBuildInfos := fun _ => Ret [other_file; abc_file];
     findContractSourceName := fun _ name => Ret ("contracts/" +:+ name +:+ ".sol");
     extractMatchingContractInformation := fun src name _ _ =>
       Ret (Some {| ci_sourceName := src; ci_contractName := name;
                    ci_solcVersion := "0.7.1"; ci_abi := "[]"; libraryLinks := [] |});
     getLibraryLinks := fun _ _ => Ret links;
     encodeArguments := fun _ _ _ _ => Ret "";
     getLongVersion := fun v => Ret (v +:+ "+commit.f4a555be");
     URL_toString := fun input base => Some (base +:+ input);
     writeFileSync := fun _ _ => None;
     axios_post := fun _ _ _ => PostResolved accepted |}.

End Sample.

(** * Vocabulary of the properties *)

(** ** Strings *)

(** A string of word characters. *)
Fixpoint is_word (w : string) : bool :=
  match w with
  | EmptyString => true
  | String c w' => is_word_char c && is_word w'
  end.

(** [s.endsWith(suffix)]: the reading of the specification, used to
    compare it with the substring test of the code. *)
Fixpoint ends_with (s suffix : string) : bool :=
  String.eqb s suffix ||
  match s with
  | EmptyString => false
  | String _ s' => ends_with s' suffix
  end.

(** ** Keys and entries of objects *)

(** The numeric order of index keys. *)
Definition index_le (a b : N * string) : Prop := (fst a <= fst b)%N.

(** Entries that pair an index key with its number. *)
Definition coherent (l : list (N * string)) : Prop :=
  Forall (fun e => array_index (snd e) = Some (fst e)) l.

(** The properties of [o] at the keys [ks], in the order of [ks]. *)
Definition entries_at {V} (o : JsObject V) (ks : list string) : JsObject V :=
  omap (fun k => match obj_get o k with Some v => Some (k, v) | None => None end) ks.

(** ** The import graph of a compiler input *)

Section ImportGraphDefinitions.

Variable parse : string -> option (list string).
Variable input : CompilerInput.

(** The import paths of a source of the input. *)
Definition imports_of (s : string) : option (list string) :=
  match obj_get (sources input) s with
  | Some entry => parse (content entry)
  | None => None
  end.

(** The edge that the traversal follows: [s] has an import directive
    whose path [getAbsoluteSourcePath] maps to [t].  The code calls this
    guessing; whether [t] is the file that the directive names is
    another matter, see [spec_edge]. *)
Definition guessed_edge (s t : string) : Prop :=
  ∃ paths path,
    imports_of s = Some paths ∧ path ∈ paths ∧
    getAbsoluteSourcePath path input = Ret t.

(** The sources that the guesses of the traversal lead to, one import
    directive after the other; a source reaches itself. *)
Definition guessed_reachable : string → string → Prop := rtc guessed_edge.

(** [s] is a source of the input that parses and whose import paths all
    resolve. *)
Definition resolvable (s : string) : bool :=
  match imports_of s with
  | Some paths =>
      forallb (fun path => match getAbsoluteSourcePath path input with
                           | Ret _ => true
                           | _ => false
                           end) paths
  | None => false
  end.

(** The callback of the visitor, for one import directive. *)
Definition visit_import (fuel : nat) (previousSourceNames : JsSet) (path : string)
  : outcome JsSet :=
  let! importedSourceName := getAbsoluteSourcePath path input in
  if Set_has previousSourceNames importedSourceName
  then Ret previousSourceNames
  else getContractImportedSourceNames_fuel parse fuel importedSourceName input
         (Set_add previousSourceNames importedSourceName).

(** What a returning traversal from [s] has done to the set. *)
Definition grown (s : string) (V V' : JsSet) : Prop :=
  V ⊆ V' ∧ (NoDup V → NoDup V') ∧
  ∀ x, x ∈ V' → x ∉ V →
       resolvable x = true ∧ guessed_reachable s x ∧ ∀ t, guessed_edge x t → t ∈ V'.

(** The keys of the source mapping that are not in the set yet. *)
Definition unvisited (V : JsSet) : nat :=
  size (list_to_set (map fst (sources input)) ∖ list_to_set V : gset string).

End ImportGraphDefinitions.

(** ** Runs of the verifier *)

(** The compiled-contract metadata of the build-info object at [l] has
    an entry for a locator with the given contract name. *)
Definition has_locator (st : State) (contractName' : string) (l : loc) : Prop :=
  ∃ b src contracts meta,
    store_infos st !! l = Some b ∧
    obj_get (bi_contracts b) src = Some contracts ∧
    obj_get contracts contractName' = Some meta.

Definition is_log (e : event) : Prop := ∃ msg, e = EvLog msg.

(** The build-info objects that loading [files] creates, when the
    settings objects are created from location [m] on. *)
Fixpoint loaded_infos (m : nat) (files : list BuildInfoFile) : list BuildInfo :=
  match files with
  | [] => []
  | f :: files' =>
      {| bi_input := {| language := file_language f;
                        sources := file_sources f;
                        settings := m |};
         bi_contracts := file_contracts f |} :: loaded_infos (S m) files'
  end.

Definition load_files (files : list BuildInfoFile) (st : State) : State :=
  {| store_infos := store_infos st ++ loaded_infos (length (store_settings st)) files;
     store_settings := store_settings st ++ map file_settings files;
     trace := trace st |}.

(** The request that [attemptVerification] assembles. *)
Definition request_of (contractInformation : ContractInformation) (contractAddress : string)
    (compilerInput : CompilerInput) (o : Optimizer) (solcFullVersion : string)
    (deployArgumentsEncoded : Args) : VerifyRequest :=
  {| contract_address := contractAddress;
     source_code :=
       omap (fun name =>
               match obj_get (sources compilerInput) name with
               | Some entry => Some {| file_content := content entry; file_name := name |}
               | None => None
               end)
            (Object_keys (sources compilerInput));
     contract_name := ci_contractName contractInformation;
     version := solcFullVersion;
     args := deployArgumentsEncoded;
     optimization := enabled o;
     request_runs := runs o;
     compiler_type := "solidity" |}.

Definition request_file (req : VerifyRequest) : string :=
  "./" +:+ contract_name req +:+ ".json".

(** The line that the retry branch logs. *)
Definition retry_message (intent : Z) : string :=
  spread ("Could not find deployed bytecode in network, retrying "
          +:+ pretty intent +:+ "/" +:+ pretty MAX_VERIFICATION_INTENTS +:+ "...").

(** The state after the retry branch has logged and started its timer. *)
Definition after_retry (intent : Z) (st : State) : State :=
  add_event (EvTimer 5000) (add_event (EvLog (retry_message intent)) st).



Definition failure_of (r : Response) : exn :=
  Error ("The contract verification failed. Reason: " +:+ message r).

Definition is_fetch (e : event) : bool :=
  match e with EvGetCode _ => true | _ => false end.

Definition is_wait (e : event) : bool :=
  match e with EvSleep _ => true | _ => false end.

Definition is_timer (e : event) : bool :=
  match e with EvTimer _ => true | _ => false end.

(** The attempts of a trace: each call of [verify] fetches the deployed
    bytecode exactly once. *)
Definition fetches (t : list event) : nat := length (List.filter is_fetch t).

(** The delays that were awaited, and those that were only started. *)
Definition waits (t : list event) : nat := length (List.filter is_wait t).

Definition timers (t : list event) : nat := length (List.filter is_timer t).

(** How every attempt opens: a completed wait of 5000 ms, then the fetch
    of the deployed bytecode, then the rest of the attempt. *)
Definition attempt_block (address : string) (rest : list event) : list event :=
  EvSleep 5000 :: EvGetCode address :: rest.

(** A computation that fetches no bytecode. *)
Definition quiet {A} (m : M A) : Prop :=
  ∀ st r st', m st = (r, st') → ∃ t, trace st' = trace st ++ t ∧ fetches t = 0.

(** ** Further vocabulary *)

(** A string without line terminators. *)
Fixpoint single_line (s : string) : bool :=
  match s with
  | EmptyString => true
  | String c s' => negb (is_line_terminator c) && single_line s'
  end.

(** A character that [JSON.stringify] writes as it is: not a control
    character, not the quote, not the backslash. *)
Definition is_plain_char (c : ascii) : bool :=
  let n := nat_of_ascii c in
  ((32 <=? n) && negb (n =? 34) && negb (n =? 92))%nat.

Fixpoint is_plain (s : string) : bool :=
  match s with
  | EmptyString => true
  | String c s' => is_plain_char c && is_plain s'
  end.

Definition line_feed : string := String (ascii_of_nat 10) EmptyString.

(** A text between double quotes, and the two escapes that
    [getVerificationParams] removes. *)
Definition in_quotes (s : string) : string :=
  String double_quote (s +:+ String double_quote EmptyString).

Definition escaped_line_feed : string := String backslash "n".

Definition escaped_quote : string := String backslash (String double_quote EmptyString).

(** The character [x] does not occur in [s]. *)
Fixpoint lacks (x : ascii) (s : string) : bool :=
  match s with
  | EmptyString => true
  | String c s' => negb (Ascii.eqb x c) && lacks x s'
  end.

(** The build-info object that a file becomes has a locator with the
    contract name. *)
Definition file_has_contract (contractName' : string) (f : BuildInfoFile) : bool :=
  has_contract contractName'
    {| bi_input := {| language := file_language f; sources := file_sources f;
                      settings := 0 |};
       bi_contracts := file_contracts f |}.

(** A computation that leaves the trace and the settings objects as
    they are. *)
Definition silent {A} (m : M A) : Prop :=
  ∀ st r st', m st = (r, st') →
    trace st' = trace st ∧ store_settings st' = store_settings st.

(** The pairs of the verification parameters are the sources of a
    compiler input, in the order of its keys, each with the text that is
    made of its content. *)
Definition stringifies_sources (pairs : list (string * string)) (input : CompilerInput)
  : Prop :=
  map fst pairs = Object_keys (sources input) ∧
  Forall (fun pair => ∃ entry, obj_get (sources input) (fst pair) = Some entry ∧
                               snd pair = stringified_content (content entry))
         pairs.

(** The source files of a request are the sources of a compiler input,
    in the order of its keys. *)
Definition lists_sources (req : VerifyRequest) (input : CompilerInput) : Prop :=
  map file_name (source_code req) = Object_keys (sources input) ∧
  Forall (fun sf => ∃ entry, obj_get (sources input) (file_name sf) = Some entry ∧
                             file_content sf = content entry)
         (source_code req).

(** The requests that were posted. *)
Definition is_post (e : event) : bool :=
  match e with EvPost _ _ => true | _ => false end.

Definition posts (t : list event) : nat := length (List.filter is_post t).

Definition returned {A} (r : outcome A) : bool :=
  match r with Ret _ => true | _ => false end.

(** What the submission of a request leaves in the trace: when it
    returns, the file, the post, the log line and the wait; when it does
    not, the file alone, or the file and a post that was rejected (and
    logged) or answered with a failure. *)
Definition submission (req : VerifyRequest) (returns : bool) (t : list event) : Prop :=
  let file := EvWriteFile (request_file req) req in
  if returns
  then t = [file; EvPost apiURL req; EvLog "Verified!"; EvSleep 5000]
  else t = [file] ∨ t = [file; EvPost apiURL req; EvLog "error"]
       ∨ t = [file; EvPost apiURL req].

(** What an attempt leaves in the trace. *)
Definition attempt_shape (address : string) (returns : bool) (t : list event) : Prop :=
  (returns = false ∧
   (t = [EvSleep 5000; EvGetCode address]
    ∨ t = [EvSleep 5000; EvGetCode address; EvReadBuildInfos])) ∨
  ∃ req sub,
    t = EvSleep 5000 :: EvGetCode address :: EvReadBuildInfos :: sub ∧
    submission req returns sub.

(** ** The import graph of the specification *)

(** The last segment of a path: what follows its last slash, or the
    whole path when it has none. *)
Fixpoint last_segment (s : string) : string :=
  match s with
  | EmptyString => EmptyString
  | String c s' =>
      if includes s' "/" then last_segment s'
      else if Ascii.eqb c "/" then s' else String c s'
  end.

(** A file name without its extension [.sol]. *)
Fixpoint without_sol (s : string) : option string :=
  match s with
  | EmptyString => None
  | String c s' =>
      if String.eqb (String c s') ".sol" then Some EmptyString
      else option_map (String c) (without_sol s')
  end.

(** The reading of the specification: the file name that the suffix
    heuristic takes from an import path, its last segment without the
    extension. *)
Definition spec_file_name (path : string) : option string :=
  without_sol (last_segment path).

(** The reading of the specification, [resolveSourcePath]: [t] is the
    unique source path of the record that ends with [/<name>.sol].
    Nothing is resolved when no source path ends so, or more than one. *)
Definition spec_resolves (input : CompilerInput) (name t : string) : Prop :=
  t ∈ Object_keys (sources input) ∧
  ends_with t ("/" +:+ name +:+ ".sol") = true ∧
  ∀ k, k ∈ Object_keys (sources input) →
       ends_with k ("/" +:+ name +:+ ".sol") = true → k = t.

(** The reading of the specification: [s] has an import directive
    whose file name [resolveSourcePath] finds at [t]. *)
Definition spec_edge (parse : string → option (list string)) (input : CompilerInput)
    (s t : string) : Prop :=
  ∃ paths path name,
    imports_of parse input s = Some paths ∧ path ∈ paths ∧
    spec_file_name path = Some name ∧ spec_resolves input name t.

(** The reading of the specification: the sources reachable from a
    source via import directives; a source reaches itself. *)
Definition spec_reachable (parse : string → option (list string)) (input : CompilerInput)
  : string → string → Prop :=
  rtc (spec_edge parse input).

(** An import path for which the guess of the code cannot go wrong: it
    is a path on one line, [<folder>/<Name>.sol] with a name of word
    characters, and exactly one source path of the record contains
    [/<Name>.sol], at its end: [t]. *)
Definition well_named (input : CompilerInput) (path t : string) : Prop :=
  ∃ folder w,
    path = folder +:+ "/" +:+ w +:+ ".sol" ∧
    single_line folder = true ∧ is_word w = true ∧
    t ∈ Object_keys (sources input) ∧
    ends_with t ("/" +:+ w +:+ ".sol") = true ∧
    ∀ k, k ∈ Object_keys (sources input) →
         includes k ("/" +:+ w +:+ ".sol") = true → k = t.

(** Every source reachable from [root] parses, and all its import paths
    are well named. *)
Definition well_named_from (parse : string → option (list string)) (input : CompilerInput)
    (root : string) : Prop :=
  ∀ x, spec_reachable parse input root x →
       ∃ paths, imports_of parse input x = Some paths ∧
                ∀ path, path ∈ paths → ∃ t, well_named input path t.





(** More sample collaborators. *)
Module Cases.

(** The provider has no bytecode at the address. *)
Definition no_bytecode : Verifier :=
  {| network :=
       {| parse_imports := Sample.parser;
          retrieveContractBytecode := fun _ _ => Throw (Foreign "The address has no bytecode");
          readBuildInfos := readBuildInfos Sample.world;
          findContractSourceName := findContractSourceName Sample.world;
          extractMatchingContractInformation :=
            extractMatchingContractInformation Sample.world;
          getLibraryLinks := getLibraryLinks Sample.world;
          encodeArguments := encodeArguments Sample.world;
          getLongVersion := getLongVersion Sample.world;
          URL_toString := URL_toString Sample.world;
          writeFileSync := fun _ _ => None;
          axios_post := axios_post Sample.world |};
     apiKey := "key" |}.

(** The deployed bytecode matches no contract of the record. *)
Definition unmatched : Verifier :=
  {| network :=
       {| parse_imports := Sample.parser;
          retrieveContractBytecode := retrieveContractBytecode Sample.world;
          readBuildInfos := readBuildInfos Sample.world;
          findContractSourceName := findContractSourceName Sample.world;
          extractMatchingContractInformation := fun _ _ _ _ => Ret None;
          getLibraryLinks := getLibraryLinks Sample.world;
          encodeArguments := encodeArguments Sample.world;
          getLongVersion := getLongVersion Sample.world;
          URL_toString := URL_toString Sample.world;
          writeFileSync := fun _ _ => None;
          axios_post := axios_post Sample.world |};
     apiKey := "key" |}.

(** Every collaborator succeeds and the verification service accepts
    the request. *)
Definition accepting : Verifier :=
  {| network := Sample.world; apiKey := "key" |}.

(** The text from the last dot of the last segment of a path on. *)
Fixpoint extension_from (p cur : string) : string :=
  match p with
  | EmptyString => cur
  | String c p' =>
      if Ascii.eqb c "." then extension_from p' "."
      else if Ascii.eqb c "/" then extension_from p' ""
      else extension_from p' (if String.eqb cur "" then "" else cur +:+ String c "")
  end.

(** A disk with a build-info directory of two files, one of them listed
    as it is named and read by a name without extension, and with a
    sub-directory between them when [stray]. *)
Definition disk (stray : bool) : Artifacts.Node :=
  {| Artifacts.path_join := fun base name =>
       if String.eqb base "" then name else base +:+ "/" +:+ name;
     Artifacts.extname := fun p => extension_from p "";
     Artifacts.existsSync := fun p =>
       String.eqb p "artifacts/build-info"
       || String.eqb p "artifacts/build-info/one.json"
       || String.eqb p "artifacts/build-info/two.json"
       || (stray && String.eqb p "artifacts/build-info/cache.d");
     Artifacts.isFile := fun p =>
       String.eqb p "artifacts/build-info/one.json"
       || String.eqb p "artifacts/build-info/two.json";
     Artifacts.isDirectory := fun p =>
       String.eqb p "artifacts/build-info" || String.eqb p "artifacts/build-info/cache.d";
     Artifacts.readdirSync := fun _ =>
       Ret (if stray then ["one.json"; "cache.d"; "two"] else ["one.json"; "two"]);
     Artifacts.readFileSync := fun p => Ret p;
     Artifacts.JSON_parse := fun text =>
       if String.eqb text "artifacts/build-info/one.json" then Ret Sample.other_file
       else Ret Sample.abc_file |}.

(** A project that was never compiled: no build-info directory. *)
Definition empty_disk : Artifacts.Node :=
  {| Artifacts.path_join := Artifacts.path_join (disk false);
     Artifacts.extname := Artifacts.extname (disk false);
     Artifacts.existsSync := fun _ => false;
     Artifacts.isFile := fun _ => false;
     Artifacts.isDirectory := fun _ => false;
     Artifacts.readdirSync := fun _ => Throw (Foreign "ENOENT");
     Artifacts.readFileSync := fun _ => Throw (Foreign "ENOENT");
     Artifacts.JSON_parse := Artifacts.JSON_parse (disk false) |}.

Definition three_tokens : Gas.TokenList :=
  [ ("AAA", {| Gas.address := "0x0a" |});
    ("BBB", {| Gas.address := "0x0b" |});
    ("CCC", {| Gas.address := "0x0c" |}) ].

End Cases.

(** * Properties *)

(** ** Strings *)

Lemma prefix_app p s : String.prefix p s = true ↔ ∃ post, s = p +:+ post.
Proof.
  revert s. induction p as [|c p IH]; intros [|d s]; simpl.
  - split; [by exists ""|done].
  - split; [by exists (String d s)|done].
  - split; [done|by intros [post [=]]].
  - destruct (Ascii.ascii_dec c d) as [->|Hne].
    + rewrite IH. split; intros [post H]; exists post; [by rewrite H|by injection H].
    + split; [done|]. intros [post [= ? _]]. done.
Qed.

Lemma includes_spec s sub :
  includes s sub = true ↔ ∃ pre post, s = pre +:+ sub +:+ post.
Proof.
  induction s as [|c s IH]; cbn [includes]; rewrite orb_true_iff, prefix_app.
  - split.
    + intros [[post H]|[=]]. by exists "", post.
    + intros (pre & post & H). left. destruct pre; [by exists post|done].
  - rewrite IH. split.
    + intros [[post H]|(pre & post & H)]; [by exists "", post|].
      exists (String c pre), post. simpl. by rewrite H.
    + intros (pre & post & H). destruct pre as [|d pre]; [left; by exists post|].
      right. injection H as _ H. by exists pre, post.
Qed.

Lemma ends_with_spec s suffix : ends_with s suffix = true ↔ ∃ pre, s = pre +:+ suffix.
Proof.
  induction s as [|c s IH]; cbn [ends_with]; rewrite orb_true_iff, String.eqb_eq.
  - split.
    + intros [->|[=]]. by exists "".
    + intros (pre & H). left. destruct pre; [done|discriminate H].
  - rewrite IH. split.
    + intros [<-|(pre & ->)]; [by exists ""|]. by exists (String c pre).
    + intros ([|d pre] & H); [by left|]. right. injection H as _ ->. by exists pre.
Qed.

Lemma take_word_spec s :
  s = fst (take_word s) +:+ snd (take_word s) ∧ is_word (fst (take_word s)) = true.
Proof.
  induction s as [|c s [IH1 IH2]]; simpl; [done|].
  destruct (is_word_char c) eqn:Ec; [|done].
  destruct (take_word s) as [w rest]. simpl in *. rewrite Ec, IH2.
  split; [by rewrite IH1 at 1|done].
Qed.

Lemma take_word_dot w rest :
  is_word w = true → take_word (w +:+ "." +:+ rest) = (w, "." +:+ rest).
Proof.
  induction w as [|c w IH]; simpl; [done|].
  intros [Hc Hw]%andb_true_iff. by rewrite Hc, (IH Hw).
Qed.

Lemma word_dot_sol_Some s w :
  word_dot_sol s = Some w → is_word w = true ∧ ∃ post, s = w +:+ ".sol" +:+ post.
Proof.
  unfold word_dot_sol. destruct (take_word_spec s) as [Hs Hw].
  destruct (take_word s) as [w' rest]. simpl in *.
  destruct (String.prefix ".sol" rest) eqn:E; [|done]. intros [= <-].
  apply prefix_app in E as [post ->]. split; [done|]. by exists post.
Qed.

Lemma word_dot_sol_complete w post :
  is_word w = true → word_dot_sol (w +:+ ".sol" +:+ post) = Some w.
Proof.
  intros Hw. unfold word_dot_sol.
  change (w +:+ ".sol" +:+ post) with (w +:+ "." +:+ ("sol" +:+ post)).
  rewrite (take_word_dot _ _ Hw).
  assert (String.prefix ".sol" ("." +:+ "sol" +:+ post) = true) as ->; [|done].
  apply prefix_app. by exists post.
Qed.

(** What [match_sol] captures is a run of word characters that stands in
    the string between a slash and [.sol]. *)
Lemma match_sol_sound s : ∀ best w,
  match_sol s best = Some w →
  best = Some w ∨
  (is_word w = true ∧ ∃ pre post, s = pre +:+ "/" +:+ w +:+ ".sol" +:+ post).
Proof.
  induction s as [|c s IH]; intros best w; cbn [match_sol]; [by left|].
  assert (Hlater : ∀ b, match_sol s b = Some w →
            b = Some w ∨
            (is_word w = true ∧
             ∃ pre post, String c s = pre +:+ "/" +:+ w +:+ ".sol" +:+ post)).
  { intros b [->|(Hw & pre & post & ->)]%IH; [by left|right].
    split; [done|]. by exists (String c pre), post. }
  destruct (is_line_terminator c).
  { destruct best; [by left|]. intros [[=]|?]%Hlater. by right. }
  destruct (Ascii.eqb_spec c "/") as [->|_]; [|apply Hlater].
  destruct (word_dot_sol s) as [w'|] eqn:E; [|apply Hlater].
  intros [[= ->]|?]%Hlater; [|by right].
  apply word_dot_sol_Some in E as (Hw & post & ->).
  right. split; [done|]. by exists "", post.
Qed.

Lemma match_sol_keeps s : ∀ w, match_sol s (Some w) ≠ None.
Proof.
  induction s as [|c s IH]; intros w; cbn [match_sol]; [done|].
  destruct (is_line_terminator c); [done|].
  destruct (Ascii.eqb c "/"); [|apply IH].
  destruct (word_dot_sol s); apply IH.
Qed.

(** The match fails exactly on the strings that have no slash followed
    by a run of word characters and [.sol]. *)
Lemma match_sol_complete pre w post : ∀ best,
  is_word w = true →
  match_sol (pre +:+ "/" +:+ w +:+ ".sol" +:+ post) best ≠ None.
Proof.
  induction pre as [|c pre IH]; intros best Hw.
  - change ("" +:+ "/" +:+ w +:+ ".sol" +:+ post)
      with (String "/" (w +:+ ".sol" +:+ post)).
    cbn [match_sol]. change (is_line_terminator "/") with false.
    change (Ascii.eqb "/" "/") with true. cbv iota.
    rewrite (word_dot_sol_complete _ _ Hw). apply match_sol_keeps.
  - change (String c pre +:+ "/" +:+ w +:+ ".sol" +:+ post)
      with (String c (pre +:+ "/" +:+ w +:+ ".sol" +:+ post)).
    cbn [match_sol]. destruct (is_line_terminator c).
    { destruct best; [done|by apply IH]. }
    destruct (Ascii.eqb c "/"); [|by apply IH].
    destruct (word_dot_sol _); by apply IH.
Qed.

Lemma string_app_assoc (a b c : string) : (a +:+ b) +:+ c = a +:+ b +:+ c.
Proof.
  induction a as [|x a IH]; [done|].
  change (String x ((a +:+ b) +:+ c) = String x (a +:+ b +:+ c)). by rewrite IH.
Qed.

Lemma string_app_nil_r (a : string) : a +:+ "" = a.
Proof.
  induction a as [|x a IH]; [done|].
  change (String x (a +:+ "") = String x a). by rewrite IH.
Qed.

Lemma prefix_nil s : String.prefix "" s = true.
Proof. by destruct s. Qed.

Lemma prefix_cons a p b s :
  String.prefix (String a p) (String b s)
  = if Ascii.eqb a b then String.prefix p s else false.
Proof.
  change (String.prefix (String a p) (String b s))
    with (match Ascii.ascii_dec a b with
          | left _ => String.prefix p s
          | right _ => false
          end).
  destruct (Ascii.ascii_dec a b) as [->|Hne]; [by rewrite Ascii.eqb_refl|].
  by apply Ascii.eqb_neq in Hne as ->.
Qed.

Lemma includes_slash_cons c s :
  includes (String c s) "/" = Ascii.eqb c "/" || includes s "/".
Proof.
  cbn [includes]. rewrite prefix_cons, prefix_nil, Ascii.eqb_sym.
  by destruct (Ascii.eqb c "/").
Qed.

Lemma word_char_not_slash c : is_word_char c = true → Ascii.eqb c "/" = false.
Proof.
  intros Hc. apply Ascii.eqb_neq. intros ->. discriminate Hc.
Qed.

Lemma word_no_slash w : is_word w = true → includes (w +:+ ".sol") "/" = false.
Proof.
  induction w as [|c w IH]; [by vm_compute|].
  cbn [is_word]. intros [Hc Hw]%andb_true_iff.
  change (String c w +:+ ".sol") with (String c (w +:+ ".sol")).
  by rewrite includes_slash_cons, (word_char_not_slash _ Hc), (IH Hw).
Qed.

(** Without a slash there is nothing to capture. *)
Lemma match_sol_no_slash s : includes s "/" = false → ∀ best, match_sol s best = best.
Proof.
  induction s as [|c s IH]; [done|].
  rewrite includes_slash_cons. intros [Hc Hs]%orb_false_iff best.
  cbn [match_sol]. rewrite Hc.
  destruct (is_line_terminator c); [destruct best; [done|by apply IH]|by apply IH].
Qed.

(** On one line, the capture is the file name that ends the path. *)
Lemma match_sol_file_name folder w :
  single_line folder = true → is_word w = true →
  ∀ best, match_sol (folder +:+ "/" +:+ w +:+ ".sol") best = Some w.
Proof.
  intros Hline Hw. induction folder as [|c folder IH]; intros best.
  - change ("" +:+ "/" +:+ w +:+ ".sol") with (String "/" (w +:+ ".sol")).
    cbn [match_sol]. change (is_line_terminator "/") with false.
    change (Ascii.eqb "/" "/") with true. cbv iota.
    replace (w +:+ ".sol") with (w +:+ ".sol" +:+ "") at 1 by (by destruct w).
    rewrite (word_dot_sol_complete _ _ Hw).
    by apply match_sol_no_slash, word_no_slash.
  - simpl in Hline. apply andb_true_iff in Hline as [Hc Hline].
    change (String c folder +:+ "/" +:+ w +:+ ".sol")
      with (String c (folder +:+ "/" +:+ w +:+ ".sol")).
    cbn [match_sol]. apply negb_true_iff in Hc. rewrite Hc.
    destruct (Ascii.eqb c "/"); [|by apply IH].
    destruct (word_dot_sol _); by apply IH.
Qed.

(** ** Keys of an object *)

Lemma insert_index_perm x l : insert_index x l ≡ₚ x :: l.
Proof.
  induction l as [|y l IH]; simpl; [done|].
  destruct (fst x <=? fst y)%N; [done|].
  rewrite IH. apply Permutation_swap.
Qed.

Lemma sort_index_perm l : sort_index l ≡ₚ l.
Proof.
  induction l as [|x l IH]; simpl; [done|].
  rewrite insert_index_perm. by rewrite IH.
Qed.

Lemma index_keys_named_keys_perm ks :
  map snd (index_keys ks) ++ named_keys ks ≡ₚ ks.
Proof.
  induction ks as [|k ks IH]; simpl; [done|].
  unfold index_keys, named_keys in *. simpl.
  destruct (array_index k); simpl.
  - by rewrite IH.
  - rewrite <- Permutation_middle. by rewrite IH.
Qed.

Lemma Object_keys_perm {V} (o : JsObject V) : Object_keys o ≡ₚ map fst o.
Proof.
  unfold Object_keys.
  rewrite (sort_index_perm (index_keys (map fst o))).
  apply index_keys_named_keys_perm.
Qed.

Lemma elem_of_Object_keys {V} (o : JsObject V) k :
  k ∈ Object_keys o ↔ k ∈ map fst o.
Proof. by rewrite Object_keys_perm. Qed.

Lemma NoDup_Object_keys {V} (o : JsObject V) :
  is_object o → NoDup (Object_keys o).
Proof. unfold is_object. by rewrite Object_keys_perm. Qed.

Lemma obj_get_Some_elem_of {V} (o : JsObject V) k v :
  obj_get o k = Some v → k ∈ map fst o.
Proof.
  induction o as [|[k' v'] o IH]; simpl; [done|].
  destruct (String.eqb_spec k' k) as [->|?]; intros H.
  - apply list_elem_of_here.
  - apply list_elem_of_further. auto.
Qed.

Lemma obj_get_is_Some {V} (o : JsObject V) k :
  k ∈ map fst o → is_Some (obj_get o k).
Proof.
  induction o as [|[k' v'] o IH]; simpl.
  - intros H. by apply elem_of_nil in H.
  - intros H. destruct (String.eqb_spec k' k) as [->|Hne]; [by eexists|].
    apply elem_of_cons in H as [H|H]; [congruence|auto].
Qed.

Lemma obj_get_None {V} (o : JsObject V) k :
  k ∉ map fst o → obj_get o k = None.
Proof.
  intros H. destruct (obj_get o k) as [v|] eqn:E; [|done].
  by apply obj_get_Some_elem_of in E.
Qed.

Lemma obj_set_fresh {V} (o : JsObject V) k v :
  k ∉ map fst o → obj_set o k v = o ++ [(k, v)].
Proof.
  induction o as [|[k' v'] o IH]; simpl; [done|].
  intros H. apply not_elem_of_cons in H as [Hne H].
  destruct (String.eqb_spec k' k) as [->|_]; [done|].
  by rewrite IH.
Qed.

Lemma insert_index_sorted x l :
  StronglySorted index_le l → StronglySorted index_le (insert_index x l).
Proof.
  induction 1 as [|y l Hs IH Hall]; simpl.
  - repeat constructor.
  - destruct (N.leb_spec (fst x) (fst y)) as [Hle|Hgt].
    + constructor; [by constructor|].
      constructor; [done|].
      eapply Forall_impl; [exact Hall|].
      intros z Hz. unfold index_le in *. lia.
    + constructor; [done|].
      rewrite (insert_index_perm x l).
      constructor; [unfold index_le; lia|done].
Qed.

Lemma sort_index_sorted l : StronglySorted index_le (sort_index l).
Proof.
  induction l; simpl; [constructor|]. by apply insert_index_sorted.
Qed.

Lemma sort_index_id l : StronglySorted index_le l → sort_index l = l.
Proof.
  induction 1 as [|x l Hs IH Hall]; simpl; [done|].
  rewrite IH. destruct l as [|y l]; simpl; [done|].
  apply Forall_cons in Hall as [Hxy _].
  unfold index_le in Hxy. by destruct (N.leb_spec (fst x) (fst y)); [|lia].
Qed.

Lemma filter_sorted (p : N * string → bool) l :
  StronglySorted index_le l → StronglySorted index_le (List.filter p l).
Proof.
  induction 1 as [|x l Hs IH Hall]; simpl; [constructor|].
  destruct (p x); [|done].
  constructor; [done|].
  apply Forall_forall. intros y Hy%list_elem_of_In%filter_In.
  destruct Hy as [Hy _]. rewrite Forall_forall in Hall.
  apply Hall. by apply list_elem_of_In.
Qed.

Lemma index_keys_app k1 k2 : index_keys (k1 ++ k2) = index_keys k1 ++ index_keys k2.
Proof. unfold index_keys. apply omap_app. Qed.

Lemma named_keys_app k1 k2 : named_keys (k1 ++ k2) = named_keys k1 ++ named_keys k2.
Proof. unfold named_keys. apply List.filter_app. Qed.

Lemma index_keys_coherent ks : coherent (index_keys ks).
Proof.
  induction ks as [|k ks IH]; simpl; [constructor|].
  unfold index_keys in *. simpl.
  destruct (array_index k) eqn:E; simpl; [|done].
  constructor; [done|done].
Qed.

Lemma coherent_index_keys l : coherent l → index_keys (map snd l) = l.
Proof.
  induction 1 as [|[n k] l Hx Hl IH]; simpl; [done|].
  unfold index_keys in *. simpl in *. rewrite Hx. simpl. by rewrite IH.
Qed.

Lemma coherent_named_keys l : coherent l → named_keys (map snd l) = [].
Proof.
  induction 1 as [|[n k] l Hx Hl IH]; simpl; [done|].
  unfold named_keys in *. simpl in *. by rewrite Hx.
Qed.

Lemma coherent_filter p l : coherent l → coherent (List.filter p l).
Proof.
  unfold coherent. rewrite !Forall_forall.
  intros H x Hx%list_elem_of_In%filter_In. apply H, list_elem_of_In, Hx.
Qed.

Lemma named_keys_index_keys ks : index_keys (named_keys ks) = [].
Proof.
  induction ks as [|k ks IH]; simpl; [done|].
  unfold named_keys, index_keys in *. simpl.
  destruct (array_index k) eqn:E; simpl; [done|]. by rewrite E.
Qed.

Lemma named_keys_idemp ks : named_keys (named_keys ks) = named_keys ks.
Proof.
  induction ks as [|k ks IH]; simpl; [done|].
  unfold named_keys in *. simpl.
  destruct (array_index k) eqn:E; simpl; [done|]. rewrite E. by f_equal.
Qed.

Lemma filter_named_keys p ks :
  List.filter p (named_keys ks) = named_keys (List.filter p ks).
Proof.
  induction ks as [|k ks IH]; simpl; [done|].
  unfold named_keys in *. simpl.
  destruct (array_index k) eqn:E, (p k) eqn:Ep; simpl; rewrite ?E, ?Ep; auto.
  by f_equal.
Qed.

Lemma filter_map_snd (p : string → bool) (l : list (N * string)) :
  List.filter p (map snd l) = map snd (List.filter (fun e => p (snd e)) l).
Proof.
  induction l as [|x l IH]; simpl; [done|].
  destruct (p (snd x)); simpl; by rewrite IH.
Qed.

(** An object whose creation order is a filtered [Object.keys] order
    lists its keys in that same order. *)
Lemma Object_keys_of_filtered {V W} (o : JsObject V) (o' : JsObject W) p :
  map fst o' = List.filter p (Object_keys o) → Object_keys o' = map fst o'.
Proof.
  intros H. unfold Object_keys at 1. rewrite H. unfold Object_keys.
  set (X := sort_index (index_keys (map fst o))).
  assert (HX : coherent X).
  { unfold coherent. subst X. rewrite sort_index_perm. apply index_keys_coherent. }
  assert (HS : StronglySorted index_le X) by apply sort_index_sorted.
  rewrite List.filter_app, index_keys_app, named_keys_app.
  rewrite filter_map_snd.
  rewrite (coherent_index_keys _ (coherent_filter _ _ HX)).
  rewrite (coherent_named_keys _ (coherent_filter _ _ HX)).
  rewrite filter_named_keys, named_keys_index_keys, named_keys_idemp.
  rewrite app_nil_r. simpl.
  by rewrite (sort_index_id _ (filter_sorted _ _ HS)).
Qed.

(** ** The import graph of a compiler input *)

Section ImportGraph.

Variable parse : string -> option (list string).
Variable input : CompilerInput.

Local Abbreviation imports_of := (imports_of parse input).
Local Abbreviation guessed_edge := (guessed_edge parse input).
Local Abbreviation guessed_reachable := (guessed_reachable parse input).
Local Abbreviation resolvable := (resolvable parse input).
Local Abbreviation visit_import := (visit_import parse input).
Local Abbreviation grown := (grown parse input).
Local Abbreviation unvisited := (unvisited input).

Lemma visit_unfold fuel s V :
  getContractImportedSourceNames_fuel parse (S fuel) s input V =
  match imports_of s with
  | Some paths => foldM (visit_import fuel) V paths
  | None =>
      match obj_get (sources input) s with
      | None => Throw (TypeError "Cannot read properties of undefined (reading 'content')")
      | Some _ => Throw (Foreign "ParserError")
      end
  end.
Proof.
  unfold imports_of. simpl.
  destruct (obj_get (sources input) s) as [entry|]; [|done].
  by destruct (parse (content entry)).
Qed.

Lemma getContractSourceName_key name p :
  getContractSourceName name input = Ret p → p ∈ map fst (sources input).
Proof.
  unfold getContractSourceName.
  destruct (find _ _) as [q|] eqn:E; [|done].
  intros [= <-]. apply find_some in E as [E _].
  by apply elem_of_Object_keys, list_elem_of_In.
Qed.

Lemma getAbsoluteSourcePath_key path p :
  getAbsoluteSourcePath path input = Ret p → p ∈ map fst (sources input).
Proof.
  unfold getAbsoluteSourcePath. destruct (match_sol path None); [|done].
  apply getContractSourceName_key.
Qed.

Lemma getAbsoluteSourcePath_total path :
  getAbsoluteSourcePath path input ≠ Diverge.
Proof.
  unfold getAbsoluteSourcePath, getContractSourceName.
  destruct (match_sol path None); [|done]. by destruct (find _ _).
Qed.

Lemma Set_add_fresh V t : Set_has V t = false → Set_add V t = V ++ [t].
Proof. unfold Set_add. by intros ->. Qed.

Lemma Set_has_true V t : Set_has V t = true ↔ t ∈ V.
Proof. unfold Set_has. apply bool_decide_eq_true. Qed.

Lemma Set_has_false V t : Set_has V t = false ↔ t ∉ V.
Proof. unfold Set_has. apply bool_decide_eq_false. Qed.

Lemma grown_refl s V : grown s V V.
Proof. split; [done|]. split; [done|]. intros x Hx Hnx. done. Qed.

(** Soundness of a returning traversal. *)
Lemma visit_sound fuel : ∀ s V V',
  getContractImportedSourceNames_fuel parse fuel s input V = Ret V' →
  grown s V V' ∧ resolvable s = true ∧ ∀ t, guessed_edge s t → t ∈ V'.
Proof.
  induction fuel as [|fuel IHfuel]; intros s V V'; [done|].
  rewrite visit_unfold.
  destruct (imports_of s) as [all|] eqn:Hall;
    [|by destruct (obj_get (sources input) s)].
  assert (Hinner : ∀ paths W W',
    paths ⊆ all → foldM (visit_import fuel) W paths = Ret W' →
    grown s W W' ∧
    ∀ p, p ∈ paths → ∃ t, getAbsoluteSourcePath p input = Ret t ∧ t ∈ W').
  { induction paths as [|p ps IHps]; intros W W' Hsub; simpl.
    - intros [= <-]. split; [apply grown_refl|]. intros p Hp.
      by apply elem_of_nil in Hp.
    - destruct (visit_import fuel W p) as [W1| |] eqn:Hstep; [|done|done].
      intros Hrest.
      apply IHps in Hrest as [(Hsub1 & Hnd1 & Hnew1) Hps]; [|set_solver].
      unfold visit_import in Hstep.
      destruct (getAbsoluteSourcePath p input) as [t| |] eqn:Hres; [|done|done].
      simpl in Hstep.
      destruct (Set_has W t) eqn:Hhas.
      + injection Hstep as <-. apply Set_has_true in Hhas.
        split; [done|]. intros p' [->|Hp']%elem_of_cons; [|by apply Hps].
        exists t. split; [done|]. by apply Hsub1.
      + rewrite (Set_add_fresh _ _ Hhas) in Hstep. apply Set_has_false in Hhas.
        apply IHfuel in Hstep as ((Hsub0 & Hnd0 & Hnew0) & Hrt & Hsucc).
        assert (Hedge : guessed_edge s t).
        { exists all, p. split; [done|]. split; [|done]. apply Hsub. left. }
        split.
        * split; [set_solver|]. split.
          { intros HndW. apply Hnd1, Hnd0. apply NoDup_app.
            split; [done|]. split; [|apply NoDup_singleton].
            intros x Hx ->%list_elem_of_singleton. done. }
          intros x Hx HxW.
          destruct (decide (x ∈ W1)) as [Hx1|Hx1]; [|by apply Hnew1].
          destruct (decide (x = t)) as [->|Hxt].
          { split; [done|]. split; [by apply rtc_once|].
            intros u Hu. by apply Hsub1, Hsucc. }
          destruct (Hnew0 x Hx1) as (Hrx & Hreach & Hsx); [set_solver|].
          split; [done|]. split; [by eapply rtc_l|].
          intros u Hu. by apply Hsub1, Hsx.
        * intros p' [->|Hp']%elem_of_cons; [|by apply Hps].
          exists t. split; [done|]. apply Hsub1, Hsub0. set_solver. }
  intros Hfold. apply Hinner in Hfold as [Hg Hps]; [|done].
  split; [done|]. split.
  - unfold resolvable. rewrite Hall. apply forallb_forall.
    intros p Hp%list_elem_of_In. by destruct (Hps p Hp) as (t & -> & _).
  - intros t (paths & p & Hpaths & Hp & Hres).
    rewrite Hall in Hpaths. injection Hpaths as <-.
    destruct (Hps p Hp) as (t' & Hres' & Ht'). congruence.
Qed.

Lemma unvisited_le V V1 : V ⊆ V1 → (unvisited V1 ≤ unvisited V)%nat.
Proof.
  intros H. unfold unvisited. apply subseteq_size.
  intros x. rewrite !elem_of_difference, !elem_of_list_to_set. set_solver.
Qed.

Lemma unvisited_add V t :
  t ∈ map fst (sources input) → t ∉ V → (unvisited (V ++ [t]) < unvisited V)%nat.
Proof.
  intros Hk Ht. unfold unvisited. apply subset_size. split.
  - intros x. rewrite !elem_of_difference, !elem_of_list_to_set. set_solver.
  - intros H. specialize (H t). revert H.
    rewrite !elem_of_difference, !elem_of_list_to_set. set_solver.
Qed.

Lemma size_list_to_set_le (l : list string) :
  (size (list_to_set l : gset string) ≤ length l)%nat.
Proof.
  induction l as [|x l IH].
  - by rewrite list_to_set_nil, size_empty.
  - rewrite list_to_set_cons, size_union_alt, size_singleton. simpl length.
    pose proof (subseteq_size (list_to_set l ∖ {[x]}) (list_to_set l : gset string)) as H.
    specialize (H ltac:(set_solver)). lia.
Qed.

Lemma unvisited_bound V : (unvisited V ≤ length (sources input))%nat.
Proof.
  unfold unvisited.
  etrans; [apply subseteq_size|].
  { apply (subseteq_difference_l _ _ _ (reflexivity _)). }
  etrans; [apply size_list_to_set_le|]. by rewrite length_map.
Qed.

(** Enough fuel: the traversal returns, or throws at a source that is
    reachable and not resolvable. *)
Lemma visit_total fuel : ∀ s V,
  (unvisited V < fuel)%nat →
  match getContractImportedSourceNames_fuel parse fuel s input V with
  | Ret _ => True
  | Throw _ => ∃ x, guessed_reachable s x ∧ resolvable x = false
  | Diverge => False
  end.
Proof.
  induction fuel as [|fuel IHfuel]; intros s V Hm; [lia|].
  rewrite visit_unfold.
  destruct (imports_of s) as [all|] eqn:Hall.
  2:{ assert (resolvable s = false) by (unfold resolvable; by rewrite Hall).
      destruct (obj_get (sources input) s); exists s; by split. }
  assert (Hinner : ∀ paths W,
    paths ⊆ all → (unvisited W ≤ fuel)%nat →
    match foldM (visit_import fuel) W paths with
    | Ret _ => True
    | Throw _ => ∃ x, guessed_reachable s x ∧ resolvable x = false
    | Diverge => False
    end).
  { induction paths as [|p ps IHps]; intros W Hsub HW; simpl; [done|].
    destruct (visit_import fuel W p) as [W1| |] eqn:Hstep.
    - apply IHps; [set_solver|].
      unfold visit_import in Hstep.
      destruct (getAbsoluteSourcePath p input) as [t| |] eqn:Hres; [|done|done].
      simpl in Hstep. destruct (Set_has W t) eqn:Hhas.
      + by injection Hstep as <-.
      + rewrite (Set_add_fresh _ _ Hhas) in Hstep.
        apply visit_sound in Hstep as ((Hsub0 & _) & _).
        etrans; [apply (unvisited_le W W1); set_solver|done].
    - unfold visit_import in Hstep.
      destruct (getAbsoluteSourcePath p input) as [t| |] eqn:Hres.
      + simpl in Hstep. destruct (Set_has W t) eqn:Hhas; [done|].
        rewrite (Set_add_fresh _ _ Hhas) in Hstep. apply Set_has_false in Hhas.
        pose proof (IHfuel t (W ++ [t])) as IH. rewrite Hstep in IH.
        destruct IH as (x & Hx & Hbad).
        { pose proof (unvisited_add W t (getAbsoluteSourcePath_key _ _ Hres) Hhas). lia. }
        exists x. split; [|done]. eapply rtc_l; [|done].
        exists all, p. split; [done|]. split; [|done]. apply Hsub. left.
      + exists s. split; [done|]. unfold resolvable. rewrite Hall.
        apply not_true_is_false. rewrite forallb_forall. intros H.
        specialize (H p). rewrite Hres in H. discriminate H.
        apply list_elem_of_In, Hsub. left.
      + by apply getAbsoluteSourcePath_total in Hres.
    - unfold visit_import in Hstep.
      destruct (getAbsoluteSourcePath p input) as [t| |] eqn:Hres.
      + simpl in Hstep. destruct (Set_has W t) eqn:Hhas; [done|].
        rewrite (Set_add_fresh _ _ Hhas) in Hstep. apply Set_has_false in Hhas.
        pose proof (IHfuel t (W ++ [t])) as IH. rewrite Hstep in IH. apply IH.
        pose proof (unvisited_add W t (getAbsoluteSourcePath_key _ _ Hres) Hhas). lia.
      + done.
      + by apply getAbsoluteSourcePath_total in Hres. }
  apply Hinner; [done|lia].
Qed.

End ImportGraph.

(** The fuel of the closure never runs out. *)
Lemma getContractImportedSourceNames_total parse sourceName' input previousSourceNames :
  getContractImportedSourceNames parse sourceName' input previousSourceNames ≠ Diverge.
Proof.
  unfold getContractImportedSourceNames. intros H.
  pose proof (visit_total parse input (S (length (sources input))) sourceName'
                previousSourceNames) as Ht.
  rewrite H in Ht. apply Ht.
  pose proof (unvisited_bound input previousSourceNames). lia.
Qed.

Lemma trimmedBuildInfoInput_total parse contractName' input :
  trimmedBuildInfoInput parse contractName' input ≠ Diverge.
Proof.
  unfold trimmedBuildInfoInput, getContractSourceName.
  destruct (find _ _) as [root|]; [|done]. simpl.
  pose proof (getContractImportedSourceNames_total parse root input (Set_add [] root)).
  by destruct (getContractImportedSourceNames parse root input (Set_add [] root)).
Qed.

(** ** Resolving a source path *)

Lemma find_first {A} (p : A → bool) (l : list A) :
  match List.find p l with
  | Some x =>
      ∃ pre post, l = pre ++ x :: post ∧ p x = true ∧ Forall (fun y => p y = false) pre
  | None => Forall (fun y => p y = false) l
  end.
Proof.
  induction l as [|a l IH]; simpl; [constructor|].
  destruct (p a) eqn:Ea.
  - exists [], l. by repeat split.
  - destruct (find p l) as [x|].
    + destruct IH as (pre & post & -> & Hx & Hpre).
      exists (a :: pre), post. repeat split; [done|]. by constructor.
    + by constructor.
Qed.

(** C5, as the code has it: [getContractSourceName] returns the first
    key of the source mapping, in [Object.keys] order, that contains the
    text [/<contractName>.sol] anywhere in it; it throws the not-found
    error exactly when no key contains that text; it has no ambiguity
    error, and it never fails when some key matches. *)
Theorem getContractSourceName_first_match (contractName' : string) (input : CompilerInput) :
  let matches := fun key => includes key ("/" +:+ contractName' +:+ ".sol") in
  match getContractSourceName contractName' input with
  | Ret found =>
      ∃ before after,
        Object_keys (sources input) = before ++ found :: after ∧
        matches found = true ∧ Forall (fun key => matches key = false) before
  | Throw e =>
      e = Error ("Could not find source name for " +:+ contractName') ∧
      Forall (fun key => matches key = false) (Object_keys (sources input))
  | Diverge => False
  end.
Proof.
  intros matches. unfold getContractSourceName.
  pose proof (find_first matches (Object_keys (sources input))) as H.
  fold matches. destruct (find matches _); [done|]. by split.
Qed.

(** C5, counterexample to the claim as stated: with two source paths
    that both end with [/Foo.sol] the function does not fail, it returns
    the first one; and a path that merely contains [/Foo.sol] is returned
    although it does not end with it and another path does. *)
Lemma getContractSourceName_counterexample :
  (ends_with "a/Foo.sol" "/Foo.sol" = true ∧ ends_with "b/Foo.sol" "/Foo.sol" = true ∧
   Object_keys Sample.two_foo = ["a/Foo.sol"; "b/Foo.sol"] ∧
   getContractSourceName "Foo" (Sample.input_of Sample.two_foo) = Ret "a/Foo.sol") ∧
  (ends_with "old/Foo.sol.bak/notes.txt" "/Foo.sol" = false ∧
   ends_with "src/Foo.sol" "/Foo.sol" = true ∧
   Object_keys Sample.foo_inside = ["old/Foo.sol.bak/notes.txt"; "src/Foo.sol"] ∧
   getContractSourceName "Foo" (Sample.input_of Sample.foo_inside)
     = Ret "old/Foo.sol.bak/notes.txt").
Proof. vm_compute. repeat split. Qed.

(** ** The import closure *)

Section Closure.

Variable parse : string -> option (list string).

Lemma closure_spec input root S :
  getContractImportedSourceNames parse root input (Set_add [] root) = Ret S →
  NoDup S ∧ (∀ x, x ∈ S ↔ guessed_reachable parse input root x) ∧
  ∀ x, x ∈ S → resolvable parse input x = true.
Proof.
  unfold getContractImportedSourceNames. intros H.
  apply visit_sound in H as ((Hsub & Hnd & Hnew) & Hroot & Hsucc).
  change (Set_add [] root) with [root] in *.
  assert (Hclosed : ∀ x, x ∈ S → ∀ t, guessed_edge parse input x t → t ∈ S).
  { intros x Hx. destruct (decide (x = root)) as [->|Hne]; [done|].
    apply Hnew; [done|]. by intros ->%list_elem_of_singleton. }
  split; [apply Hnd, NoDup_singleton|]. split.
  - intros x. split.
    + intros Hx. destruct (decide (x = root)) as [->|Hne]; [done|].
      apply Hnew; [done|]. by intros ->%list_elem_of_singleton.
    + revert x. apply (rtc_ind_r (fun x => x ∈ S) root).
      * apply Hsub. left.
      * intros y z _ Hyz Hy. by eapply Hclosed.
  - intros x Hx. destruct (decide (x = root)) as [->|Hne]; [done|].
    apply Hnew; [done|]. by intros ->%list_elem_of_singleton.
Qed.

Lemma closure_returns input root :
  (∀ x, guessed_reachable parse input root x → resolvable parse input x = true) →
  ∃ S, getContractImportedSourceNames parse root input (Set_add [] root) = Ret S.
Proof.
  intros Hgood. unfold getContractImportedSourceNames.
  pose proof (visit_total parse input (S (length (sources input))) root
                (Set_add [] root)) as H.
  destruct (getContractImportedSourceNames_fuel _ _ _ _ _) as [S'|e|].
  - by exists S'.
  - destruct H as (x & Hx & Hbad).
    + pose proof (unvisited_bound input (Set_add [] root)). lia.
    + rewrite (Hgood x Hx) in Hbad. discriminate.
  - destruct H. pose proof (unvisited_bound input (Set_add [] root)). lia.
Qed.

(** C8, amended: a returned closure contains its root; re-seeding at a
    path of the closure returns a subset of it, and that subset is the
    whole closure exactly when the root is reachable back from the
    path. *)
Theorem closure_reseeded (input : CompilerInput) (root path : string) (S : JsSet) :
  getContractImportedSourceNames parse root input (Set_add [] root) = Ret S →
  path ∈ S →
  root ∈ S ∧
  ∃ S', getContractImportedSourceNames parse path input (Set_add [] path) = Ret S' ∧
        S' ⊆ S ∧ (S ⊆ S' ↔ root ∈ S').
Proof.
  intros HS Hpath. destruct (closure_spec _ _ _ HS) as (_ & Hiff & Hres).
  assert (Hroot : root ∈ S) by by apply Hiff.
  split; [done|].
  assert (Hin : ∀ x, guessed_reachable parse input path x → x ∈ S).
  { intros x Hx. apply Hiff. etrans; [|exact Hx]. by apply Hiff. }
  destruct (closure_returns input path) as [S' HS'].
  { intros x Hx. by apply Hres, Hin. }
  exists S'. split; [done|].
  destruct (closure_spec _ _ _ HS') as (_ & Hiff' & _).
  split; [intros x Hx; by apply Hin, Hiff'|].
  split; [intros Hsub; by apply Hsub|].
  intros Hr x Hx. apply Hiff'. etrans; [by apply Hiff'|]. by apply Hiff.
Qed.

End Closure.

(** ** The closure and the import graph of the specification *)

Lemma last_segment_file folder file' :
  includes file' "/" = false →
  last_segment (folder +:+ "/" +:+ file') = file'.
Proof.
  intros Hfile. induction folder as [|c folder IH].
  - change ("" +:+ "/" +:+ file') with (String "/" file').
    cbn [last_segment]. by rewrite Hfile.
  - change (String c folder +:+ "/" +:+ file')
      with (String c (folder +:+ "/" +:+ file')).
    cbn [last_segment].
    assert (includes (folder +:+ "/" +:+ file') "/" = true) as ->; [|exact IH].
    apply includes_spec. by exists folder, file'.
Qed.

Lemma without_sol_word w : is_word w = true → without_sol (w +:+ ".sol") = Some w.
Proof.
  induction w as [|c w IH]; [done|].
  cbn [is_word]. intros [Hc Hw]%andb_true_iff.
  change (String c w +:+ ".sol") with (String c (w +:+ ".sol")).
  cbn [without_sol].
  assert (String.eqb (String c (w +:+ ".sol")) ".sol" = false) as ->.
  { apply String.eqb_neq. intros [= -> _]. discriminate Hc. }
  by rewrite (IH Hw).
Qed.

Lemma ends_with_includes s suffix : ends_with s suffix = true → includes s suffix = true.
Proof.
  intros [pre ->]%ends_with_spec. apply includes_spec.
  exists pre, "". by rewrite string_app_nil_r.
Qed.

(** On a well-named import path the guess of the code and the
    resolution of the specification agree. *)
Lemma well_named_agree input path t :
  well_named input path t →
  getAbsoluteSourcePath path input = Ret t ∧
  ∃ w, spec_file_name path = Some w ∧ spec_resolves input w t.
Proof.
  intros (folder & w & -> & Hline & Hw & Hkey & Hends & Huniq). split.
  - unfold getAbsoluteSourcePath. rewrite (match_sol_file_name _ _ Hline Hw).
    unfold getContractSourceName.
    pose proof (find_first (fun k => includes k ("/" +:+ w +:+ ".sol"))
                  (Object_keys (sources input))) as Hfind.
    destruct (find _ _) as [k|].
    + destruct Hfind as (pre & post & Hkeys & Hk & _).
      f_equal. apply Huniq; [|done]. rewrite Hkeys. apply elem_of_app. right. left.
    + rewrite Forall_forall in Hfind.
      specialize (Hfind t Hkey). cbv beta in Hfind.
      by rewrite (ends_with_includes _ _ Hends) in Hfind.
  - exists w. split.
    + unfold spec_file_name.
      rewrite last_segment_file by by apply word_no_slash.
      by apply without_sol_word.
    + split; [done|]. split; [done|].
      intros k Hk Hkends. apply Huniq; [done|]. by apply ends_with_includes.
Qed.

Lemma spec_resolves_unique input name t t' :
  spec_resolves input name t → spec_resolves input name t' → t = t'.
Proof. intros (Hk & He & _) (_ & _ & Hu). by apply Hu. Qed.

(** What is reachable from a source is that source or a source path of
    the record. *)
Lemma spec_reachable_key parse input root x :
  spec_reachable parse input root x → x = root ∨ x ∈ Object_keys (sources input).
Proof.
  intros H. apply rtc_inv_r in H as [<-|(y & _ & Hedge)]; [by left|].
  right. by destruct Hedge as (paths & path & name & _ & _ & _ & Hk & _).
Qed.

Section WellNamed.

Variable parse : string → option (list string).
Variable input : CompilerInput.
Variable root : string.

Hypothesis Hgood : well_named_from parse input root.

Lemma guessed_is_spec x :
  guessed_reachable parse input root x → spec_reachable parse input root x.
Proof.
  apply (rtc_ind_r (fun x => spec_reachable parse input root x) root); [done|].
  intros y z _ (paths & path & Himp & Hpath & Hres) IH.
  eapply rtc_r; [exact IH|].
  destruct (Hgood y IH) as (paths' & Himp' & Hnamed).
  assert (paths' = paths) as -> by congruence.
  destruct (Hnamed path Hpath) as [t Ht].
  destruct (well_named_agree _ _ _ Ht) as (Hguess & w & Hname & Hspec).
  assert (z = t) as -> by congruence.
  by exists paths, path, w.
Qed.

Lemma spec_is_guessed x :
  spec_reachable parse input root x → guessed_reachable parse input root x.
Proof.
  intros Hx.
  assert (H : spec_reachable parse input root x ∧ guessed_reachable parse input root x);
    [|by destruct H].
  revert x Hx.
  apply (rtc_ind_r (fun x => spec_reachable parse input root x ∧
                             guessed_reachable parse input root x) root); [done|].
  intros y z _ Hedge [IHs IHg].
  split; [by eapply rtc_r|]. eapply rtc_r; [exact IHg|].
  destruct Hedge as (paths & path & name & Himp & Hpath & Hname & Hspec).
  destruct (Hgood y IHs) as (paths' & Himp' & Hnamed).
  assert (paths' = paths) as -> by congruence.
  destruct (Hnamed path Hpath) as [t Ht].
  destruct (well_named_agree _ _ _ Ht) as (Hguess & w & Hname' & Hspec').
  assert (w = name) as -> by congruence.
  rewrite (spec_resolves_unique _ _ _ _ Hspec Hspec').
  by exists paths, path.
Qed.

Lemma well_named_resolvable x :
  spec_reachable parse input root x → resolvable parse input x = true.
Proof.
  intros Hx. destruct (Hgood x Hx) as (paths & Himp & Hnamed).
  unfold resolvable. rewrite Himp. apply forallb_forall. intros path Hpath.
  destruct (Hnamed path (proj2 (list_elem_of_In _ _) Hpath)) as [t Ht].
  by destruct (well_named_agree _ _ _ Ht) as (-> & _).
Qed.

End WellNamed.

(** C2, amended: when every source reachable from the root parses and
    has well-named import paths (a one-line path ending with a slash, a
    name of word characters and [.sol], for which exactly one source
    path of the record contains that ending, and ends with it), the
    closure seeded with the root returns, and what it returns has no
    duplicate and has exactly the sources reachable from the root via
    import directives as elements, the root included.  Reachable is
    what the resolution of the specification gives, not the guess of the
    code. *)
Theorem closure_exactly_reachable (parse : string → option (list string))
    (input : CompilerInput) (root : string) :
  well_named_from parse input root →
  ∃ S, getContractImportedSourceNames parse root input (Set_add [] root) = Ret S ∧
       NoDup S ∧ root ∈ S ∧ ∀ x, x ∈ S ↔ spec_reachable parse input root x.
Proof.
  intros Hgood.
  destruct (closure_returns parse input root) as [S HS].
  { intros x Hx. apply (well_named_resolvable parse input root Hgood).
    by apply guessed_is_spec. }
  exists S. split; [done|].
  destruct (closure_spec _ _ _ _ HS) as (Hnd & Hiff & _).
  split; [done|]. split; [apply Hiff; apply rtc_refl|].
  intros x. rewrite Hiff. split.
  - by apply guessed_is_spec.
  - by apply spec_is_guessed.
Qed.

(** The closure on the cycle: A imports B and B imports A. *)
Lemma closure_cycle_witness :
  getContractImportedSourceNames Sample.parser "contracts/A.sol"
    (Sample.input_of Sample.cyclic) (Set_add [] "contracts/A.sol")
  = Ret ["contracts/A.sol"; "contracts/B.sol"] ∧
  NoDup ["contracts/A.sol"; "contracts/B.sol"] ∧
  ∀ x, spec_reachable Sample.parser (Sample.input_of Sample.cyclic) "contracts/A.sol" x
       ↔ x = "contracts/A.sol" ∨ x = "contracts/B.sol".
Proof.
  destruct (closure_exactly_reachable Sample.parser (Sample.input_of Sample.cyclic)
              "contracts/A.sol") as (S & HS & Hnd & _ & Hiff).
  - assert (Hkeys : ∀ k, k ∈ Object_keys (sources (Sample.input_of Sample.cyclic)) →
                         k = "contracts/A.sol" ∨ k = "contracts/B.sol").
    { intros k Hk. apply elem_of_Object_keys in Hk. simpl in Hk.
      rewrite !elem_of_cons, elem_of_nil in Hk. tauto. }
    intros x Hx. apply spec_reachable_key in Hx as [->|Hx%Hkeys].
    2: destruct Hx as [->| ->].
    1,2: exists ["./B.sol"]; split; [reflexivity|];
         intros path ->%list_elem_of_singleton;
         exists "contracts/B.sol", ".", "B"; split; [reflexivity|];
         split; [reflexivity|]; split; [reflexivity|];
         split; [apply elem_of_Object_keys; simpl; set_solver|];
         split; [reflexivity|];
         intros k [->| ->]%Hkeys; [discriminate|reflexivity].
    exists ["./A.sol"]. split; [reflexivity|].
    intros path ->%list_elem_of_singleton.
    exists "contracts/A.sol", ".", "A". split; [reflexivity|].
    split; [reflexivity|]. split; [reflexivity|].
    split; [apply elem_of_Object_keys; simpl; set_solver|].
    split; [reflexivity|].
    intros k [->| ->]%Hkeys; [reflexivity|discriminate].
  - assert (E : getContractImportedSourceNames Sample.parser "contracts/A.sol"
                  (Sample.input_of Sample.cyclic) (Set_add [] "contracts/A.sol")
                = Ret ["contracts/A.sol"; "contracts/B.sol"]) by (vm_compute; reflexivity).
    rewrite E in HS. injection HS as <-.
    split; [exact E|]. split; [exact Hnd|].
    intros x. rewrite <- Hiff. rewrite !elem_of_cons, elem_of_nil. tauto.
Defined.

(** C2, counterexample to the claim as stated: two sources of the
    record have the file name [Foo.sol], and A imports the one in folder
    [b].  The closure of A returns A and the one in folder [a], which no
    import directive leads to, and leaves out the one that A imports. *)
Lemma closure_counterexample :
  let input := Sample.input_of Sample.same_name in
  imports_of Sample.parser input "contracts/A.sol" = Some ["./b/Foo.sol"] ∧
  getContractImportedSourceNames Sample.parser "contracts/A.sol" input
    (Set_add [] "contracts/A.sol")
  = Ret ["contracts/A.sol"; "contracts/a/Foo.sol"] ∧
  ¬ spec_reachable Sample.parser input "contracts/A.sol" "contracts/a/Foo.sol" ∧
  ¬ ∃ S, getContractImportedSourceNames Sample.parser "contracts/A.sol" input
           (Set_add [] "contracts/A.sol") = Ret S ∧
         ∀ x, x ∈ S ↔ spec_reachable Sample.parser input "contracts/A.sol" x.
Proof.
  cbn zeta.
  assert (E : getContractImportedSourceNames Sample.parser "contracts/A.sol"
                (Sample.input_of Sample.same_name) (Set_add [] "contracts/A.sol")
              = Ret ["contracts/A.sol"; "contracts/a/Foo.sol"])
    by (vm_compute; reflexivity).
  assert (Hno : ∀ y, ¬ spec_edge Sample.parser (Sample.input_of Sample.same_name)
                        "contracts/A.sol" y).
  { intros y (paths & path & name & Himp & Hpath & Hname & _ & _ & Huniq).
    injection Himp as <-. apply list_elem_of_singleton in Hpath as ->.
    injection Hname as <-.
    assert (Ha : "contracts/a/Foo.sol" = y).
    { apply Huniq; [apply elem_of_Object_keys; simpl; set_solver|reflexivity]. }
    assert (Hb : "contracts/b/Foo.sol" = y).
    { apply Huniq; [apply elem_of_Object_keys; simpl; set_solver|reflexivity]. }
    congruence. }
  assert (Hnot : ¬ spec_reachable Sample.parser (Sample.input_of Sample.same_name)
                     "contracts/A.sol" "contracts/a/Foo.sol").
  { intros H. apply rtc_inv in H as [H|(y & Hedge & _)]; [discriminate H|].
    by apply (Hno y). }
  split; [reflexivity|]. split; [exact E|]. split; [exact Hnot|].
  intros (S & HS & Hiff). rewrite E in HS. injection HS as <-.
  apply Hnot, Hiff. right. left.
Qed.

(** Re-seeding on the cycle gives the same closure from either end. *)
Lemma closure_reseeded_witness :
  "contracts/A.sol" ∈ ["contracts/A.sol"; "contracts/B.sol"] ∧
  ∃ S', getContractImportedSourceNames Sample.parser "contracts/B.sol"
          (Sample.input_of Sample.cyclic) (Set_add [] "contracts/B.sol") = Ret S' ∧
        S' ⊆ ["contracts/A.sol"; "contracts/B.sol"] ∧
        (["contracts/A.sol"; "contracts/B.sol"] ⊆ S' ↔ "contracts/A.sol" ∈ S').
Proof.
  apply (closure_reseeded Sample.parser (Sample.input_of Sample.cyclic)
           "contracts/A.sol" "contracts/B.sol" ["contracts/A.sol"; "contracts/B.sol"]).
  - vm_compute. reflexivity.
  - right. left.
Defined.

(** C8, counterexample to the claim as stated: A imports B and B imports
    nothing; B is in the closure of A, and the closure re-seeded at B is
    B alone, which is not the closure of A. *)
Lemma closure_reseeded_counterexample :
  ∃ S S',
    getContractImportedSourceNames Sample.parser "contracts/A.sol"
      (Sample.input_of Sample.abc) (Set_add [] "contracts/A.sol") = Ret S ∧
    "contracts/B.sol" ∈ S ∧
    getContractImportedSourceNames Sample.parser "contracts/B.sol"
      (Sample.input_of Sample.abc) (Set_add [] "contracts/B.sol") = Ret S' ∧
    ¬ (∀ x, x ∈ S ↔ x ∈ S').
Proof.
  exists ["contracts/A.sol"; "contracts/B.sol"], ["contracts/B.sol"].
  split; [vm_compute; reflexivity|]. split; [right; left|].
  split; [vm_compute; reflexivity|].
  intros H. specialize (H "contracts/A.sol").
  destruct H as [H _]. specialize (H ltac:(left)).
  apply list_elem_of_singleton in H. discriminate H.
Qed.

(** ** An import path without a slash *)

Lemma match_sol_without_slash path :
  includes path "/" = false → match_sol path None = None.
Proof.
  induction path as [|c path IH]; [done|].
  cbn [includes match_sol]. intros H.
  apply orb_false_iff in H as [Hc Hrest].
  destruct (is_line_terminator c); [by apply IH|].
  simpl in Hc. destruct (Ascii.eqb_spec c "/") as [->|Hne].
  - simpl in Hc. by destruct path.
  - by apply IH.
Qed.

(** C10: when the first import directive of a source has a path
    without any slash, the closure computation from that source throws
    the type error of reading index 1 of [null], whatever the record
    contains: neither a set nor one of the errors that the code raises
    itself. *)
Theorem closure_crashes_without_slash (parse : string → option (list string))
    (input : CompilerInput) (root : string) (entry : SourceEntry)
    (path : string) (rest : list string) (previousSourceNames : JsSet) :
  obj_get (sources input) root = Some entry →
  parse (content entry) = Some (path :: rest) →
  includes path "/" = false →
  getContractImportedSourceNames parse root input previousSourceNames
  = Throw (TypeError "Cannot read properties of null (reading '1')").
Proof.
  intros Hroot Hparse Hpath.
  unfold getContractImportedSourceNames. rewrite visit_unfold.
  unfold imports_of. rewrite Hroot, Hparse. simpl.
  unfold visit_import, getAbsoluteSourcePath.
  by rewrite (match_sol_without_slash _ Hpath).
Qed.

(** A imports ["Foo.sol"]; the record has [contracts/Foo.sol]. *)
Lemma closure_crashes_witness :
  getContractImportedSourceNames Sample.parser "contracts/A.sol"
    (Sample.input_of Sample.slashless) (Set_add [] "contracts/A.sol")
  = Throw (TypeError "Cannot read properties of null (reading '1')").
Proof.
  apply (closure_crashes_without_slash Sample.parser (Sample.input_of Sample.slashless)
           "contracts/A.sol" {| content := "import 'Foo.sol'; contract A {}" |}
           "Foo.sol" []); reflexivity.
Defined.

(** ** Trimming the compiler input *)

Lemma Object_keys_singleton {V} k (v : V) : Object_keys [(k, v)] = [k].
Proof.
  unfold Object_keys, index_keys, named_keys. simpl. by destruct (array_index k).
Qed.

Lemma Object_assign_singleton {V} (previous : JsObject V) k v :
  Object_assign previous [(k, v)] = obj_set previous k v.
Proof.
  unfold Object_assign. rewrite Object_keys_singleton. simpl.
  by rewrite String.eqb_refl.
Qed.

Lemma singletons_entries_at {V} (o : JsObject V) ks :
  omap (fun source => match obj_get o source with
                      | Some entry => Some [(source, entry)]
                      | None => None
                      end) ks
  = map (fun kv => [kv]) (entries_at o ks).
Proof.
  induction ks as [|k ks IH]; simpl; [done|].
  unfold entries_at in *. simpl. destruct (obj_get o k); simpl; [f_equal|]; exact IH.
Qed.

Lemma entries_at_keys {V} (o : JsObject V) ks :
  (∀ k, k ∈ ks → k ∈ map fst o) → map fst (entries_at o ks) = ks.
Proof.
  induction ks as [|k ks IH]; intros H; simpl; [done|].
  unfold entries_at in *. simpl.
  destruct (obj_get_is_Some o k) as [v ->]; [apply H; left|].
  simpl. f_equal. apply IH. intros k' Hk'. apply H. by right.
Qed.

Lemma reduce_assign {V} (kvs acc : JsObject V) :
  NoDup (map fst acc ++ map fst kvs) →
  fold_left (fun previous current => Object_assign previous current)
            (map (fun kv => [kv]) kvs) acc
  = acc ++ kvs.
Proof.
  revert acc. induction kvs as [|[k v] kvs IH]; intros acc Hnd; simpl.
  - by rewrite app_nil_r.
  - rewrite Object_assign_singleton, obj_set_fresh.
    + rewrite IH; [by rewrite <- app_assoc|].
      rewrite map_app. simpl. by rewrite <- app_assoc.
    + apply NoDup_app in Hnd as (_ & Hdisj & _).
      intros Hk. apply (Hdisj k Hk). left.
Qed.

Lemma obj_get_entries_at {V} (o : JsObject V) ks k :
  obj_get (entries_at o ks) k = if bool_decide (k ∈ ks) then obj_get o k else None.
Proof.
  induction ks as [|k0 ks IH].
  - by rewrite bool_decide_eq_false_2 by apply not_elem_of_nil.
  - unfold entries_at in *. cbn [omap list_omap].
    destruct (decide (k = k0)) as [->|Hne].
    + rewrite bool_decide_eq_true_2 by left.
      destruct (obj_get o k0) as [v|] eqn:E; simpl.
      * by rewrite String.eqb_refl.
      * rewrite IH. by case_bool_decide.
    + assert (bool_decide (k ∈ k0 :: ks) = bool_decide (k ∈ ks)) as ->.
      { apply bool_decide_ext. set_solver. }
      destruct (obj_get o k0) as [v|] eqn:E; simpl; [|done].
      destruct (String.eqb_spec k0 k); [congruence|done].
Qed.

Lemma sublist_List_filter {A} (p : A → bool) (l : list A) :
  sublist (List.filter p l) l.
Proof.
  induction l as [|x l IH]; simpl; [constructor|].
  destruct (p x); by constructor.
Qed.

(** C3: the trimmed input has exactly the sources whose key is in the
    closure, each with the entry it had, and lists them in the order in
    which the untrimmed mapping lists them: its keys are the keys of the
    original, filtered by membership in the closure, hence a
    sub-sequence of them; the settings are those of the original. *)
Theorem trimmedBuildInfoInput_keeps_order (parse : string → option (list string))
    (contractName' : string) (input : CompilerInput) (root : string) (S : JsSet) :
  is_object (sources input) →
  getContractSourceName contractName' input = Ret root →
  getContractImportedSourceNames parse root input (Set_add [] root) = Ret S →
  ∃ trimmed,
    trimmedBuildInfoInput parse contractName' input = Ret trimmed ∧
    Object_keys (sources trimmed)
      = List.filter (Set_has S) (Object_keys (sources input)) ∧
    sublist (Object_keys (sources trimmed)) (Object_keys (sources input)) ∧
    (∀ k, obj_get (sources trimmed) k
          = if Set_has S k then obj_get (sources input) k else None) ∧
    is_object (sources trimmed) ∧
    settings trimmed = settings input.
Proof.
  intros Hobj Hroot HS. unfold trimmedBuildInfoInput. rewrite Hroot. simpl.
  rewrite HS. simpl. eexists. split; [reflexivity|]. simpl.
  set (L := List.filter (Set_has S) (Object_keys (sources input))).
  assert (HndL : NoDup L).
  { apply NoDup_ListNoDup, List.NoDup_filter, NoDup_ListNoDup.
    by apply NoDup_Object_keys. }
  assert (HL : ∀ k, k ∈ L → k ∈ map fst (sources input)).
  { intros k Hk%list_elem_of_In%filter_In. apply elem_of_Object_keys, list_elem_of_In, Hk. }
  rewrite singletons_entries_at, reduce_assign by (simpl; by rewrite entries_at_keys).
  simpl.
  assert (Hkeys : Object_keys (entries_at (sources input) L) = L).
  { rewrite (Object_keys_of_filtered (sources input) _ (Set_has S));
      by rewrite entries_at_keys. }
  split; [done|]. split; [rewrite Hkeys; apply sublist_List_filter|].
  split; [|split; [|done]].
  - intros k. rewrite obj_get_entries_at.
    destruct (Set_has S k) eqn:Hk.
    + case_bool_decide as Hin; [done|].
      symmetry. apply obj_get_None. intros Hkey. apply Hin.
      apply list_elem_of_In, filter_In. split; [|done].
      by apply list_elem_of_In, elem_of_Object_keys.
    + case_bool_decide as Hin; [|done].
      apply list_elem_of_In, filter_In in Hin as [_ Hin]. congruence.
  - unfold is_object. by rewrite entries_at_keys.
Qed.

(** A imports B, C is unrelated: verifying A keeps A and B, in the order
    of the record, and leaves C out. *)
Lemma trimmedBuildInfoInput_witness :
  ∃ trimmed,
    trimmedBuildInfoInput Sample.parser "A" (Sample.input_of Sample.abc) = Ret trimmed ∧
    Object_keys (sources trimmed) = ["contracts/A.sol"; "contracts/B.sol"] ∧
    obj_get (sources trimmed) "contracts/C.sol" = None.
Proof.
  destruct (trimmedBuildInfoInput_keeps_order Sample.parser "A"
              (Sample.input_of Sample.abc) "contracts/A.sol"
              ["contracts/A.sol"; "contracts/B.sol"])
    as (trimmed & Htrim & Hkeys & _ & Hget & _).
  - unfold is_object. apply (bool_decide_unpack _). vm_compute. reflexivity.
  - vm_compute. reflexivity.
  - vm_compute. reflexivity.
  - exists trimmed. split; [exact Htrim|]. split.
    + rewrite Hkeys. vm_compute. reflexivity.
    + rewrite Hget. vm_compute. reflexivity.
Defined.

(** The order kept is that of the record, not that of the traversal:
    with the sources listed as C, B, A the traversal from A visits A and
    then B, and the trimmed input lists B and then A. *)
Example trimmedBuildInfoInput_record_order :
  getContractImportedSourceNames Sample.parser "contracts/A.sol"
    (Sample.input_of Sample.cba) (Set_add [] "contracts/A.sol")
  = Ret ["contracts/A.sol"; "contracts/B.sol"] ∧
  (let! trimmed := trimmedBuildInfoInput Sample.parser "A" (Sample.input_of Sample.cba) in
   Ret (Object_keys (sources trimmed)))
  = Ret ["contracts/B.sol"; "contracts/A.sol"].
Proof. vm_compute. split; reflexivity. Qed.

(** ** Finding the build record of a contract *)

Lemma has_contract_spec contractName' b :
  has_contract contractName' b = true ↔
  ∃ src contracts meta,
    obj_get (bi_contracts b) src = Some contracts ∧
    obj_get contracts contractName' = Some meta.
Proof.
  unfold has_contract, getAllFullyQualifiedNames. rewrite existsb_exists. split.
  - intros (q & Hq & Hname). apply String.eqb_eq in Hname.
    apply in_flat_map in Hq as (src & _ & Hq).
    destruct (obj_get (bi_contracts b) src) as [contracts|] eqn:E; [|done].
    apply in_map_iff in Hq as (c & <- & Hc). simpl in Hname. subst c.
    apply list_elem_of_In, elem_of_Object_keys, obj_get_is_Some in Hc as [meta Hmeta].
    by exists src, contracts, meta.
  - intros (src & contracts & meta & Hsrc & Hmeta).
    exists {| sourceName := src; contractName := contractName' |}.
    split; [|apply String.eqb_refl].
    apply in_flat_map. exists src. split.
    + by eapply list_elem_of_In, elem_of_Object_keys, obj_get_Some_elem_of.
    + rewrite Hsrc. apply in_map_iff. exists contractName'. split; [done|].
      by eapply list_elem_of_In, elem_of_Object_keys, obj_get_Some_elem_of.
Qed.

Lemma has_locator_spec st contractName' l :
  match store_infos st !! l with
  | Some b => has_contract contractName' b
  | None => false
  end = true ↔ has_locator st contractName' l.
Proof.
  unfold has_locator. destruct (store_infos st !! l) as [b|].
  - rewrite has_contract_spec. split.
    + intros (src & cs & meta & H1 & H2). by exists b, src, cs, meta.
    + intros (b' & src & cs & meta & [= <-] & H1 & H2). by exists src, cs, meta.
  - split; [done|]. by intros (b & _ & _ & _ & ? & _).
Qed.

(** C7: [findBuildInfoWithContract] returns the first build record of
    the array, in the order of the array, that has a locator with the
    contract name: no record before it has one, and records after it are
    not looked at; it throws the not-found error exactly when no record
    has one.  It changes nothing. *)
Theorem findBuildInfoWithContract_first (buildInfos : list loc) (contractName' : string)
    (st : State) :
  match findBuildInfoWithContract buildInfos contractName' st with
  | (Ret found, st') =>
      st' = st ∧
      ∃ before after,
        buildInfos = before ++ found :: after ∧
        has_locator st contractName' found ∧
        Forall (fun l => ¬ has_locator st contractName' l) before
  | (Throw e, st') =>
      st' = st ∧
      e = Error ("Could not find a build info for contract " +:+ contractName') ∧
      Forall (fun l => ¬ has_locator st contractName' l) buildInfos
  | (Diverge, _) => False
  end.
Proof.
  unfold findBuildInfoWithContract.
  set (p := fun buildInfo => match store_infos st !! buildInfo with
                             | Some b => has_contract contractName' b
                             | None => false
                             end).
  pose proof (find_first p buildInfos) as H.
  assert (Hno : ∀ l, Forall (fun y => p y = false) l →
                     Forall (fun l => ¬ has_locator st contractName' l) l).
  { intros l Hall. eapply Forall_impl; [exact Hall|]. intros x Hx Hl.
    apply has_locator_spec in Hl. unfold p in Hx. simpl in Hx. congruence. }
  destruct (find p buildInfos) as [found|].
  - split; [done|]. destruct H as (pre & post & -> & Hp & Hpre).
    exists pre, post. split; [done|]. split; [by apply has_locator_spec|by apply Hno].
  - split; [done|]. split; [done|by apply Hno].
Qed.

(** ** Submitting the request *)

(** C9: every run of [verifyContract] first writes the request, as the
    data of the file [./<contract_name>.json]; the request is posted only
    after that write, when the write did not throw, and the write has
    happened whether the post is then rejected, answered with a failure
    or answered with a success.  Nothing else is written or posted. *)
Theorem verifyContract_writes_request (this : Verifier) (url : string)
    (req : VerifyRequest) (st : State) :
  let file := "./" +:+ contract_name req +:+ ".json" in
  let run := verifyContract this url req st in
  store_infos (snd run) = store_infos st ∧
  store_settings (snd run) = store_settings st ∧
  match writeFileSync (network this) (trace st) file with
  | Some e =>
      fst run = Throw e ∧ trace (snd run) = trace st ++ [EvWriteFile file req]
  | None =>
      ∃ logs,
        trace (snd run) = trace st ++ EvWriteFile file req :: EvPost url req :: logs ∧
        Forall is_log logs ∧
        match axios_post (network this) (trace st ++ [EvWriteFile file req]) url req with
        | PostResolved response =>
            if data_success response then fst run = Ret response
            else ∃ e, fst run = Throw e
        | PostRejected _ => ∃ e, fst run = Throw e
        end
  end.
Proof.
  intros file run. subst run. unfold verifyContract. fold file.
  unfold bind, emit, throw, ret, console_log. simpl.
  destruct (writeFileSync (network this) (trace st) file) as [e|]; simpl; [done|].
  destruct (axios_post _ _ url req) as [[m|]|response]; simpl.
  - repeat split. exists [EvLog "error"].
    rewrite <- !app_assoc. repeat split; [|by eexists].
    repeat constructor. by eexists.
  - repeat split. exists [EvLog "error"].
    rewrite <- !app_assoc. repeat split; [|by eexists].
    repeat constructor. by eexists.
  - destruct (data_success response); simpl.
    + repeat split. exists [EvLog "Verified!"].
      rewrite <- !app_assoc. repeat split. repeat constructor. by eexists.
    + repeat split. exists []. rewrite <- !app_assoc. repeat split; [|by eexists].
      constructor.
Qed.

(** ** Running the monad *)

Lemma bind_Ret_inv {A B} (m : M A) (k : A → M B) st b st' :
  bind m k st = (Ret b, st') →
  ∃ a st1, m st = (Ret a, st1) ∧ k a st1 = (Ret b, st').
Proof.
  unfold bind. destruct (m st) as [[a|e|] st1]; [|done|done]. by exists a, st1.
Qed.

Lemma bind_inv {A B} (m : M A) (k : A → M B) st r st' :
  bind m k st = (r, st') →
  (∃ a st1, m st = (Ret a, st1) ∧ k a st1 = (r, st')) ∨
  (∃ e, m st = (Throw e, st') ∧ r = Throw e) ∨
  (m st = (Diverge, st') ∧ r = Diverge).
Proof.
  unfold bind. destruct (m st) as [[a|e|] st1].
  - left. by exists a, st1.
  - intros [= <- <-]. right. left. by exists e.
  - intros [= <- <-]. right. right. done.
Qed.

Lemma mapM_alloc files : ∀ st,
  mapM alloc_build_info files st =
  (Ret (seq (length (store_infos st)) (length files)),
   {| store_infos := store_infos st ++ loaded_infos (length (store_settings st)) files;
      store_settings := store_settings st ++ map file_settings files;
      trace := trace st |}).
Proof.
  induction files as [|f files IH]; intros st; simpl.
  - unfold ret. rewrite !app_nil_r. by destruct st.
  - unfold bind at 1. unfold alloc_build_info at 1. simpl.
    unfold bind at 1. rewrite IH. simpl. unfold ret.
    rewrite !length_app. simpl. rewrite !Nat.add_1_r.
    by rewrite <- !app_assoc.
Qed.

Lemma loaded_infos_length m files : length (loaded_infos m files) = length files.
Proof. revert m. induction files; intros m; simpl; auto. Qed.

Lemma loaded_infos_lookup files : ∀ m i f,
  files !! i = Some f →
  loaded_infos m files !! i
  = Some {| bi_input := {| language := file_language f;
                           sources := file_sources f;
                           settings := m + i |};
            bi_contracts := file_contracts f |}.
Proof.
  induction files as [|f0 files IH]; intros m i f; [done|].
  destruct i as [|i]; simpl.
  - intros [= ->]. by rewrite Nat.add_0_r.
  - intros H. rewrite (IH (S m) i f H). by replace (S m + i) with (m + S i) by lia.
Qed.

(** ** Running the verifier *)

Lemma getBuildInfos_run this st :
  getBuildInfos this st =
  match readBuildInfos (network this) (trace st) with
  | Ret files =>
      (Ret (seq (length (store_infos st)) (length files)),
       load_files files (add_event EvReadBuildInfos st))
  | Throw e => (Throw e, add_event EvReadBuildInfos st)
  | Diverge => (Diverge, add_event EvReadBuildInfos st)
  end.
Proof.
  unfold getBuildInfos, bind, call_out, bind, emit, lift.
  destruct (readBuildInfos (network this) (trace st)) as [files|e|]; [|done|done].
  by rewrite mapM_alloc.
Qed.

Lemma read_info_Ret l st b st' :
  read_info l st = (Ret b, st') → st' = st ∧ store_infos st !! l = Some b.
Proof.
  unfold read_info. destruct (store_infos st !! l); [|done]. by intros [= -> ->].
Qed.

Lemma read_settings_Ret l st s st' :
  read_settings l st = (Ret s, st') → st' = st ∧ store_settings st !! l = Some s.
Proof.
  unfold read_settings. destruct (store_settings st !! l); [|done]. by intros [= -> ->].
Qed.

Lemma lift_Ret {A} (o : outcome A) st a st' :
  lift o st = (Ret a, st') → st' = st ∧ o = Ret a.
Proof. unfold lift. by intros [= -> ->]. Qed.

Lemma snapshot_Ret l st tree st' :
  snapshot l st = (Ret tree, st') →
  st' = st ∧
  ∃ b s, store_infos st !! l = Some b ∧
         store_settings st !! settings (bi_input b) = Some s ∧
         tree = {| file_language := language (bi_input b);
                   file_sources := sources (bi_input b);
                   file_settings := s;
                   file_contracts := bi_contracts b |}.
Proof.
  unfold snapshot. intros H.
  apply bind_Ret_inv in H as (b & s1 & Hb%read_info_Ret & H). destruct Hb as [-> Hb].
  apply bind_Ret_inv in H as (s & s2 & Hs%read_settings_Ret & H). destruct Hs as [-> Hs].
  unfold ret in H. injection H as <- <-. split; [done|]. by exists b, s.
Qed.

Lemma trimmedBuildInfoInput_settings parse name input trimmed :
  trimmedBuildInfoInput parse name input = Ret trimmed →
  settings trimmed = settings input ∧ language trimmed = language input.
Proof.
  unfold trimmedBuildInfoInput.
  destruct (getContractSourceName name input) as [root| |]; [|done|done]. simpl.
  destruct (getContractImportedSourceNames parse root input _) as [S| |]; [|done|done].
  simpl. by intros [= <-].
Qed.

Lemma verifyContract_Ret this url req st r st' :
  verifyContract this url req st = (Ret r, st') →
  data_success r = true ∧
  axios_post (network this)
    (trace st ++ [EvWriteFile ("./" +:+ contract_name req +:+ ".json") req]) url req
    = PostResolved r ∧
  st' = add_event (EvLog "Verified!")
          (add_event (EvPost url req)
             (add_event (EvWriteFile ("./" +:+ contract_name req +:+ ".json") req) st)).
Proof.
  unfold verifyContract, bind, emit, throw, ret, console_log. simpl.
  destruct (writeFileSync _ _ _); simpl; [done|].
  destruct (axios_post _ _ url req) as [[m|]|response]; simpl; [done|done|].
  destruct (data_success response) eqn:E; simpl; [|done].
  by intros [= <- <-].
Qed.

Lemma attemptVerification_Ret this endpoints ci address key compilerInput version args' st r st' :
  attemptVerification this endpoints ci address key compilerInput version args' st
    = (Ret r, st') →
  ∃ s, store_settings st !! settings compilerInput = Some s ∧
       let req := request_of ci address compilerInput (optimizer s) version args' in
       data_success r = true ∧
       st' = add_event (EvSleep 5000)
               (add_event (EvLog "Verified!")
                  (add_event (EvPost (fst endpoints) req)
                     (add_event (EvWriteFile (request_file req) req)
                        (set_settings (settings compilerInput)
                           {| optimizer := optimizer s; libraries := libraryLinks ci |}
                           st)))).
Proof.
  unfold attemptVerification. intros H.
  apply bind_Ret_inv in H as (s & s1 & Hs%read_settings_Ret & H). destruct Hs as [-> Hs].
  apply bind_Ret_inv in H as ([] & s2 & Hw & H).
  unfold write_settings in Hw. injection Hw as <-.
  apply bind_Ret_inv in H as (s' & s3 & Hs'%read_settings_Ret & H).
  destruct Hs' as [-> Hs'].
  assert (s' = {| optimizer := optimizer s; libraries := libraryLinks ci |}) as ->.
  { simpl in Hs'. rewrite list_lookup_insert_eq in Hs'; [congruence|].
    by eapply lookup_lt_Some. }
  simpl in H.
  apply bind_Ret_inv in H as (r' & s4 & Hv%verifyContract_Ret & H).
  destruct Hv as (Hok & _ & ->).
  apply bind_Ret_inv in H as ([] & s5 & Hd & H).
  unfold await_delay, emit in Hd. injection Hd as <-.
  unfold ret in H. injection H as <- <-.
  exists s. split; [done|]. by split.
Qed.

Lemma verify_Ret_inv this name address args' libs st r st' :
  verify this name address args' libs st = (Ret r, st') →
  ∃ files found b trimmed s ci0 ci version,
    let st2 := add_event (EvGetCode address) (add_event (EvSleep 5000) st) in
    let st4 := load_files files (add_event EvReadBuildInfos st2) in
    readBuildInfos (network this) (trace st2) = Ret files ∧
    findBuildInfoWithContract (seq (length (store_infos st)) (length files)) name st4
      = (Ret found, st4) ∧
    store_infos st4 !! found = Some b ∧
    trimmedBuildInfoInput (parse_imports (network this)) name (bi_input b) = Ret trimmed ∧
    store_settings st4 !! settings trimmed = Some s ∧
    getLibraryLinks (network this) ci0 libs = Ret (libraryLinks ci) ∧
    let req := request_of ci address trimmed (optimizer s) version args' in
    data_success r = true ∧
    st' = add_event (EvSleep 5000)
            (add_event (EvLog "Verified!")
               (add_event (EvPost apiURL req)
                  (add_event (EvWriteFile (request_file req) req)
                     (set_settings (settings trimmed)
                        {| optimizer := optimizer s; libraries := libraryLinks ci |}
                        (set_info found
                           {| bi_input := trimmed; bi_contracts := bi_contracts b |}
                           st4))))).
Proof.
  unfold verify. intros H.
  apply bind_Ret_inv in H as ([] & s1 & H0 & H).
  unfold await_delay, emit in H0. injection H0 as <-.
  apply bind_Ret_inv in H as (hex & s2 & H1 & H).
  unfold call_out, bind, emit, lift in H1. injection H1 as Hhex <-.
  apply bind_Ret_inv in H as (locs & s3 & H2 & H).
  rewrite getBuildInfos_run in H2.
  destruct (readBuildInfos _ _) as [files| |] eqn:Hfiles; [|done|done].
  injection H2 as <- <-.
  apply bind_Ret_inv in H as (found & s4 & H3 & H).
  assert (s4 = load_files files
                 (add_event EvReadBuildInfos
                    (add_event (EvGetCode address) (add_event (EvSleep 5000) st)))) as ->.
  { unfold findBuildInfoWithContract in H3. destruct (find _ _); [|done].
    by injection H3 as _ <-. }
  apply bind_Ret_inv in H as (b & s5 & Hb%read_info_Ret & H). destruct Hb as [-> Hb].
  apply bind_Ret_inv in H as (trimmed & s6 & Ht%lift_Ret & H). destruct Ht as [-> Ht].
  apply bind_Ret_inv in H as ([] & s7 & Hw & H).
  unfold write_info in Hw. injection Hw as <-.
  apply bind_Ret_inv in H as (tree & s8 & Hsnap%snapshot_Ret & H).
  destruct Hsnap as (-> & _).
  apply bind_Ret_inv in H as (src & s9 & Hsrc%lift_Ret & H). destruct Hsrc as [-> _].
  apply bind_Ret_inv in H as (found' & s10 & Hext%lift_Ret & H). destruct Hext as [-> _].
  destruct found' as [ci0|]; [|done].
  apply bind_Ret_inv in H as (links & s11 & Hlinks%lift_Ret & H).
  destruct Hlinks as [-> Hlinks].
  apply bind_Ret_inv in H as (enc & s12 & Henc & H).
  assert (s12 = set_info found {| bi_input := trimmed; bi_contracts := bi_contracts b |}
                  (load_files files
                     (add_event EvReadBuildInfos
                        (add_event (EvGetCode address) (add_event (EvSleep 5000) st))))) as ->.
  { destruct args'; [by injection Henc as _ <-|by apply lift_Ret in Henc as [-> _]]. }
  apply bind_Ret_inv in H as (version & s13 & Hver%lift_Ret & H). destruct Hver as [-> _].
  apply bind_Ret_inv in H as (b' & s14 & Hb'%read_info_Ret & H). destruct Hb' as [-> Hb'].
  assert (b' = {| bi_input := trimmed; bi_contracts := bi_contracts b |}) as ->.
  { simpl in Hb'. rewrite list_lookup_insert_eq in Hb'; [congruence|].
    by eapply lookup_lt_Some. }
  apply attemptVerification_Ret in H as (s & Hs & Hok & ->). simpl in Hs.
  exists files, found, b, trimmed, s, ci0,
    {| ci_sourceName := ci_sourceName ci0; ci_contractName := ci_contractName ci0;
       ci_solcVersion := ci_solcVersion ci0; ci_abi := ci_abi ci0;
       libraryLinks := links |}, version.
  simpl. repeat split; done.
Qed.

Lemma fetches_app t1 t2 : fetches (t1 ++ t2) = fetches t1 + fetches t2.
Proof. unfold fetches. by rewrite List.filter_app, length_app. Qed.

Lemma waits_app t1 t2 : waits (t1 ++ t2) = waits t1 + waits t2.
Proof. unfold waits. by rewrite List.filter_app, length_app. Qed.

Lemma quiet_same {A} (m : M A) :
  (∀ st r st', m st = (r, st') → trace st' = trace st) → quiet m.
Proof. intros H st r st' Hm. exists []. rewrite app_nil_r. split; [by eapply H|done]. Qed.

Lemma quiet_ret {A} (a : A) : quiet (ret a).
Proof. apply quiet_same. by intros st r st' [= _ <-]. Qed.

Lemma quiet_throw {A} e : quiet (@throw A e).
Proof. apply quiet_same. by intros st r st' [= _ <-]. Qed.

Lemma quiet_lift {A} (o : outcome A) : quiet (lift o).
Proof. apply quiet_same. by intros st r st' [= _ <-]. Qed.

Lemma quiet_emit e : is_fetch e = false → quiet (emit e).
Proof.
  intros He st r st' [= _ <-]. exists [e]. split; [done|].
  unfold fetches. simpl. by rewrite He.
Qed.

Lemma quiet_bind {A B} (m : M A) (k : A → M B) :
  quiet m → (∀ a, quiet (k a)) → quiet (bind m k).
Proof.
  intros Hm Hk st r st' H.
  apply bind_inv in H as [(a & s1 & H1 & H2)|[(e & H1 & ->)|(H1 & ->)]].
  - apply Hm in H1 as (t1 & Ht1 & Hf1). apply Hk in H2 as (t2 & Ht2 & Hf2).
    exists (t1 ++ t2). rewrite Ht2, Ht1, <- app_assoc. split; [done|].
    rewrite fetches_app. lia.
  - by apply Hm in H1.
  - by apply Hm in H1.
Qed.

Lemma quiet_read_info l : quiet (read_info l).
Proof.
  apply quiet_same. intros st r st'. unfold read_info.
  destruct (store_infos st !! l); by intros [= _ <-].
Qed.

Lemma quiet_read_settings l : quiet (read_settings l).
Proof.
  apply quiet_same. intros st r st'. unfold read_settings.
  destruct (store_settings st !! l); by intros [= _ <-].
Qed.

Lemma quiet_write_info l b : quiet (write_info l b).
Proof. apply quiet_same. by intros st r st' [= _ <-]. Qed.

Lemma quiet_write_settings l s : quiet (write_settings l s).
Proof. apply quiet_same. by intros st r st' [= _ <-]. Qed.

Lemma quiet_getBuildInfos this : quiet (getBuildInfos this).
Proof.
  intros st r st'. rewrite getBuildInfos_run.
  destruct (readBuildInfos _ _); intros [= _ <-]; by exists [EvReadBuildInfos].
Qed.

Lemma quiet_findBuildInfoWithContract buildInfos name :
  quiet (findBuildInfoWithContract buildInfos name).
Proof.
  apply quiet_same. intros st r st'. unfold findBuildInfoWithContract.
  destruct (find _ _); by intros [= _ <-].
Qed.

Ltac quiet_step :=
  first
    [ apply quiet_ret | apply quiet_throw | apply quiet_lift
    | apply quiet_read_info | apply quiet_read_settings
    | apply quiet_write_info | apply quiet_write_settings
    | apply quiet_getBuildInfos | apply quiet_findBuildInfoWithContract
    | apply quiet_emit; reflexivity
    | apply quiet_bind; [|intros ?]
    | match goal with
      | |- quiet (match ?x with _ => _ end) => destruct x
      | |- quiet (if ?x then _ else _) => destruct x
      end ].

Lemma quiet_snapshot l : quiet (snapshot l).
Proof. unfold snapshot. repeat quiet_step. Qed.

Lemma quiet_verifyContract this url req : quiet (verifyContract this url req).
Proof.
  unfold verifyContract, console_log.
  apply quiet_bind; [|intros ?].
  { intros st r st' H. apply bind_inv in H as [(u & s1 & [= _ <-] & H)|[(e & [=] & _)|([=] & _)]].
    exists [EvWriteFile ("./" +:+ contract_name req +:+ ".json") req].
    destruct (writeFileSync _ _ _); injection H as _ <-; by split. }
  apply quiet_bind; [|intros ?].
  { intros st r st' H. apply bind_inv in H as [(u & s1 & [= _ <-] & H)|[(e & [=] & _)|([=] & _)]].
    exists [EvPost url req]. injection H as _ <-. by split. }
  repeat quiet_step.
Qed.

Lemma quiet_attemptVerification this endpoints ci address key compilerInput version args' :
  quiet (attemptVerification this endpoints ci address key compilerInput version args').
Proof.
  unfold attemptVerification, await_delay.
  repeat first [apply quiet_verifyContract | quiet_step].
Qed.

Lemma verify_trace this name address args' libs st r st' :
  verify this name address args' libs st = (r, st') →
  ∃ rest, trace st' = trace st ++ attempt_block address rest ∧ fetches rest = 0.
Proof.
  unfold verify. intros H.
  apply bind_inv in H as [(u & s1 & [= _ <-] & H)|[(e & [=] & _)|([=] & _)]].
  apply bind_inv in H as [(hex & s2 & H1 & H)|[(e & H1 & _)|(H1 & _)]];
    unfold call_out, bind, emit, lift in H1; simpl in H1; injection H1 as _ <-.
  2,3: exists []; simpl; by rewrite <- app_assoc.
  assert (Hq : quiet
    (buildInfos <- getBuildInfos this ;;
     buildInfo <- findBuildInfoWithContract buildInfos name ;;
     b <- read_info buildInfo ;;
     trimmed <- lift (trimmedBuildInfoInput (parse_imports (network this)) name (bi_input b)) ;;
     write_info buildInfo {| bi_input := trimmed; bi_contracts := bi_contracts b |} ;;
     tree <- snapshot buildInfo ;;
     sourceName' <- lift (findContractSourceName (network this) tree name) ;;
     found <- lift (extractMatchingContractInformation (network this)
                      sourceName' name tree hex) ;;
     match found with
     | None => throw (Error "Could not find a bytecode matching the requested contract")
     | Some contractInformation =>
         libraryLinks' <- lift (getLibraryLinks (network this) contractInformation libs) ;;
         let contractInformation :=
           {| ci_sourceName := ci_sourceName contractInformation;
              ci_contractName := ci_contractName contractInformation;
              ci_solcVersion := ci_solcVersion contractInformation;
              ci_abi := ci_abi contractInformation;
              libraryLinks := libraryLinks' |} in
         deployArgumentsEncoded <-
           match args' with
           | ArgsEncoded hex => ret hex
           | ArgsValues values =>
               lift (encodeArguments (network this) (ci_abi contractInformation)
                       (ci_sourceName contractInformation)
                       (ci_contractName contractInformation) values)
           end ;;
         solcFullVersion <-
           lift (getLongVersion (network this) (ci_solcVersion contractInformation)) ;;
         b' <- read_info buildInfo ;;
         attemptVerification this (apiURL, browserURL) contractInformation address
           (apiKey this) (bi_input b') solcFullVersion args'
     end)).
  { repeat first [apply quiet_snapshot | apply quiet_attemptVerification | quiet_step]. }
  apply Hq in H as (t & -> & Ht). exists t. simpl.
  rewrite <- !app_assoc. by split.
Qed.

Lemma bind_Ret_run {A B} (m : M A) (k : A → M B) st a st1 :
  m st = (Ret a, st1) → bind m k st = k a st1.
Proof. unfold bind. by intros ->. Qed.

Lemma announce_retry_run intent st :
  announce_retry intent st = (Ret tt, after_retry intent st).
Proof. reflexivity. Qed.

Lemma call_fuel_eq fuel this name address args' libs intent :
  call_fuel fuel this name address args' libs intent =
  (response <- verify this name address args' libs ;;
   match isVerificationSuccess response with
   | None => throw (TypeError "response.isVerificationSuccess is not a function")
   | Some true =>
       match URL_toString (network this) ("/address/" +:+ address +:+ "#code") browserURL with
       | Some contractURL => ret contractURL
       | None => throw (TypeError "Invalid URL")
       end
   | Some false =>
       if (intent <? MAX_VERIFICATION_INTENTS)%Z then
         match isBytecodeMissingInNetworkError response with
         | None =>
             throw (TypeError "response.isBytecodeMissingInNetworkError is not a function")
         | Some true =>
             announce_retry intent ;;
             match fuel with
             | O => lift Diverge
             | S fuel' => call_fuel fuel' this name address args' libs (intent + 1)
             end
         | Some false => throw (failure_of response)
         end
       else throw (failure_of response)
   end).
Proof. by destruct fuel. Qed.

Lemma verify_fetches this name address args' libs st r st' :
  verify this name address args' libs st = (r, st') →
  fetches (trace st') = fetches (trace st) + 1.
Proof.
  intros (rest & -> & Hrest)%verify_trace.
  rewrite fetches_app. unfold attempt_block. unfold fetches at 2. simpl.
  fold (fetches rest). lia.
Qed.

Lemma verify_Ret_waits this name address args' libs st r st' :
  verify this name address args' libs st = (Ret r, st') →
  waits (trace st') = waits (trace st) + 2.
Proof.
  intros (files & found & b & trimmed & s & ci0 & ci & version & H)%verify_Ret_inv.
  simpl in H. destruct H as (_ & _ & _ & _ & _ & _ & _ & ->). simpl.
  rewrite !waits_app. unfold waits at 2 3 4 5 6 7 8. simpl. lia.
Qed.

Lemma after_retry_fetches intent st :
  fetches (trace (after_retry intent st)) = fetches (trace st).
Proof. unfold after_retry. simpl. rewrite !fetches_app. unfold fetches at 2 3. simpl. lia. Qed.

Lemma fetches_blocks address blocks :
  Forall (fun rest => fetches rest = 0) blocks →
  fetches (concat (map (attempt_block address) blocks)) = length blocks.
Proof.
  induction 1 as [|rest blocks Hrest _ IH]; simpl; [done|].
  change (EvSleep 5000 :: EvGetCode address :: rest ++ concat (map (attempt_block address) blocks))
    with ([EvSleep 5000; EvGetCode address] ++ rest ++ concat (map (attempt_block address) blocks)).
  rewrite !fetches_app, IH, Hrest. by unfold fetches.
Qed.

(** Every run of [call] is a sequence of attempts, at least one and at
    most as many as [intent] leaves; each attempt opens with the
    completed wait and the fetch, and fetches nothing else. *)
Lemma call_blocks this name address args' libs fuel : ∀ intent st r st',
  call_fuel fuel this name address args' libs intent st = (r, st') →
  ∃ blocks,
    blocks ≠ [] ∧
    trace st' = trace st ++ concat (map (attempt_block address) blocks) ∧
    Forall (fun rest => fetches rest = 0) blocks ∧
    (length blocks ≤ S (Z.to_nat (MAX_VERIFICATION_INTENTS - intent)))%nat.
Proof.
  assert (Hone : ∀ st st' rest,
    trace st' = trace st ++ attempt_block address rest → fetches rest = 0 →
    ∀ intent, ∃ blocks,
      blocks ≠ [] ∧
      trace st' = trace st ++ concat (map (attempt_block address) blocks) ∧
      Forall (fun rest => fetches rest = 0) blocks ∧
      (length blocks ≤ S (Z.to_nat (MAX_VERIFICATION_INTENTS - intent)))%nat).
  { intros st st' rest Ht Hrest intent. exists [rest]. simpl.
    rewrite app_nil_r. repeat split; [done|done|by constructor|lia]. }
  induction fuel as [|fuel IH]; intros intent st r st'; rewrite call_fuel_eq; intros H.
  all: apply bind_inv in H as [(resp & s1 & Hv & H)|[(e & Hv & _)|(Hv & _)]];
    apply verify_trace in Hv as (rest & Ht & Hrest); [|by eapply Hone|by eapply Hone].
  all: destruct (isVerificationSuccess resp) as [[|]|];
    [destruct (URL_toString _ _ _); injection H as _ <-; by eapply Hone|
    |injection H as _ <-; by eapply Hone].
  all: destruct (Z.ltb_spec intent MAX_VERIFICATION_INTENTS) as [Hlt|Hge];
    [|injection H as _ <-; by eapply Hone].
  all: destruct (isBytecodeMissingInNetworkError resp) as [[|]|];
    [|injection H as _ <-; by eapply Hone|injection H as _ <-; by eapply Hone].
  all: rewrite (bind_Ret_run _ _ _ _ _ (announce_retry_run intent s1)) in H.
  - injection H as _ <-.
    exists [rest ++ [EvLog (retry_message intent); EvTimer 5000]].
    simpl. rewrite Ht, app_nil_r. unfold attempt_block.
    repeat (rewrite <- app_assoc; simpl).
    repeat split; [done| |lia].
    constructor; [|done]. rewrite fetches_app, Hrest. by unfold fetches.
  - apply IH in H as (blocks & Hne & Hb & Hall & Hlen).
    exists ((rest ++ [EvLog (retry_message intent); EvTimer 5000]) :: blocks).
    split; [done|]. split.
    + rewrite Hb. simpl. rewrite Ht. unfold attempt_block.
      by repeat (rewrite <- app_assoc; simpl).
    + split.
      * constructor; [|done]. rewrite fetches_app, Hrest. by unfold fetches.
      * simpl. unfold MAX_VERIFICATION_INTENTS in *. lia.
Qed.

(** The fuel of [call] never runs out: [call] diverges only when a
    call of [verify] does, that is when a collaborator never answers. *)
Lemma call_fuel_total this name address args' libs fuel : ∀ intent st,
  (Z.to_nat (MAX_VERIFICATION_INTENTS - intent) ≤ fuel)%nat →
  fst (call_fuel fuel this name address args' libs intent st) = Diverge →
  ∃ st1, fst (verify this name address args' libs st1) = Diverge.
Proof.
  induction fuel as [|fuel IH]; intros intent st Hfuel; rewrite call_fuel_eq.
  all: unfold bind at 1;
    destruct (verify this name address args' libs st) as [[resp|e|] s1] eqn:Hv;
    [|done|intros _; exists st; by rewrite Hv].
  all: destruct (isVerificationSuccess resp) as [[|]|];
    [by destruct (URL_toString _ _ _)| |done].
  all: destruct (Z.ltb_spec intent MAX_VERIFICATION_INTENTS) as [Hlt|Hge]; [|done].
  all: destruct (isBytecodeMissingInNetworkError resp) as [[|]|]; [|done|done].
  all: rewrite (bind_Ret_run _ _ _ _ _ (announce_retry_run intent s1)).
  - unfold MAX_VERIFICATION_INTENTS in *. lia.
  - apply IH. unfold MAX_VERIFICATION_INTENTS in *. lia.
Qed.

Lemma call_total this name address args' libs intent st :
  fst (call this name address args' libs intent st) = Diverge →
  ∃ st1, fst (verify this name address args' libs st1) = Diverge.
Proof. unfold call. by apply call_fuel_total. Qed.

(** [call] does not catch: what an attempt throws ends the run. *)
Lemma call_propagates this name address args' libs intent st e st' :
  verify this name address args' libs st = (Throw e, st') →
  call this name address args' libs intent st = (Throw e, st').
Proof. intros H. unfold call. rewrite call_fuel_eq. unfold bind. by rewrite H. Qed.




(** C4, amended: every run of [call] is a sequence of attempts, and
    every attempt, the first included, opens with a completed wait of
    5000 ms that is followed by the fetch of the deployed bytecode; the
    bytecode is fetched nowhere else.  An attempt that returns a
    response has completed exactly two waits. *)
Theorem call_waits_inside_attempts (this : Verifier) (name address : string)
    (args' : Args) (libs : Libraries) :
  (∀ intent st,
     ∃ blocks,
       blocks ≠ [] ∧
       trace (snd (call this name address args' libs intent st))
         = trace st ++ concat (map (attempt_block address) blocks) ∧
       Forall (fun rest => fetches rest = 0) blocks) ∧
  (∀ st r st',
     verify this name address args' libs st = (Ret r, st') →
     waits (trace st') = waits (trace st) + 2).
Proof.
  split; [|by apply verify_Ret_waits].
  intros intent st. unfold call.
  destruct (call_fuel _ this name address args' libs intent st) as [r st'] eqn:H.
  apply call_blocks in H as (blocks & Hne & Ht & Hall & _). by exists blocks.
Qed.

(** The verification service accepts the request. *)
Lemma call_waits_witness :
  waits (trace (snd (verify Cases.accepting "A" "0xabc" (ArgsEncoded "") []
                       initial_state))) = 2.
Proof.
  apply (proj2 (call_waits_inside_attempts Cases.accepting "A" "0xabc" (ArgsEncoded "") [])
           initial_state Sample.accepted).
  vm_compute. reflexivity.
Defined.

(** C4, counterexample to the claim as stated: a run whose request the
    verification service accepts makes one attempt, so no retry at all,
    and yet completes two waits of 5000 ms: it begins with one, before
    any failure, and ends with one. *)
Lemma call_waits_counterexample :
  let run := call Cases.accepting "A" "0xabc" (ArgsEncoded "") [] 1 initial_state in
  fetches (trace (snd run)) = 1 ∧
  timers (trace (snd run)) = 0 ∧
  waits (trace (snd run)) = 2 ∧
  head (trace (snd run)) = Some (EvSleep 5000) ∧
  last (trace (snd run)) = Some (EvSleep 5000).
Proof. vm_compute. repeat split. Qed.


(** The location that [findBuildInfoWithContract] returns among freshly
    loaded ones is the first whose file has a locator with the name. *)
Lemma find_loaded files name st0 found st1 :
  let st := load_files files st0 in
  findBuildInfoWithContract (seq (length (store_infos st0)) (length files)) name st
    = (Ret found, st1) →
  ∃ i file,
    found = length (store_infos st0) + i ∧ files !! i = Some file ∧
    file_has_contract name file = true ∧
    Forall (fun f => file_has_contract name f = false) (take i files) ∧
    store_infos st !! found
    = Some {| bi_input := {| language := file_language file; sources := file_sources file;
                             settings := length (store_settings st0) + i |};
              bi_contracts := file_contracts file |}.
Proof.
  cbn zeta. unfold findBuildInfoWithContract.
  set (n := length (store_infos st0)). set (m := length (store_settings st0)).
  set (p := fun buildInfo => _).
  assert (Hp : ∀ i f, files !! i = Some f →
            store_infos (load_files files st0) !! (n + i)
            = Some {| bi_input := {| language := file_language f; sources := file_sources f;
                                     settings := m + i |};
                      bi_contracts := file_contracts f |}).
  { intros i f Hf. simpl. rewrite lookup_app_r by (fold n; lia).
    replace (n + i - length (store_infos st0)) with i by (fold n; lia).
    by apply loaded_infos_lookup. }
  assert (Hpf : ∀ i f, files !! i = Some f → p (n + i) = file_has_contract name f).
  { intros i f Hf. unfold p. cbv beta. pose proof (Hp i f Hf) as E.
    unfold loc in *. by rewrite E. }
  pose proof (find_first p (seq n (length files))) as Hfind.
  destruct (find p (seq n (length files))) as [l|]; [|done].
  intros [= <- <-]. destruct Hfind as (pre & post & Hseq & Hl & Hpre).
  assert (Hlen : length (seq n (length files)) = length files) by apply length_seq.
  assert (Hl' : seq n (length files) !! length pre = Some l).
  { rewrite Hseq. by rewrite list_lookup_middle. }
  apply lookup_seq in Hl' as [-> Hlt].
  destruct (lookup_lt_is_Some_2 files (length pre) Hlt) as [file Hfile].
  exists (length pre), file. split; [done|]. split; [done|].
  split; [by rewrite <- (Hpf _ _ Hfile)|]. split; [|by apply Hp].
  apply Forall_lookup. intros j f Hj.
  apply lookup_take_Some in Hj as [Hj Hjlt].
  rewrite <- (Hpf _ _ Hj).
  assert (Hj' : pre !! j = Some (n + j)).
  { assert (Hs : seq n (length files) !! j = Some (n + j)).
    { apply lookup_seq. split; [done|]. apply lookup_lt_Some in Hj. lia. }
    rewrite Hseq, lookup_app_l in Hs by done. done. }
  rewrite Forall_lookup in Hpre. by apply (Hpre j).
Qed.

(** ** The objects after an attempt *)

















(** An attempt that fails because the bytecode matches no contract
    leaves the selected record trimmed, with the library setting that
    was loaded. *)
Example verify_failure_leaves_record_trimmed :
  let run := verify Cases.unmatched "A" "0xabc" (ArgsEncoded "") [] initial_state in
  fst run = Throw (Error "Could not find a bytecode matching the requested contract") ∧
  ∃ tree,
    fst (snapshot 1 (snd run)) = Ret tree ∧
    Object_keys (file_sources tree) = ["contracts/A.sol"; "contracts/B.sol"] ∧
    libraries (file_settings tree) = [].
Proof.
  cbn zeta. split; [vm_compute; reflexivity|].
  eexists. split; [vm_compute; reflexivity|]. vm_compute. by split.
Qed.

(** * Further properties *)

(** ** Import paths *)

(** X1: the folders of an import path play no part in its resolution.
    A path on one line that ends with a slash, a run of word characters
    and [.sol] resolves to what [getContractSourceName] finds for that
    run, whatever stands before the slash. *)
Theorem getAbsoluteSourcePath_file_name_only (folder w : string) (input : CompilerInput) :
  single_line folder = true → is_word w = true →
  getAbsoluteSourcePath (folder +:+ "/" +:+ w +:+ ".sol") input
  = getContractSourceName w input.
Proof.
  intros Hline Hw. unfold getAbsoluteSourcePath.
  by rewrite (match_sol_file_name _ _ Hline Hw).
Qed.

(** An import of [../other/B.sol] finds [contracts/B.sol]. *)
Lemma getAbsoluteSourcePath_file_name_only_witness :
  getAbsoluteSourcePath "../other/B.sol" (Sample.input_of Sample.abc)
  = Ret "contracts/B.sol".
Proof.
  exact (eq_trans
           (getAbsoluteSourcePath_file_name_only "../other" "B"
              (Sample.input_of Sample.abc) eq_refl eq_refl)
           eq_refl).
Defined.

(** ** The closure from any seed *)

(** X2: whatever set the traversal is given, it returns a set that keeps
    every member of the given one, has no duplicate when the given one
    has none, and holds beside them only source paths of the record that
    the traversal was led to from the start by its own guesses, that is
    by [getAbsoluteSourcePath] applied to one import path after the
    other.  Whether these are the files that the import directives name
    is not said. *)
Theorem closure_extends_seed (parse : string → option (list string))
    (sourceName' : string) (input : CompilerInput) (previousSourceNames S : JsSet) :
  getContractImportedSourceNames parse sourceName' input previousSourceNames = Ret S →
  previousSourceNames ⊆ S ∧
  (NoDup previousSourceNames → NoDup S) ∧
  ∀ x, x ∈ S → x ∉ previousSourceNames →
       x ∈ Object_keys (sources input) ∧ guessed_reachable parse input sourceName' x.
Proof.
  intros H. apply visit_sound in H as [(Hsub & Hnd & Hnew) _].
  split; [done|]. split; [done|].
  intros x Hx Hnx. destruct (Hnew x Hx Hnx) as (Hres & Hreach & _).
  split; [|done].
  apply elem_of_Object_keys. unfold resolvable, imports_of in Hres.
  destruct (obj_get (sources input) x) eqn:E; [|done].
  by apply obj_get_Some_elem_of in E.
Qed.

Lemma closure_extends_seed_witness :
  ["contracts/C.sol"] ⊆ ["contracts/C.sol"; "contracts/B.sol"] ∧
  (NoDup ["contracts/C.sol"] → NoDup ["contracts/C.sol"; "contracts/B.sol"]) ∧
  ∀ x, x ∈ ["contracts/C.sol"; "contracts/B.sol"] → x ∉ ["contracts/C.sol"] →
       x ∈ Object_keys (sources (Sample.input_of Sample.abc)) ∧
       guessed_reachable Sample.parser (Sample.input_of Sample.abc) "contracts/A.sol" x.
Proof.
  apply (closure_extends_seed Sample.parser "contracts/A.sol"
           (Sample.input_of Sample.abc) ["contracts/C.sol"]).
  vm_compute. reflexivity.
Defined.

(** ** Trimming, end to end *)

Lemma trimmedBuildInfoInput_run parse name input root S :
  is_object (sources input) →
  getContractSourceName name input = Ret root →
  getContractImportedSourceNames parse root input (Set_add [] root) = Ret S →
  let L := List.filter (Set_has S) (Object_keys (sources input)) in
  trimmedBuildInfoInput parse name input
  = Ret {| language := language input;
           sources := entries_at (sources input) L;
           settings := settings input |} ∧
  Object_keys (entries_at (sources input) L) = L ∧
  map fst (entries_at (sources input) L) = L ∧
  is_object (entries_at (sources input) L).
Proof.
  intros Hobj Hroot HS L. unfold trimmedBuildInfoInput. rewrite Hroot. simpl.
  rewrite HS. simpl. fold L.
  assert (HndL : NoDup L).
  { apply NoDup_ListNoDup, List.NoDup_filter, NoDup_ListNoDup.
    by apply NoDup_Object_keys. }
  assert (HL : ∀ k, k ∈ L → k ∈ map fst (sources input)).
  { intros k Hk%list_elem_of_In%filter_In. apply elem_of_Object_keys, list_elem_of_In, Hk. }
  rewrite singletons_entries_at, reduce_assign by (simpl; by rewrite entries_at_keys).
  simpl. split; [done|].
  split; [|split; [by apply entries_at_keys|unfold is_object; by rewrite entries_at_keys]].
  rewrite (Object_keys_of_filtered (sources input) _ (Set_has S));
    by rewrite entries_at_keys.
Qed.

Lemma trimmedBuildInfoInput_Ret_inv parse name input trimmed :
  trimmedBuildInfoInput parse name input = Ret trimmed →
  ∃ root S,
    getContractSourceName name input = Ret root ∧
    getContractImportedSourceNames parse root input (Set_add [] root) = Ret S.
Proof.
  unfold trimmedBuildInfoInput.
  destruct (getContractSourceName name input) as [root| |]; [|done|done]. simpl.
  destruct (getContractImportedSourceNames parse root input _) as [S| |] eqn:E;
    [|done|done].
  intros _. by exists root, S.
Qed.

Lemma closure_members_are_keys parse input root S :
  getContractImportedSourceNames parse root input (Set_add [] root) = Ret S →
  ∀ x, x ∈ S → x ∈ Object_keys (sources input).
Proof.
  intros HS x Hx. destruct (closure_spec _ _ _ _ HS) as (_ & _ & Hres).
  specialize (Hres x Hx). unfold resolvable, imports_of in Hres.
  destruct (obj_get (sources input) x) eqn:E; [|done].
  apply elem_of_Object_keys. by apply obj_get_Some_elem_of in E.
Qed.

(** X3: the sources of the trimmed input are exactly the source paths
    that the guesses of the traversal lead to from the source of the
    contract, which is the first key that contains the file name of the
    contract and is always kept.  When every source reachable from it
    parses and has well-named import paths, they are exactly the sources
    reachable via import directives, as the specification resolves
    them. *)
Theorem trimmedBuildInfoInput_keeps_closure (parse : string → option (list string))
    (contractName' : string) (input trimmed : CompilerInput) :
  is_object (sources input) →
  trimmedBuildInfoInput parse contractName' input = Ret trimmed →
  ∃ root,
    getContractSourceName contractName' input = Ret root ∧
    root ∈ Object_keys (sources trimmed) ∧
    (∀ k, k ∈ Object_keys (sources trimmed) ↔ guessed_reachable parse input root k) ∧
    (well_named_from parse input root →
     ∀ k, k ∈ Object_keys (sources trimmed) ↔ spec_reachable parse input root k).
Proof.
  intros Hobj Htrim.
  destruct (trimmedBuildInfoInput_Ret_inv _ _ _ _ Htrim) as (root & S & Hroot & HS).
  destruct (trimmedBuildInfoInput_run parse _ _ _ _ Hobj Hroot HS) as (Hrun & Hkeys & _).
  rewrite Hrun in Htrim. injection Htrim as <-. cbn [sources]. rewrite Hkeys.
  destruct (closure_spec _ _ _ _ HS) as (_ & Hiff & _).
  assert (Hmem : ∀ k, k ∈ List.filter (Set_has S) (Object_keys (sources input)) ↔ k ∈ S).
  { intros k. rewrite list_elem_of_In, filter_In, <- list_elem_of_In, Set_has_true.
    split; [by intros [_ ?]|]. intros Hk. split; [|done].
    by apply (closure_members_are_keys _ _ _ _ HS). }
  exists root. split; [done|]. split; [|split].
  - apply Hmem, Hiff. apply rtc_refl.
  - intros k. by rewrite Hmem.
  - intros Hgood k. rewrite Hmem, Hiff. split.
    + by apply guessed_is_spec.
    + by apply spec_is_guessed.
Qed.

Lemma trimmedBuildInfoInput_keeps_closure_witness :
  ∃ trimmed root,
    trimmedBuildInfoInput Sample.parser "A" (Sample.input_of Sample.abc) = Ret trimmed ∧
    getContractSourceName "A" (Sample.input_of Sample.abc) = Ret root ∧
    root ∈ Object_keys (sources trimmed) ∧
    (∀ k, k ∈ Object_keys (sources trimmed)
          ↔ guessed_reachable Sample.parser (Sample.input_of Sample.abc) root k) ∧
    (well_named_from Sample.parser (Sample.input_of Sample.abc) root →
     ∀ k, k ∈ Object_keys (sources trimmed)
          ↔ spec_reachable Sample.parser (Sample.input_of Sample.abc) root k).
Proof.
  destruct (trimmedBuildInfoInput Sample.parser "A" (Sample.input_of Sample.abc))
    as [trimmed| |] eqn:E; [|vm_compute in E; discriminate E..].
  destruct (trimmedBuildInfoInput_keeps_closure Sample.parser "A"
              (Sample.input_of Sample.abc) trimmed) as (root & H).
  - unfold is_object. vm_compute. repeat constructor; set_solver.
  - exact E.
  - by exists trimmed, root.
Defined.

Lemma find_filter {A} (p q : A → bool) (l : list A) (x : A) :
  List.find p l = Some x → q x = true → List.find p (List.filter q l) = Some x.
Proof.
  intros Hfind Hq. induction l as [|y l IH]; [done|].
  cbn [List.find] in Hfind. cbn [List.filter].
  destruct (p y) eqn:Hp.
  - injection Hfind as ->. rewrite Hq. cbn [List.find]. by rewrite Hp.
  - destruct (q y); [cbn [List.find]; rewrite Hp|]; by apply IH.
Qed.

Lemma filter_all {A} (p : A → bool) (l : list A) :
  (∀ x, x ∈ l → p x = true) → List.filter p l = l.
Proof.
  intros H. induction l as [|x l IH]; [done|]. cbn [List.filter].
  rewrite (H x) by left. f_equal. apply IH. intros y Hy. apply H. by right.
Qed.

Lemma entries_at_ext {V} (o1 o2 : JsObject V) ks :
  (∀ k, k ∈ ks → obj_get o1 k = obj_get o2 k) → entries_at o1 ks = entries_at o2 ks.
Proof.
  intros H. induction ks as [|k ks IH]; [done|].
  unfold entries_at in *. cbn [omap list_omap]. rewrite (H k) by left.
  change (list_omap ?f ?l) with (omap f l).
  rewrite IH; [done|]. intros k' Hk'. apply H. by right.
Qed.

Section Trimmed.

Variable parse : string → option (list string).
Variable input : CompilerInput.
Variable root : string.
Variable S : JsSet.

Hypothesis HS : getContractImportedSourceNames parse root input (Set_add [] root) = Ret S.

Local Abbreviation L := (List.filter (Set_has S) (Object_keys (sources input))).
Local Abbreviation T :=
  {| language := language input;
     sources := entries_at (sources input) L;
     settings := settings input |}.

Lemma trimmed_keys : Object_keys (sources T) = L.
Proof.
  cbn [sources].
  assert (HL : ∀ k, k ∈ L → k ∈ map fst (sources input)).
  { intros k Hk%list_elem_of_In%filter_In. apply elem_of_Object_keys, list_elem_of_In, Hk. }
  rewrite (Object_keys_of_filtered (sources input) _ (Set_has S));
    by rewrite entries_at_keys.
Qed.

Lemma trimmed_member k : k ∈ L ↔ k ∈ S.
Proof.
  rewrite list_elem_of_In, filter_In, <- list_elem_of_In, Set_has_true.
  split; [by intros [_ ?]|]. intros Hk. split; [|done].
  by apply (closure_members_are_keys _ _ _ _ HS).
Qed.

Lemma trimmed_get x : x ∈ S → obj_get (sources T) x = obj_get (sources input) x.
Proof.
  intros Hx. cbn [sources]. rewrite obj_get_entries_at.
  by rewrite bool_decide_eq_true_2 by by apply trimmed_member.
Qed.

Lemma trimmed_source_name w t :
  getContractSourceName w input = Ret t → t ∈ S → getContractSourceName w T = Ret t.
Proof.
  unfold getContractSourceName. rewrite trimmed_keys.
  destruct (find _ (Object_keys (sources input))) as [t'|] eqn:E; [|done].
  intros [= ->] Ht. rewrite (find_filter _ (Set_has S) _ t E); [done|].
  by apply Set_has_true.
Qed.

Lemma trimmed_path path t :
  getAbsoluteSourcePath path input = Ret t → t ∈ S → getAbsoluteSourcePath path T = Ret t.
Proof.
  unfold getAbsoluteSourcePath. destruct (match_sol path None); [|done].
  apply trimmed_source_name.
Qed.

Lemma trimmed_imports x : x ∈ S → imports_of parse T x = imports_of parse input x.
Proof. intros Hx. unfold imports_of. by rewrite trimmed_get. Qed.

Lemma closure_closed x t : x ∈ S → guessed_edge parse input x t → t ∈ S.
Proof.
  destruct (closure_spec _ _ _ _ HS) as (_ & Hiff & _).
  intros Hx Hedge. apply Hiff. eapply rtc_r; [by apply Hiff|done].
Qed.

Lemma trimmed_edge x t :
  x ∈ S → guessed_edge parse T x t ↔ guessed_edge parse input x t.
Proof.
  intros Hx. split.
  - intros (paths & path & Himp & Hpath & Hres).
    rewrite trimmed_imports in Himp by done.
    destruct (closure_spec _ _ _ _ HS) as (_ & _ & Hgood).
    specialize (Hgood x Hx). unfold resolvable in Hgood. rewrite Himp in Hgood.
    rewrite forallb_forall in Hgood.
    specialize (Hgood path (proj1 (list_elem_of_In _ _) Hpath)).
    destruct (getAbsoluteSourcePath path input) as [t0| |] eqn:E; [|done|done].
    assert (Hedge : guessed_edge parse input x t0) by by exists paths, path.
    pose proof (trimmed_path _ _ E (closure_closed _ _ Hx Hedge)) as E'.
    assert (t = t0) as -> by congruence. done.
  - intros (paths & path & Himp & Hpath & Hres).
    exists paths, path. rewrite trimmed_imports by done.
    split; [done|]. split; [done|]. apply trimmed_path; [done|].
    apply (closure_closed x); [done|]. by exists paths, path.
Qed.

Lemma trimmed_reachable x :
  guessed_reachable parse T root x ↔ guessed_reachable parse input root x.
Proof.
  destruct (closure_spec _ _ _ _ HS) as (_ & Hiff & _).
  split.
  - apply (rtc_ind_r (fun x => guessed_reachable parse input root x) root); [done|].
    intros y z _ Hedge IH. eapply rtc_r; [exact IH|].
    apply trimmed_edge; [by apply Hiff|done].
  - apply (rtc_ind_r (fun x => guessed_reachable parse T root x) root); [done|].
    intros y z Hy Hedge IH. eapply rtc_r; [exact IH|].
    apply trimmed_edge; [by apply Hiff|done].
Qed.

Lemma trimmed_resolvable x : x ∈ S → resolvable parse T x = true.
Proof.
  intros Hx. destruct (closure_spec _ _ _ _ HS) as (_ & _ & Hgood).
  pose proof (Hgood x Hx) as Hres. unfold resolvable in *.
  rewrite trimmed_imports by done.
  destruct (imports_of parse input x) as [paths|] eqn:Himp; [|done].
  rewrite forallb_forall in Hres |- *. intros path Hpath.
  specialize (Hres path Hpath).
  destruct (getAbsoluteSourcePath path input) as [t0| |] eqn:E; [|done|done].
  rewrite (trimmed_path _ _ E); [done|].
  apply (closure_closed x); [done|].
  exists paths, path. split; [done|]. split; [by apply list_elem_of_In|done].
Qed.

Lemma trimmed_closure :
  ∃ S', getContractImportedSourceNames parse root T (Set_add [] root) = Ret S' ∧
        ∀ x, x ∈ S' ↔ x ∈ S.
Proof.
  destruct (closure_spec _ _ _ _ HS) as (_ & Hiff & _).
  destruct (closure_returns parse T root) as [S' HS'].
  { intros x Hx. apply trimmed_resolvable, Hiff. by apply trimmed_reachable. }
  exists S'. split; [done|]. intros x.
  destruct (closure_spec _ _ _ _ HS') as (_ & Hiff' & _).
  by rewrite Hiff', Hiff, trimmed_reachable.
Qed.

End Trimmed.

(** X4: trimming is idempotent: the trimmed input, trimmed again for
    the same contract, is returned as it is. *)
Theorem trimmedBuildInfoInput_idempotent (parse : string → option (list string))
    (contractName' : string) (input trimmed : CompilerInput) :
  is_object (sources input) →
  trimmedBuildInfoInput parse contractName' input = Ret trimmed →
  trimmedBuildInfoInput parse contractName' trimmed = Ret trimmed.
Proof.
  intros Hobj Htrim.
  destruct (trimmedBuildInfoInput_Ret_inv _ _ _ _ Htrim) as (root & S & Hroot & HS).
  destruct (trimmedBuildInfoInput_run parse _ _ _ _ Hobj Hroot HS)
    as (Hrun & Hkeys & Hfst & Hobj').
  rewrite Hrun in Htrim. injection Htrim as <-.
  destruct (closure_spec _ _ _ _ HS) as (_ & Hiff & _).
  assert (HrootS : root ∈ S) by (apply Hiff; apply rtc_refl).
  destruct (trimmed_closure parse input root S HS) as (S' & HS' & Hsame).
  pose proof (trimmed_source_name input S _ _ Hroot HrootS) as Hroot'.
  destruct (trimmedBuildInfoInput_run parse contractName'
              {| language := language input;
                 sources := entries_at (sources input)
                              (List.filter (Set_has S) (Object_keys (sources input)));
                 settings := settings input |}
              root S' Hobj' Hroot' HS')
    as (Hrun' & _).
  rewrite Hrun'. cbn [language sources settings]. do 2 f_equal.
  rewrite Hkeys.
  rewrite (filter_all (Set_has S')).
  - apply entries_at_ext. intros k Hk. rewrite obj_get_entries_at.
    by rewrite bool_decide_eq_true_2.
  - intros x Hx. apply Set_has_true, Hsame.
    by apply (trimmed_member parse input root S HS).
Qed.

Lemma trimmedBuildInfoInput_idempotent_witness :
  ∃ trimmed,
    trimmedBuildInfoInput Sample.parser "A" (Sample.input_of Sample.abc) = Ret trimmed ∧
    trimmedBuildInfoInput Sample.parser "A" trimmed = Ret trimmed.
Proof.
  destruct (trimmedBuildInfoInput Sample.parser "A" (Sample.input_of Sample.abc))
    as [trimmed| |] eqn:E; [|vm_compute in E; discriminate E..].
  exists trimmed. split; [done|].
  apply (trimmedBuildInfoInput_idempotent Sample.parser "A" (Sample.input_of Sample.abc)).
  - unfold is_object. vm_compute. repeat constructor; set_solver.
  - exact E.
Defined.

(** ** What an attempt submits *)

Lemma request_lists_sources ci address input o version args' :
  lists_sources (request_of ci address input o version args') input.
Proof.
  unfold lists_sources, request_of. cbn [source_code].
  assert (Hkeys : ∀ k, k ∈ Object_keys (sources input) → k ∈ map fst (sources input))
    by (intros k; apply elem_of_Object_keys).
  induction (Object_keys (sources input)) as [|k ks IH]; [by split; constructor|].
  destruct (obj_get_is_Some (sources input) k) as [entry E];
    [apply Hkeys; left|].
  destruct IH as [IH1 IH2]; [intros k' Hk'; apply Hkeys; by right|].
  cbn [omap list_omap]. rewrite E. change (list_omap ?f ?l) with (omap f l).
  split.
  - cbn [map file_name]. by f_equal.
  - constructor; [|done]. exists entry. by split.
Qed.

(** A returning attempt, in terms of the files that were read. *)
Lemma verify_Ret_selected this name address args' libs st r st' :
  verify this name address args' libs st = (Ret r, st') →
  ∃ files i file trimmed ci version,
    let n := length (store_infos st) in
    let m := length (store_settings st) in
    let req := request_of ci address trimmed (optimizer (file_settings file)) version args' in
    readBuildInfos (network this) (trace st ++ [EvSleep 5000; EvGetCode address])
      = Ret files ∧
    files !! i = Some file ∧
    file_has_contract name file = true ∧
    Forall (fun f => file_has_contract name f = false) (take i files) ∧
    trimmedBuildInfoInput (parse_imports (network this)) name
      {| language := file_language file; sources := file_sources file;
         settings := m + i |} = Ret trimmed ∧
    data_success r = true ∧
    trace st' = trace st ++
      [EvSleep 5000; EvGetCode address; EvReadBuildInfos;
       EvWriteFile (request_file req) req; EvPost apiURL req;
       EvLog "Verified!"; EvSleep 5000].
Proof.
  intros H. apply verify_Ret_inv in H
    as (files & found & b & trimmed & s & ci0 & ci & version & H).
  cbn zeta in H. destruct H as (Hfiles & Hfind & Hb & Htrim & Hs & Hlinks & Hok & ->).
  set (st2 := add_event EvReadBuildInfos
                (add_event (EvGetCode address) (add_event (EvSleep 5000) st))) in *.
  change (length (store_infos st)) with (length (store_infos st2)) in Hfind.
  apply find_loaded in Hfind as (i & file & -> & Hfile & Hhas & Hpre & Hsel).
  rewrite Hsel in Hb. injection Hb as <-.
  destruct (trimmedBuildInfoInput_settings _ _ _ _ Htrim) as [Hset _].
  simpl in Hset. rewrite Hset in Hs. simpl in Hs.
  rewrite lookup_app_r in Hs by lia.
  replace (length (store_settings st) + i - length (store_settings st)) with i in Hs by lia.
  rewrite list_lookup_fmap, Hfile in Hs. injection Hs as <-.
  exists files, i, file, trimmed, ci, version. cbn zeta.
  split; [simpl in Hfiles; by rewrite <- app_assoc in Hfiles|].
  do 5 (split; [done|]).
  simpl. by repeat (rewrite <- app_assoc; simpl).
Qed.

(** X5: an attempt that returns has read the build-info files once and
    taken the first file with a locator for the contract; it has written
    and then posted one request, the same one, to the verify endpoint.
    The request lists the sources of the trimmed input of that file in
    key order with their contents, and carries the address, the compiler
    type [solidity] and the optimizer settings of the file. *)
Theorem verify_submits_trimmed_sources (this : Verifier) (name address : string)
    (args' : Args) (libs : Libraries) (st : State) (r : Response) (st' : State) :
  verify this name address args' libs st = (Ret r, st') →
  ∃ files i file trimmed req,
    readBuildInfos (network this) (trace st ++ [EvSleep 5000; EvGetCode address])
      = Ret files ∧
    files !! i = Some file ∧
    file_has_contract name file = true ∧
    Forall (fun f => file_has_contract name f = false) (take i files) ∧
    trimmedBuildInfoInput (parse_imports (network this)) name
      {| language := file_language file; sources := file_sources file;
         settings := length (store_settings st) + i |} = Ret trimmed ∧
    trace st' = trace st ++
      [EvSleep 5000; EvGetCode address; EvReadBuildInfos;
       EvWriteFile ("./" +:+ contract_name req +:+ ".json") req; EvPost apiURL req;
       EvLog "Verified!"; EvSleep 5000] ∧
    lists_sources req trimmed ∧
    contract_address req = address ∧
    compiler_type req = "solidity" ∧
    optimization req = enabled (optimizer (file_settings file)) ∧
    request_runs req = runs (optimizer (file_settings file)).
Proof.
  intros H. apply verify_Ret_selected in H
    as (files & i & file & trimmed & ci & version & H).
  cbn zeta in H. destruct H as (Hfiles & Hfile & Hhas & Hpre & Htrim & _ & Htrace).
  exists files, i, file, trimmed,
    (request_of ci address trimmed (optimizer (file_settings file)) version args').
  do 5 (split; [done|]). split; [exact Htrace|].
  split; [apply request_lists_sources|]. done.
Qed.

Lemma verify_submits_trimmed_sources_witness :
  ∃ files i file trimmed req,
    readBuildInfos (network Cases.accepting) ([] ++ [EvSleep 5000; EvGetCode "0xabc"])
      = Ret files ∧
    files !! i = Some file ∧
    file_has_contract "A" file = true ∧
    Forall (fun f => file_has_contract "A" f = false) (take i files) ∧
    trimmedBuildInfoInput (parse_imports (network Cases.accepting)) "A"
      {| language := file_language file; sources := file_sources file;
         settings := 0 + i |} = Ret trimmed ∧
    trace (snd (verify Cases.accepting "A" "0xabc" (ArgsEncoded "") [] initial_state))
    = [] ++
      [EvSleep 5000; EvGetCode "0xabc"; EvReadBuildInfos;
       EvWriteFile ("./" +:+ contract_name req +:+ ".json") req; EvPost apiURL req;
       EvLog "Verified!"; EvSleep 5000] ∧
    lists_sources req trimmed ∧
    contract_address req = "0xabc" ∧
    compiler_type req = "solidity" ∧
    optimization req = enabled (optimizer (file_settings file)) ∧
    request_runs req = runs (optimizer (file_settings file)).
Proof.
  apply (verify_submits_trimmed_sources Cases.accepting "A" "0xabc" (ArgsEncoded "") []
           initial_state Sample.accepted).
  vm_compute. reflexivity.
Defined.

Lemma verify_Ret_encodes this name address values libs st r st' :
  verify this name address (ArgsValues values) libs st = (Ret r, st') →
  ∃ abi' src cname hex, encodeArguments (network this) abi' src cname values = Ret hex.
Proof.
  unfold verify. intros H.
  do 9 (apply bind_Ret_inv in H as (? & ? & _ & H)).
  apply bind_Ret_inv in H as (found & ? & _ & H).
  destruct found as [ci0|]; [|done].
  apply bind_Ret_inv in H as (links & ? & _ & H).
  apply bind_Ret_inv in H as (enc & ? & Henc%lift_Ret & _).
  destruct Henc as [_ Henc]. eauto.
Qed.

(** X6: the request of an attempt that returns carries the constructor
    arguments as the caller gave them.  Arguments given as values have
    been encoded, without error, before the request was assembled, but
    the encoded text is not what is sent. *)
Theorem verify_sends_arguments_unencoded (this : Verifier) (name address : string)
    (args' : Args) (libs : Libraries) (st : State) (r : Response) (st' : State) :
  verify this name address args' libs st = (Ret r, st') →
  (∃ pre req post,
     trace st' = trace st ++ pre ++ EvPost apiURL req :: post ∧
     args req = args') ∧
  (∀ values, args' = ArgsValues values →
     ∃ abi' src cname hex,
       encodeArguments (network this) abi' src cname values = Ret hex).
Proof.
  intros H. split.
  - apply verify_Ret_selected in H
      as (files & i & file & trimmed & ci & version & H).
    cbn zeta in H. destruct H as (_ & _ & _ & _ & _ & _ & Htrace).
    eexists [_; _; _; _], _, [_; _]. split; [exact Htrace|]. done.
  - intros values ->. by eapply verify_Ret_encodes.
Qed.

Lemma verify_sends_arguments_unencoded_witness :
  (∃ pre req post,
     trace (snd (verify Cases.accepting "A" "0xabc" (ArgsValues ["1"; "2"]) []
                   initial_state))
     = [] ++ pre ++ EvPost apiURL req :: post ∧
     args req = ArgsValues ["1"; "2"]) ∧
  (∀ values, ArgsValues ["1"; "2"] = ArgsValues values →
     ∃ abi' src cname hex,
       encodeArguments (network Cases.accepting) abi' src cname values = Ret hex).
Proof.
  apply (verify_sends_arguments_unencoded Cases.accepting "A" "0xabc"
           (ArgsValues ["1"; "2"]) [] initial_state Sample.accepted).
  vm_compute. reflexivity.
Defined.

(** ** Failures that end a run *)

Lemma find_none_loaded files name st0 :
  Forall (fun f => file_has_contract name f = false) files →
  findBuildInfoWithContract (seq (length (store_infos st0)) (length files)) name
    (load_files files st0)
  = (Throw (Error ("Could not find a build info for contract " +:+ name)),
     load_files files st0).
Proof.
  intros Hnone.
  destruct (findBuildInfoWithContract _ name (load_files files st0)) as [[found| |] st1] eqn:E.
  - apply find_loaded in E as (i & file & _ & Hfile & Hhas & _).
    rewrite Forall_lookup in Hnone. specialize (Hnone i file Hfile). congruence.
  - unfold findBuildInfoWithContract in E. destruct (find _ _); [done|]. done.
  - unfold findBuildInfoWithContract in E. by destruct (find _ _).
Qed.

(** X7: when the provider fails to give the bytecode at the address,
    [call] throws that failure after one wait and one fetch, whatever
    [intent] is: nothing is read, written or posted, and nothing is
    retried. *)
Theorem call_fetch_failure_not_retried (this : Verifier) (name address : string)
    (args' : Args) (libs : Libraries) (intent : Z) (st : State) (e : exn) :
  retrieveContractBytecode (network this) (trace st ++ [EvSleep 5000]) address = Throw e →
  call this name address args' libs intent st
  = (Throw e, add_event (EvGetCode address) (add_event (EvSleep 5000) st)).
Proof.
  intros H. apply call_propagates.
  unfold verify, bind, await_delay, emit, call_out, bind, emit, lift. simpl.
  by rewrite H.
Qed.

Lemma call_fetch_failure_not_retried_witness :
  call Cases.no_bytecode "A" "0xabc" (ArgsEncoded "") [] 1 initial_state
  = (Throw (Foreign "The address has no bytecode"),
     add_event (EvGetCode "0xabc") (add_event (EvSleep 5000) initial_state)).
Proof.
  apply (call_fetch_failure_not_retried Cases.no_bytecode "A" "0xabc" (ArgsEncoded "") []
           1 initial_state).
  reflexivity.
Defined.

(** X8: when none of the build-info files that were read has a locator
    with the contract name, [call] throws the error that names the
    contract after one wait, one fetch and one reading of the files:
    the files stay loaded, nothing is written or posted, and nothing is
    retried. *)
Theorem call_without_build_info (this : Verifier) (name address : string)
    (args' : Args) (libs : Libraries) (intent : Z) (st : State)
    (hex : string) (files : list BuildInfoFile) :
  retrieveContractBytecode (network this) (trace st ++ [EvSleep 5000]) address = Ret hex →
  readBuildInfos (network this) (trace st ++ [EvSleep 5000; EvGetCode address])
    = Ret files →
  Forall (fun f => file_has_contract name f = false) files →
  call this name address args' libs intent st
  = (Throw (Error ("Could not find a build info for contract " +:+ name)),
     load_files files
       (add_event EvReadBuildInfos
          (add_event (EvGetCode address) (add_event (EvSleep 5000) st)))).
Proof.
  intros Hhex Hfiles Hnone. apply call_propagates.
  unfold verify.
  unfold bind at 1. unfold await_delay at 1, emit at 1.
  unfold bind at 1. unfold call_out at 1, bind at 1, emit at 1, lift at 1.
  cbn [trace add_event]. rewrite Hhex.
  unfold bind at 1. rewrite getBuildInfos_run.
  cbn [trace add_event]. rewrite <- app_assoc. cbn [app]. rewrite Hfiles.
  unfold bind at 1.
  change (length (store_infos (add_event (EvGetCode address) (add_event (EvSleep 5000) st))))
    with (length (store_infos
                    (add_event EvReadBuildInfos
                       (add_event (EvGetCode address) (add_event (EvSleep 5000) st))))).
  by rewrite find_none_loaded.
Qed.

Lemma call_without_build_info_witness :
  call Cases.accepting "Z" "0xabc" (ArgsEncoded "") [] 1 initial_state
  = (Throw (Error "Could not find a build info for contract Z"),
     load_files [Sample.other_file; Sample.abc_file]
       (add_event EvReadBuildInfos
          (add_event (EvGetCode "0xabc") (add_event (EvSleep 5000) initial_state)))).
Proof.
  apply (call_without_build_info Cases.accepting "Z" "0xabc" (ArgsEncoded "") [] 1
           initial_state "6080" [Sample.other_file; Sample.abc_file]).
  - reflexivity.
  - reflexivity.
  - repeat constructor.
Defined.

(** ** Attempts and results of a run *)

(** X9: for every [intent], a run of [call] makes at least one attempt
    and at most [max 1 (MAX_VERIFICATION_INTENTS + 1 - intent)]: one
    when [intent] is the maximum or above, three with the default 1. *)
Theorem call_attempts_bounded (this : Verifier) (name address : string)
    (args' : Args) (libs : Libraries) (intent : Z) (st : State) :
  ∃ n,
    fetches (trace (snd (call this name address args' libs intent st)))
      = fetches (trace st) + n ∧
    (1 ≤ n)%nat ∧
    (Z.of_nat n ≤ Z.max 1 (MAX_VERIFICATION_INTENTS + 1 - intent))%Z.
Proof.
  destruct (call this name address args' libs intent st) as [r st'] eqn:E.
  unfold call in E. apply call_blocks in E as (blocks & Hne & Htrace & Hquiet & Hlen).
  exists (length blocks). simpl. split; [|split].
  - rewrite Htrace, fetches_app. f_equal. by apply fetches_blocks.
  - destruct blocks; [done|simpl; lia].
  - unfold MAX_VERIFICATION_INTENTS in *. lia.
Qed.

(** ** The verification parameters *)

Lemma silent_ret {A} (a : A) : silent (ret a).
Proof. intros st r st' [= _ <-]. done. Qed.

Lemma silent_throw {A} e : silent (@throw A e).
Proof. intros st r st' [= _ <-]. done. Qed.

Lemma silent_lift {A} (o : outcome A) : silent (lift o).
Proof. intros st r st' [= _ <-]. done. Qed.

Lemma silent_bind {A B} (m : M A) (k : A → M B) :
  silent m → (∀ a, silent (k a)) → silent (bind m k).
Proof.
  intros Hm Hk st r st' H.
  apply bind_inv in H as [(a & st1 & H1 & H2)|[(e & H1 & _)|[H1 _]]].
  - destruct (Hm _ _ _ H1) as [<- <-]. by apply (Hk a _ _ _ H2).
  - by apply (Hm _ _ _ H1).
  - by apply (Hm _ _ _ H1).
Qed.

Lemma silent_read_info l : silent (read_info l).
Proof.
  intros st r st'. unfold read_info. by destruct (store_infos st !! l); intros [= _ <-].
Qed.

Lemma silent_read_settings l : silent (read_settings l).
Proof.
  intros st r st'. unfold read_settings.
  by destruct (store_settings st !! l); intros [= _ <-].
Qed.

Lemma silent_write_info l b : silent (write_info l b).
Proof. intros st r st' [= _ <-]. done. Qed.

Lemma silent_snapshot l : silent (snapshot l).
Proof.
  unfold snapshot. apply silent_bind; [apply silent_read_info|]. intros b.
  apply silent_bind; [apply silent_read_settings|]. intros s. apply silent_ret.
Qed.

Lemma silent_find locs name : silent (findBuildInfoWithContract locs name).
Proof.
  intros st r st'. unfold findBuildInfoWithContract.
  by destruct (find _ _); intros [= _ <-].
Qed.

Lemma stringifies_entries (input : CompilerInput) :
  stringifies_sources
    (omap (fun name =>
             match obj_get (sources input) name with
             | Some entry => Some (name, stringified_content (content entry))
             | None => None
             end)
          (Object_keys (sources input)))
    input.
Proof.
  unfold stringifies_sources.
  assert (Hkeys : ∀ k, k ∈ Object_keys (sources input) → k ∈ map fst (sources input))
    by (intros k; apply elem_of_Object_keys).
  induction (Object_keys (sources input)) as [|k ks IH]; [by split; constructor|].
  destruct (obj_get_is_Some (sources input) k) as [entry E];
    [apply Hkeys; left|].
  destruct IH as [IH1 IH2]; [intros k' Hk'; apply Hkeys; by right|].
  cbn [omap list_omap]. rewrite E. change (list_omap ?f ?l) with (omap f l).
  split.
  - cbn [map fst]. by f_equal.
  - constructor; [|done]. exists entry. by split.
Qed.

(** X11: when [getVerificationParams] returns, it has fetched the
    bytecode and read the build-info files, and nothing else: no wait, no
    file written, no request posted.  It has put the trimmed input in
    the place of the input of the first file with a locator for the
    contract and has changed no settings object.  The parameters list
    the sources of the trimmed input in key order, each with the text
    made of its content, give the optimizer settings of that file and
    one version for both version fields, and hold the constructor
    arguments encoded: as given when they were given as text, else as
    [encodeArguments] returned them. *)
Theorem getVerificationParams_result (this : Verifier) (name address : string)
    (args' : Args) (st : State) (p : VerificationParams) (st' : State) :
  getVerificationParams this name address args' st = (Ret p, st') →
  ∃ files i file trimmed,
    readBuildInfos (network this) (trace st ++ [EvGetCode address]) = Ret files ∧
    files !! i = Some file ∧
    file_has_contract name file = true ∧
    Forall (fun f => file_has_contract name f = false) (take i files) ∧
    trimmedBuildInfoInput (parse_imports (network this)) name
      {| language := file_language file; sources := file_sources file;
         settings := length (store_settings st) + i |} = Ret trimmed ∧
    st' = set_info (length (store_infos st) + i)
            {| bi_input := trimmed; bi_contracts := file_contracts file |}
            (load_files files
               (add_event EvReadBuildInfos (add_event (EvGetCode address) st))) ∧
    stringifies_sources (vp_sources p) trimmed ∧
    vp_name p = name ∧ vp_address p = address ∧
    vp_compilerVersion p = vp_solcFullVersion p ∧
    vp_optimizations p = optimizer (file_settings file) ∧
    match args' with
    | ArgsEncoded hex => vp_deployArguments p = hex
    | ArgsValues values =>
        ∃ abi' src cname,
          encodeArguments (network this) abi' src cname values = Ret (vp_deployArguments p)
    end.
Proof.
  unfold getVerificationParams. intros H.
  apply bind_Ret_inv in H as (hex & s2 & H1 & H).
  unfold call_out, bind, emit, lift in H1. injection H1 as Hhex <-.
  apply bind_Ret_inv in H as (locs & s3 & H2 & H).
  rewrite getBuildInfos_run in H2.
  destruct (readBuildInfos _ _) as [files| |] eqn:Hfiles; [|done|done].
  injection H2 as <- <-.
  apply bind_Ret_inv in H as (found & s4 & H3 & H).
  assert (s4 = load_files files
                 (add_event EvReadBuildInfos (add_event (EvGetCode address) st))) as ->.
  { unfold findBuildInfoWithContract in H3. destruct (find _ _); [|done].
    by injection H3 as _ <-. }
  change (length (store_infos st))
    with (length (store_infos
                    (add_event EvReadBuildInfos (add_event (EvGetCode address) st)))) in H3.
  apply find_loaded in H3 as (i & file & -> & Hfile & Hhas & Hpre & Hsel).
  apply bind_Ret_inv in H as (b & s5 & Hb%read_info_Ret & H). destruct Hb as [-> Hb].
  rewrite Hsel in Hb. injection Hb as <-. cbn [bi_input bi_contracts] in H.
  apply bind_Ret_inv in H as (trimmed & s6 & Ht%lift_Ret & H). destruct Ht as [-> Ht].
  apply bind_Ret_inv in H as ([] & s7 & Hw & H).
  unfold write_info in Hw. injection Hw as <-.
  apply bind_Ret_inv in H as (tree & s8 & Hsnap%snapshot_Ret & H).
  destruct Hsnap as (-> & _).
  apply bind_Ret_inv in H as (src & s9 & Hsrc%lift_Ret & H). destruct Hsrc as [-> _].
  apply bind_Ret_inv in H as (found' & s10 & Hext%lift_Ret & H). destruct Hext as [-> _].
  destruct found' as [ci|]; [|done].
  apply bind_Ret_inv in H as (version & s11 & Hver%lift_Ret & H). destruct Hver as [-> _].
  apply bind_Ret_inv in H as (enc & s12 & Henc & H).
  assert (s12 = set_info (length (store_infos st) + i)
                  {| bi_input := trimmed; bi_contracts := file_contracts file |}
                  (load_files files
                     (add_event EvReadBuildInfos (add_event (EvGetCode address) st)))
          ∧ match args' with
            | ArgsEncoded hex => enc = hex
            | ArgsValues values =>
                ∃ abi' src cname,
                  encodeArguments (network this) abi' src cname values = Ret enc
            end) as [-> Hargs].
  { destruct args'; [by injection Henc as <- <-|].
    apply lift_Ret in Henc as [-> Henc]. split; [done|]. eauto. }
  apply bind_Ret_inv in H as (b' & s13 & Hb'%read_info_Ret & H). destruct Hb' as [-> Hb'].
  assert (b' = {| bi_input := trimmed; bi_contracts := file_contracts file |}) as ->.
  { simpl in Hb'. rewrite list_lookup_insert_eq in Hb'; [congruence|].
    rewrite length_app, loaded_infos_length. apply lookup_lt_Some in Hfile. lia. }
  cbn [bi_input] in H.
  apply bind_Ret_inv in H as (s & s14 & Hs%read_settings_Ret & H). destruct Hs as [-> Hs].
  destruct (trimmedBuildInfoInput_settings _ _ _ _ Ht) as [Hset _].
  simpl in Hset. rewrite Hset in Hs. simpl in Hs.
  rewrite lookup_app_r in Hs by lia.
  replace (length (store_settings st) + i - length (store_settings st)) with i in Hs by lia.
  rewrite list_lookup_fmap, Hfile in Hs. injection Hs as <-.
  unfold ret in H. injection H as <- <-.
  exists files, i, file, trimmed. cbn [vp_sources vp_name vp_address vp_compilerVersion
    vp_solcFullVersion vp_optimizations vp_deployArguments].
  split; [simpl in Hfiles; done|]. do 5 (split; [done|]).
  split; [apply stringifies_entries|]. do 3 (split; [done|]).
  split; [by destruct (optimizer (file_settings file))|]. done.
Qed.

Lemma getVerificationParams_result_witness :
  ∃ files i file trimmed,
    readBuildInfos (network Cases.accepting) ([] ++ [EvGetCode "0xabc"]) = Ret files ∧
    files !! i = Some file ∧
    file_has_contract "A" file = true ∧
    Forall (fun f => file_has_contract "A" f = false) (take i files) ∧
    trimmedBuildInfoInput (parse_imports (network Cases.accepting)) "A"
      {| language := file_language file; sources := file_sources file;
         settings := 0 + i |} = Ret trimmed ∧
    snd (getVerificationParams Cases.accepting "A" "0xabc" (ArgsValues ["1"])
           initial_state)
    = set_info (0 + i)
        {| bi_input := trimmed; bi_contracts := file_contracts file |}
        (load_files files
           (add_event EvReadBuildInfos (add_event (EvGetCode "0xabc") initial_state))) ∧
    ∃ p,
      fst (getVerificationParams Cases.accepting "A" "0xabc" (ArgsValues ["1"])
             initial_state) = Ret p ∧
      stringifies_sources (vp_sources p) trimmed ∧
      vp_name p = "A" ∧ vp_address p = "0xabc" ∧
      vp_compilerVersion p = vp_solcFullVersion p ∧
      vp_optimizations p = optimizer (file_settings file) ∧
      ∃ abi' src cname,
        encodeArguments (network Cases.accepting) abi' src cname ["1"]
        = Ret (vp_deployArguments p).
Proof.
  destruct (getVerificationParams Cases.accepting "A" "0xabc" (ArgsValues ["1"])
              initial_state) as [[p| |] st'] eqn:E; [|vm_compute in E; discriminate E..].
  destruct (getVerificationParams_result Cases.accepting "A" "0xabc" (ArgsValues ["1"])
              initial_state p st' E)
    as (files & i & file & trimmed & H1 & H2 & H3 & H4 & H5 & H6 & H7).
  exists files, i, file, trimmed. do 5 (split; [done|]). split; [exact H6|].
  exists p. split; [done|]. exact H7.
Defined.

(** X12: however [getVerificationParams] ends, all that it has asked of
    the outside is the bytecode at the address and then, at most, the
    build-info files: it never waits, writes a file, posts a request or
    logs.  The settings objects that were there are as they were; the
    only new ones are those of files that were read. *)
Theorem getVerificationParams_never_submits (this : Verifier) (name address : string)
    (args' : Args) (st : State) :
  let run := getVerificationParams this name address args' st in
  (trace (snd run) = trace st ++ [EvGetCode address] ∨
   trace (snd run) = trace st ++ [EvGetCode address; EvReadBuildInfos]) ∧
  ∃ files, store_settings (snd run) = store_settings st ++ map file_settings files.
Proof.
  cbn zeta.
  destruct (getVerificationParams this name address args' st) as [r st'] eqn:H.
  unfold getVerificationParams in H. cbn [snd].
  apply bind_inv in H as [(hex & s2 & H1 & H)|[(e & H1 & _)|[H1 _]]];
    unfold call_out, bind, emit, lift in H1.
  2: { injection H1 as _ <-. split; [by left|]. exists []. simpl. by rewrite app_nil_r. }
  2: { injection H1 as _ <-. split; [by left|]. exists []. simpl. by rewrite app_nil_r. }
  injection H1 as _ <-.
  apply bind_inv in H as [(locs & s3 & H2 & H)|[(e & H2 & _)|[H2 _]]];
    rewrite getBuildInfos_run in H2;
    destruct (readBuildInfos _ _) as [files| |]; try done.
  2: { injection H2 as _ <-. split; [right; simpl; by rewrite <- app_assoc|].
       exists []. simpl. by rewrite app_nil_r. }
  2: { injection H2 as <-. split; [right; simpl; by rewrite <- app_assoc|].
       exists []. simpl. by rewrite app_nil_r. }
  injection H2 as <- <-.
  assert (Hs : silent
    (buildInfo <- findBuildInfoWithContract
                    (seq (length (store_infos (add_event (EvGetCode address) st)))
                       (length files)) name ;;
     b <- read_info buildInfo ;;
     trimmed <- lift (trimmedBuildInfoInput (parse_imports (network this)) name (bi_input b)) ;;
     write_info buildInfo {| bi_input := trimmed; bi_contracts := bi_contracts b |} ;;
     tree <- snapshot buildInfo ;;
     sourceName' <- lift (findContractSourceName (network this) tree name) ;;
     found <- lift (extractMatchingContractInformation (network this)
                      sourceName' name tree hex) ;;
     match found with
     | None => throw (Error "Could not find a bytecode matching the requested contract")
     | Some contractInformation =>
         solcFullVersion <-
           lift (getLongVersion (network this) (ci_solcVersion contractInformation)) ;;
         deployArgumentsEncoded <-
           match args' with
           | ArgsEncoded hex => ret hex
           | ArgsValues values =>
               lift (encodeArguments (network this) (ci_abi contractInformation)
                       (ci_sourceName contractInformation)
                       (ci_contractName contractInformation) values)
           end ;;
         b' <- read_info buildInfo ;;
         let build := bi_input b' in
         s <- read_settings (settings build) ;;
         let sources' :=
           omap (fun name =>
                   match obj_get (sources build) name with
                   | Some entry => Some (name, stringified_content (content entry))
                   | None => None
                   end)
                (Object_keys (sources build)) in
         ret {| vp_sources := sources';
                vp_name := name;
                vp_address := address;
                vp_solcFullVersion := solcFullVersion;
                vp_sourceName := ci_sourceName contractInformation;
                vp_contractName := ci_contractName contractInformation;
                vp_optimizations := {| enabled := enabled (optimizer s);
                                       runs := runs (optimizer s) |};
                vp_compilerVersion := solcFullVersion;
                vp_deployArguments := deployArgumentsEncoded |}
     end)).
  { apply silent_bind; [apply silent_find|]. intros l.
    apply silent_bind; [apply silent_read_info|]. intros b.
    apply silent_bind; [apply silent_lift|]. intros trimmed.
    apply silent_bind; [apply silent_write_info|]. intros _.
    apply silent_bind; [apply silent_snapshot|]. intros tree.
    apply silent_bind; [apply silent_lift|]. intros src.
    apply silent_bind; [apply silent_lift|]. intros [ci|]; [|apply silent_throw].
    apply silent_bind; [apply silent_lift|]. intros version.
    apply silent_bind; [destruct args'; [apply silent_ret|apply silent_lift]|]. intros enc.
    apply silent_bind; [apply silent_read_info|]. intros b'.
    apply silent_bind; [apply silent_read_settings|]. intros s.
    apply silent_ret. }
  apply Hs in H as [-> ->]. split.
  - right. simpl. by rewrite <- app_assoc.
  - by exists files.
Qed.

(** ** The text of a source in the verification parameters *)

Lemma replace_first_eq s pattern replacement :
  replace_first s pattern replacement
  = if String.prefix pattern s
    then replacement +:+ string_drop (String.length pattern) s
    else match s with
         | EmptyString => EmptyString
         | String c s' => String c (replace_first s' pattern replacement)
         end.
Proof. by destruct s. Qed.

Lemma replace_first_skip x pat r p s :
  lacks x p = true →
  replace_first (p +:+ s) (String x pat) r = p +:+ replace_first s (String x pat) r.
Proof.
  induction p as [|c p IH]; [done|]. cbn [lacks]. intros [Hc Hp]%andb_true_iff.
  change (String c p +:+ s) with (String c (p +:+ s)).
  rewrite replace_first_eq, prefix_cons.
  apply negb_true_iff in Hc. rewrite Hc, IH by done. done.
Qed.

Lemma replace_first_lacks x pat r p :
  lacks x p = true → replace_first p (String x pat) r = p.
Proof.
  intros H. rewrite <- (string_app_nil_r p) at 1.
  rewrite replace_first_skip by done.
  rewrite replace_first_eq. cbn [String.prefix]. apply string_app_nil_r.
Qed.

Lemma replace_first_hit x y rest :
  replace_first (String x (String y rest)) (String x (String y "")) "" = rest.
Proof.
  rewrite replace_first_eq, !prefix_cons, !Ascii.eqb_refl, prefix_nil. done.
Qed.

Lemma replace_first_pass x d e rest r :
  Ascii.eqb e d = false →
  replace_first (String x (String d rest)) (String x (String e "")) r
  = String x (replace_first (String d rest) (String x (String e "")) r).
Proof.
  intros H. by rewrite replace_first_eq, !prefix_cons, Ascii.eqb_refl, H.
Qed.

Lemma lacks_app x a b : lacks x (a +:+ b) = lacks x a && lacks x b.
Proof.
  induction a as [|c a IH]; [done|].
  change (String c a +:+ b) with (String c (a +:+ b)). cbn [lacks].
  by rewrite IH, andb_assoc.
Qed.

Lemma plain_char_spec c :
  is_plain_char c = true →
  json_escape_char c = String c "" ∧
  Ascii.eqb backslash c = false ∧ Ascii.eqb double_quote c = false.
Proof.
  destruct c as [[] [] [] [] [] [] [] []]; vm_compute; try done.
Qed.

Lemma plain_lacks_backslash s : is_plain s = true → lacks backslash s = true.
Proof.
  induction s as [|c s IH]; [done|]. cbn [is_plain lacks].
  intros [Hc Hs]%andb_true_iff.
  destruct (plain_char_spec c Hc) as (_ & -> & _). by rewrite IH.
Qed.

Lemma json_escape_plain_app a rest :
  is_plain a = true → json_escape (a +:+ rest) = a +:+ json_escape rest.
Proof.
  induction a as [|c a IH]; [done|]. cbn [is_plain].
  intros [Hc Ha]%andb_true_iff.
  change (String c a +:+ rest) with (String c (a +:+ rest)). cbn [json_escape].
  destruct (plain_char_spec c Hc) as (-> & _). by rewrite IH.
Qed.

Lemma json_escape_plain a : is_plain a = true → json_escape a = a.
Proof.
  intros H. rewrite <- (string_app_nil_r a) at 1.
  rewrite json_escape_plain_app by done. apply string_app_nil_r.
Qed.

(** X13: of a content without quote, backslash and control character
    the parameters hold the content between double quotes.  Of a content
    with two line feeds they hold the quoted content with the first line
    feed gone and the second one written as its escape; and likewise the
    first double quote of a content is gone and the second one is
    written as its escape. *)
Theorem stringified_content_first_only (a b c : string) :
  is_plain a = true → is_plain b = true → is_plain c = true →
  stringified_content a = in_quotes a ∧
  stringified_content (a +:+ line_feed +:+ b +:+ line_feed +:+ c)
  = in_quotes (a +:+ b +:+ escaped_line_feed +:+ c) ∧
  stringified_content (a +:+ String double_quote b +:+ String double_quote c)
  = in_quotes (a +:+ b +:+ escaped_quote +:+ c).
Proof.
  intros Ha Hb Hc.
  pose proof (plain_lacks_backslash a Ha) as La.
  pose proof (plain_lacks_backslash b Hb) as Lb.
  pose proof (plain_lacks_backslash c Hc) as Lc.
  assert (Lq : ∀ s, lacks backslash s = true →
                    lacks backslash (s +:+ String double_quote "") = true).
  { intros s Hs. by rewrite lacks_app, Hs. }
  unfold stringified_content, JSON_stringify, in_quotes.
  split; [|split].
  - rewrite json_escape_plain by done.
    assert (L : lacks backslash (String double_quote (a +:+ String double_quote "")) = true).
    { cbn [lacks]. by rewrite (Lq a La). }
    by rewrite !(replace_first_lacks backslash _ _ _ L).
  - rewrite json_escape_plain_app by done.
    change (line_feed +:+ b +:+ line_feed +:+ c)
      with (String (ascii_of_nat 10) (b +:+ String (ascii_of_nat 10) c)).
    cbn [json_escape].
    rewrite json_escape_plain_app by done. cbn [json_escape].
    rewrite json_escape_plain by done.
    change (json_escape_char (ascii_of_nat 10)) with escaped_line_feed.
    rewrite !string_app_assoc.
    change (String double_quote (a +:+ escaped_line_feed +:+ b +:+ escaped_line_feed +:+ c +:+ String double_quote ""))
      with (String double_quote a +:+
            String backslash (String "n" (b +:+ escaped_line_feed +:+ c +:+ String double_quote ""))).
    rewrite replace_first_skip by (cbn [lacks]; by rewrite La).
    rewrite replace_first_hit.
    rewrite <- (string_app_assoc (String double_quote a) b).
    change (escaped_line_feed +:+ c +:+ String double_quote "") with (String backslash (String "n" (c +:+ String double_quote ""))).
    rewrite replace_first_skip by (rewrite lacks_app; cbn [lacks]; by rewrite La, Lb).
    rewrite replace_first_pass by done.
    rewrite (replace_first_lacks backslash) by (cbn [lacks]; by rewrite (Lq c Lc)).
    by rewrite string_app_assoc.
  - rewrite json_escape_plain_app by done.
    change (String double_quote b +:+ String double_quote c)
      with (String double_quote (b +:+ String double_quote c)).
    cbn [json_escape].
    rewrite json_escape_plain_app by done. cbn [json_escape].
    rewrite json_escape_plain by done.
    change (json_escape_char double_quote) with escaped_quote.
    rewrite !string_app_assoc.
    change (String double_quote (a +:+ escaped_quote +:+ b +:+ escaped_quote +:+ c +:+ String double_quote ""))
      with (String double_quote a +:+
            String backslash (String double_quote
              (b +:+ String backslash (String double_quote (c +:+ String double_quote ""))))).
    rewrite replace_first_skip by (cbn [lacks]; by rewrite La).
    rewrite replace_first_pass by done.
    change (String double_quote (b +:+ String backslash (String double_quote (c +:+ String double_quote ""))))
      with (String double_quote b +:+ String backslash (String double_quote (c +:+ String double_quote ""))).
    rewrite (replace_first_skip backslash _ _ (String double_quote b))
      by (cbn [lacks]; by rewrite Lb).
    rewrite replace_first_pass by done.
    rewrite (replace_first_lacks backslash _ _
               (String double_quote (c +:+ String double_quote "")))
      by (cbn [lacks]; by rewrite (Lq c Lc)).
    change (String backslash (String double_quote b +:+
                              String backslash (String double_quote (c +:+ String double_quote ""))))
      with (String backslash (String double_quote
              (b +:+ String backslash (String double_quote (c +:+ String double_quote ""))))).
    rewrite replace_first_skip by (cbn [lacks]; by rewrite La).
    rewrite replace_first_hit.
    done.
Qed.

Lemma stringified_content_first_only_witness :
  stringified_content "contract A {" = in_quotes "contract A {" ∧
  stringified_content ("contract A {" +:+ line_feed +:+ "  uint x;" +:+ line_feed +:+ "}")
  = in_quotes ("contract A {" +:+ "  uint x;" +:+ escaped_line_feed +:+ "}") ∧
  stringified_content ("string s = " +:+ String double_quote "a" +:+ String double_quote ";")
  = in_quotes ("string s = " +:+ "a" +:+ escaped_quote +:+ ";").
Proof.
  split; [|split].
  - apply (stringified_content_first_only "contract A {" "" ""); reflexivity.
  - apply (stringified_content_first_only "contract A {" "  uint x;" "}"); reflexivity.
  - apply (stringified_content_first_only "string s = " "a" ";"); reflexivity.
Defined.

(** ** The shape of an attempt *)

Lemma verifyContract_shape this req st r st' :
  verifyContract this apiURL req st = (r, st') →
  ∃ sub, trace st' = trace st ++ sub ∧
         match r with
         | Ret _ => sub = [EvWriteFile (request_file req) req; EvPost apiURL req;
                           EvLog "Verified!"]
         | _ => submission req false sub
         end.
Proof.
  unfold verifyContract, bind, emit, throw, ret, console_log, submission, request_file.
  simpl.
  destruct (writeFileSync _ _ _); simpl.
  { intros [= <- <-]. eexists. split; [reflexivity|]. by left. }
  destruct (axios_post _ _ _ req) as [[m|]|response]; simpl.
  - intros [= <- <-]. eexists. simpl. split; [by repeat (rewrite <- app_assoc; simpl)|].
    right. by left.
  - intros [= <- <-]. eexists. simpl. split; [by repeat (rewrite <- app_assoc; simpl)|].
    right. by left.
  - destruct (data_success response); simpl.
    + intros [= <- <-]. eexists. simpl. split; [by repeat (rewrite <- app_assoc; simpl)|].
      done.
    + intros [= <- <-]. eexists. simpl. split; [by repeat (rewrite <- app_assoc; simpl)|].
      right. by right.
Qed.

Lemma attemptVerification_shape this ci address key compilerInput version args' st r st' :
  attemptVerification this (apiURL, browserURL) ci address key compilerInput version args' st
    = (r, st') →
  (returned r = false ∧ trace st' = trace st) ∨
  ∃ req sub, trace st' = trace st ++ sub ∧ submission req (returned r) sub.
Proof.
  unfold attemptVerification. intros H.
  apply bind_inv in H as [(s & s1 & H1 & H)|[(e & H1 & ->)|[H1 ->]]];
    apply silent_read_settings in H1 as [H1 _];
    [|by left|by left].
  apply bind_inv in H as [([] & s2 & H2 & H)|[(e & H2 & ->)|[H2 ->]]];
    unfold write_settings in H2; [|done|done]. injection H2 as <-.
  apply bind_inv in H as [(s' & s3 & H3 & H)|[(e & H3 & ->)|[H3 ->]]];
    apply silent_read_settings in H3 as [H3 _];
    [|left; split; [done|]; by rewrite H3, <- H1..].
  cbn [fst] in H.
  apply bind_inv in H as [(resp & s4 & H4 & H)|[(e & H4 & ->)|[H4 ->]]];
    apply verifyContract_shape in H4 as (sub & Ht & Hsub).
  2,3: right; eexists _, sub; split; [|exact Hsub]; by rewrite Ht, H3, <- H1.
  apply bind_inv in H as [([] & s5 & H5 & H)|[(e & H5 & ->)|[H5 ->]]];
    unfold await_delay, emit in H5; [|done|done]. injection H5 as <-.
  unfold ret in H. injection H as <- <-.
  right. eexists _, (sub ++ [EvSleep 5000]). split.
  - simpl. rewrite Ht, H3. simpl. rewrite H1. by rewrite <- app_assoc.
  - rewrite Hsub. simpl. unfold submission. reflexivity.
Qed.

(** Every attempt, however it ends, has one of the shapes. *)
Lemma verify_shape this name address args' libs st r st' :
  verify this name address args' libs st = (r, st') →
  ∃ t, trace st' = trace st ++ t ∧ attempt_shape address (returned r) t.
Proof.
  intros H. unfold verify in H.
  apply bind_inv in H as [([] & s1 & H0 & H)|[(e & H0 & ->)|[H0 ->]]];
    unfold await_delay, emit in H0; [|done|done]. injection H0 as <-.
  apply bind_inv in H as [(hex & s2 & H1 & H)|[(e & H1 & ->)|[H1 ->]]];
    unfold call_out, bind, emit, lift in H1; injection H1 as _ <-.
  2,3: eexists; split; [simpl; rewrite <- app_assoc; reflexivity|]; left; split; [done|by left].
  apply bind_inv in H as [(locs & s3 & H2 & H)|[(e & H2 & ->)|[H2 ->]]];
    rewrite getBuildInfos_run in H2;
    destruct (readBuildInfos _ _) as [files| |]; try done.
  2: { injection H2 as _ <-. eexists.
       split; [simpl; repeat (rewrite <- app_assoc; simpl); reflexivity|].
       left. split; [done|by right]. }
  2: { injection H2 as <-. eexists.
       split; [simpl; repeat (rewrite <- app_assoc; simpl); reflexivity|].
       left. split; [done|by right]. }
  injection H2 as <- <-.
  assert (Hinv : trace (load_files files
                   (add_event EvReadBuildInfos
                      (add_event (EvGetCode address) (add_event (EvSleep 5000) st))))
                 = trace st ++ [EvSleep 5000; EvGetCode address; EvReadBuildInfos]).
  { simpl. by repeat (rewrite <- app_assoc; simpl). }
  revert H Hinv. generalize (load_files files
                   (add_event EvReadBuildInfos
                      (add_event (EvGetCode address) (add_event (EvSleep 5000) st)))).
  generalize (seq (length (store_infos (add_event (EvGetCode address)
                                          (add_event (EvSleep 5000) st)))) (length files)).
  intros locs s0 H Hinv.
  assert (Hstop : ∀ A (r0 : outcome A) s,
            returned r0 = false →
            trace s = trace st ++ [EvSleep 5000; EvGetCode address; EvReadBuildInfos] →
            ∃ t, trace s = trace st ++ t ∧ attempt_shape address (returned r0) t).
  { intros A r0 s Hr Hs. eexists. split; [exact Hs|]. left. split; [done|by right]. }
  apply bind_inv in H as [(found & s4 & H3 & H)|[(e & H3 & ->)|[H3 ->]]];
    apply silent_find in H3 as [H3 _]; rewrite Hinv in H3;
    [|by apply (Hstop Response)..].
  clear Hinv s0.
  apply bind_inv in H as [(b & s5 & H4 & H)|[(e & H4 & ->)|[H4 ->]]];
    apply silent_read_info in H4 as [H4 _]; rewrite H3 in H4;
    [|by apply (Hstop Response)..].
  clear H3 s4.
  apply bind_inv in H as [(trimmed & s6 & H5 & H)|[(e & H5 & ->)|[H5 ->]]];
    apply silent_lift in H5 as [H5 _]; rewrite H4 in H5;
    [|by apply (Hstop Response)..].
  clear H4 s5.
  apply bind_inv in H as [([] & s7 & H6 & H)|[(e & H6 & ->)|[H6 ->]]];
    apply silent_write_info in H6 as [H6 _]; rewrite H5 in H6;
    [|by apply (Hstop Response)..].
  clear H5 s6.
  apply bind_inv in H as [(tree & s8 & H7 & H)|[(e & H7 & ->)|[H7 ->]]];
    apply silent_snapshot in H7 as [H7 _]; rewrite H6 in H7;
    [|by apply (Hstop Response)..].
  clear H6 s7.
  apply bind_inv in H as [(src & s9 & H8 & H)|[(e & H8 & ->)|[H8 ->]]];
    apply silent_lift in H8 as [H8 _]; rewrite H7 in H8;
    [|by apply (Hstop Response)..].
  clear H7 s8.
  apply bind_inv in H as [(found' & s10 & H9 & H)|[(e & H9 & ->)|[H9 ->]]];
    apply silent_lift in H9 as [H9 _]; rewrite H8 in H9;
    [|by apply (Hstop Response)..].
  clear H8 s9.
  destruct found' as [ci0|];
    [|unfold throw in H; injection H as <- <-; by apply (Hstop Response)].
  apply bind_inv in H as [(links & s11 & H10 & H)|[(e & H10 & ->)|[H10 ->]]];
    apply silent_lift in H10 as [H10 _]; rewrite H9 in H10;
    [|by apply (Hstop Response)..].
  clear H9 s10.
  apply bind_inv in H as [(enc & s12 & H11 & H)|[(e & H11 & ->)|[H11 ->]]].
  2,3: destruct args'; [done|]; apply silent_lift in H11 as [H11 _]; rewrite H10 in H11;
       by apply (Hstop Response).
  assert (H11' : trace s12
                 = trace st ++ [EvSleep 5000; EvGetCode address; EvReadBuildInfos]).
  { destruct args'.
    - apply silent_ret in H11 as [H11 _]. by rewrite H11.
    - apply silent_lift in H11 as [H11 _]. by rewrite H11. }
  clear H11 H10 s11.
  apply bind_inv in H as [(version & s13 & H12 & H)|[(e & H12 & ->)|[H12 ->]]];
    apply silent_lift in H12 as [H12 _]; rewrite H11' in H12;
    [|by apply (Hstop Response)..].
  clear H11' s12.
  apply bind_inv in H as [(b' & s14 & H13 & H)|[(e & H13 & ->)|[H13 ->]]];
    apply silent_read_info in H13 as [H13 _]; rewrite H12 in H13;
    [|by apply (Hstop Response)..].
  clear H12 s13.
  apply attemptVerification_shape in H as [[Hr Ht]|(req & sub & Ht & Hsub)].
  - rewrite H13 in Ht. by apply Hstop.
  - eexists. split; [rewrite Ht, H13; by rewrite <- app_assoc|].
    right. by exists req, sub.
Qed.

(** X14: however an attempt ends, what it has done is one of these:
    the wait and the fetch; these and the reading of the build-info
    files; or these, the file of one request and then nothing more, or
    the post of that same request, alone when it is answered with a
    failure, with a log line when it is rejected, and with the log line
    and the final wait when the attempt returns.  So an attempt posts at
    most once, never without the file written just before, and it
    returns exactly when all of that was done. *)
Theorem verify_attempt_shape (this : Verifier) (name address : string) (args' : Args)
    (libs : Libraries) (st : State) :
  let run := verify this name address args' libs st in
  ∃ t, trace (snd run) = trace st ++ t ∧ attempt_shape address (returned (fst run)) t.
Proof.
  cbn zeta. destruct (verify this name address args' libs st) as [r st'] eqn:H.
  by apply verify_shape in H.
Qed.

Lemma posts_app t1 t2 : posts (t1 ++ t2) = posts t1 + posts t2.
Proof. unfold posts. by rewrite List.filter_app, length_app. Qed.

Lemma verify_posts this name address args' libs st r st' :
  verify this name address args' libs st = (r, st') →
  ∃ p, posts (trace st') = posts (trace st) + p ∧ (p ≤ 1)%nat.
Proof.
  intros (t & -> & Hshape)%verify_shape. exists (posts t).
  split; [apply posts_app|].
  destruct Hshape as [[_ [->| ->]]|(req & sub & -> & Hsub)]; [by vm_compute; lia..|].
  unfold submission in Hsub.
  destruct (returned r); [|destruct Hsub as [->|[->| ->]]]; subst; vm_compute; lia.
Qed.

Lemma after_retry_posts intent st :
  posts (trace (after_retry intent st)) = posts (trace st).
Proof. unfold after_retry. simpl. rewrite !posts_app. unfold posts at 2 3. simpl. lia. Qed.

Lemma call_posts this name address args' libs fuel : ∀ intent st r st',
  call_fuel fuel this name address args' libs intent st = (r, st') →
  ∃ n p,
    fetches (trace st') = fetches (trace st) + n ∧
    posts (trace st') = posts (trace st) + p ∧ (p ≤ n)%nat.
Proof.
  assert (Hone : ∀ st st' p,
    fetches (trace st') = fetches (trace st) + 1 →
    posts (trace st') = posts (trace st) + p → (p ≤ 1)%nat →
    ∃ n p, fetches (trace st') = fetches (trace st) + n ∧
           posts (trace st') = posts (trace st) + p ∧ (p ≤ n)%nat).
  { intros st st' p Hf Hp Hle. by exists 1, p. }
  induction fuel as [|fuel IH]; intros intent st r st'; rewrite call_fuel_eq; intros H.
  all: apply bind_inv in H as [(resp & s1 & Hv & H)|[(e & Hv & _)|(Hv & _)]];
    pose proof (verify_fetches _ _ _ _ _ _ _ _ Hv) as Hf;
    apply verify_posts in Hv as (p1 & Hp & Hle); [|by eapply Hone..].
  all: destruct (isVerificationSuccess resp) as [[|]|];
    [destruct (URL_toString _ _ _); injection H as _ <-; by eapply Hone|
    |injection H as _ <-; by eapply Hone].
  all: destruct (Z.ltb_spec intent MAX_VERIFICATION_INTENTS) as [Hlt|Hge];
    [|injection H as _ <-; by eapply Hone].
  all: destruct (isBytecodeMissingInNetworkError resp) as [[|]|];
    [|injection H as _ <-; by eapply Hone..].
  all: rewrite (bind_Ret_run _ _ _ _ _ (announce_retry_run intent s1)) in H.
  - injection H as _ <-. exists 1, p1.
    by rewrite after_retry_fetches, after_retry_posts.
  - apply IH in H as (n & p & Hn & Hp' & Hle').
    rewrite after_retry_fetches in Hn. rewrite after_retry_posts in Hp'.
    exists (S n), (p1 + p). repeat split; lia.
Qed.

(** X15: a run of [call] posts at most one request for each attempt
    that it makes: at most three when [intent] is 1, and at most one
    when [intent] is the maximum or above. *)
Theorem call_posts_once_per_attempt (this : Verifier) (name address : string)
    (args' : Args) (libs : Libraries) (intent : Z) (st : State) :
  let run := call this name address args' libs intent st in
  ∃ n p,
    fetches (trace (snd run)) = fetches (trace st) + n ∧
    posts (trace (snd run)) = posts (trace st) + p ∧
    (p ≤ n)%nat ∧
    (Z.of_nat n ≤ Z.max 1 (MAX_VERIFICATION_INTENTS + 1 - intent))%Z.
Proof.
  cbn zeta.
  destruct (call this name address args' libs intent st) as [r st'] eqn:E.
  unfold call in E.
  pose proof (call_posts _ _ _ _ _ _ _ _ _ _ E) as (n & p & Hn & Hp & Hle).
  apply call_blocks in E as (blocks & Hne & Htrace & Hquiet & Hlen).
  exists n, p. cbn [snd]. do 3 (split; [done|]).
  rewrite Htrace, fetches_app, (fetches_blocks _ _ Hquiet) in Hn.
  unfold MAX_VERIFICATION_INTENTS in *. lia.
Qed.

(** ** The build-info directory *)

Lemma map_outcome_all {A B} (f : A → outcome B) (l : list A) (ys : list B) :
  Forall2 (fun x y => f x = Ret y) l ys → Artifacts.map_outcome f l = Ret ys.
Proof.
  induction 1 as [|x y l ys Hx _ IH]; [done|].
  cbn [Artifacts.map_outcome]. rewrite Hx. cbn [obind]. rewrite IH. done.
Qed.

Lemma map_outcome_first_failure {A B} (f : A → outcome B) (pre : list A) (ys : list B)
    (x : A) (post : list A) (e : exn) :
  Forall2 (fun x y => f x = Ret y) pre ys → f x = Throw e →
  Artifacts.map_outcome f (pre ++ x :: post) = Throw e.
Proof.
  intros Hpre Hx. induction Hpre as [|x' y l ys Hx' _ IH].
  - cbn [app Artifacts.map_outcome]. by rewrite Hx.
  - cbn [app Artifacts.map_outcome]. rewrite Hx'. cbn [obind]. by rewrite IH.
Qed.

Lemma dirAt_build_info node :
  Artifacts._existsDir node (Artifacts.path_join node "" "artifacts/build-info") = true →
  Artifacts._dirAt node Artifacts.dir "artifacts/build-info" true
  = Ret (Artifacts.path_join node "" "artifacts/build-info").
Proof. unfold Artifacts._dirAt, Artifacts.dir. by intros ->. Qed.

(** X16: when the build-info directory exists and every entry that it
    lists loads, [getBuildInfos] returns the parsed files, one for each
    entry and in the order in which the directory lists them. *)
Theorem getBuildInfos_in_directory_order (node : Artifacts.Node)
    (names : list string) (files : list BuildInfoFile) :
  let buildInfoDir := Artifacts.path_join node "" "artifacts/build-info" in
  Artifacts._existsDir node buildInfoDir = true →
  Artifacts.readdirSync node buildInfoDir = Ret names →
  Forall2 (fun name file => Artifacts.getBuildInfo node name = Ret file) names files →
  Artifacts.getBuildInfos node = Ret files.
Proof.
  cbn zeta. intros Hdir Hnames Hall. unfold Artifacts.getBuildInfos.
  rewrite dirAt_build_info by done. cbn [obind]. rewrite Hnames. cbn [obind].
  by apply map_outcome_all.
Qed.

Lemma getBuildInfos_in_directory_order_witness :
  Artifacts.getBuildInfos (Cases.disk false) = Ret [Sample.other_file; Sample.abc_file].
Proof.
  apply (getBuildInfos_in_directory_order (Cases.disk false) ["one.json"; "two"]).
  - reflexivity.
  - reflexivity.
  - repeat constructor.
Defined.

(** X17: an entry of the build-info directory that is not a regular
    file, a sub-directory for one, makes [getBuildInfos] throw the error
    that names its path (with [.json] added when the entry has no
    extension), once the entries before it have loaded, and whatever
    the entries after it are. *)
Theorem getBuildInfos_stray_entry (node : Artifacts.Node)
    (pre : list string) (name : string) (post : list string)
    (files : list BuildInfoFile) :
  let buildInfoDir := Artifacts.path_join node "" "artifacts/build-info" in
  let target :=
    Artifacts.path_join node buildInfoDir
      (if String.eqb (Artifacts.extname node name) "" then name +:+ ".json" else name) in
  Artifacts._existsDir node buildInfoDir = true →
  Artifacts.readdirSync node buildInfoDir = Ret (pre ++ name :: post) →
  Forall2 (fun name file => Artifacts.getBuildInfo node name = Ret file) pre files →
  Artifacts._existsFile node target = false →
  Artifacts.getBuildInfos node = Throw (Error ("Could not find a file at " +:+ target)).
Proof.
  cbn zeta. intros Hdir Hnames Hpre Hstray. unfold Artifacts.getBuildInfos.
  rewrite dirAt_build_info by done. cbn [obind]. rewrite Hnames. cbn [obind].
  apply (map_outcome_first_failure _ pre files); [done|].
  unfold Artifacts.getBuildInfo. rewrite dirAt_build_info by done. cbn [obind].
  unfold Artifacts._fileAt. by rewrite Hstray.
Qed.

Lemma getBuildInfos_stray_entry_witness :
  Artifacts.getBuildInfos (Cases.disk true)
  = Throw (Error "Could not find a file at artifacts/build-info/cache.d").
Proof.
  apply (getBuildInfos_stray_entry (Cases.disk true) ["one.json"] "cache.d" ["two"]
           [Sample.other_file]).
  - reflexivity.
  - reflexivity.
  - repeat constructor.
  - reflexivity.
Defined.

(** X18: a file name without extension is read as the file of that name
    with [.json] added. *)
Theorem getBuildInfo_default_extension (node : Artifacts.Node) (fileName : string) :
  Artifacts.extname node fileName = "" →
  Artifacts.extname node (fileName +:+ ".json") ≠ "" →
  Artifacts.getBuildInfo node fileName = Artifacts.getBuildInfo node (fileName +:+ ".json").
Proof.
  intros Hnone Hjson. unfold Artifacts.getBuildInfo. rewrite Hnone.
  apply String.eqb_neq in Hjson. rewrite Hjson. done.
Qed.

Lemma getBuildInfo_default_extension_witness :
  Artifacts.getBuildInfo (Cases.disk false) "two"
  = Artifacts.getBuildInfo (Cases.disk false) "two.json".
Proof.
  apply (getBuildInfo_default_extension (Cases.disk false) "two").
  - reflexivity.
  - discriminate.
Defined.

(** X19: without a build-info directory, because nothing is at its path
    or because what is there is not a directory, both [getBuildInfo], for
    every file name, and [getBuildInfos] throw the error that names the
    path of the directory, whatever the directory listing and the files
    would give. *)
Theorem getBuildInfos_without_directory (node : Artifacts.Node) :
  let buildInfoDir := Artifacts.path_join node "" "artifacts/build-info" in
  Artifacts.existsSync node buildInfoDir && Artifacts.isDirectory node buildInfoDir = false →
  Artifacts.getBuildInfos node
  = Throw (Error ("Could not find a directory at " +:+ buildInfoDir)) ∧
  ∀ fileName,
    Artifacts.getBuildInfo node fileName
    = Throw (Error ("Could not find a directory at " +:+ buildInfoDir)).
Proof.
  cbn zeta. intros H.
  unfold Artifacts.getBuildInfos, Artifacts.getBuildInfo, Artifacts._dirAt,
    Artifacts._existsDir, Artifacts.dir.
  rewrite H. done.
Qed.

Lemma getBuildInfos_without_directory_witness :
  Artifacts.getBuildInfos Cases.empty_disk
  = Throw (Error "Could not find a directory at artifacts/build-info") ∧
  ∀ fileName,
    Artifacts.getBuildInfo Cases.empty_disk fileName
    = Throw (Error "Could not find a directory at artifacts/build-info").
Proof.
  apply (getBuildInfos_without_directory Cases.empty_disk). reflexivity.
Defined.

(** ** Picking token addresses *)

Lemma map_outcome_map {A B} (f : A → outcome B) (g : A → B) (l : list A) :
  (∀ x, x ∈ l → f x = Ret (g x)) → Artifacts.map_outcome f l = Ret (map g l).
Proof.
  intros H. apply map_outcome_all.
  induction l as [|x l IH]; [constructor|].
  cbn [map]. constructor; [apply H; left|]. apply IH. intros y Hy. apply H. by right.
Qed.

Lemma map_outcome_throws {A B} (f : A → outcome B) (e : exn) (l : list A) (x : A) :
  x ∈ l → f x = Throw e →
  (∀ y, y ∈ l → f y = Throw e ∨ ∃ v, f y = Ret v) →
  Artifacts.map_outcome f l = Throw e.
Proof.
  intros Hx Hfx Hall. induction l as [|y l IH]; [by apply elem_of_nil in Hx|].
  cbn [Artifacts.map_outcome].
  destruct (Hall y) as [Hy|[v Hy]]; [left|by rewrite Hy|].
  rewrite Hy. cbn [obind].
  apply elem_of_cons in Hx as [->|Hx]; [congruence|].
  rewrite IH; [done|done|]. intros z Hz. apply Hall. by right.
Qed.

Lemma Array_slice_window {A} (l : list A) (start size : Z) :
  (0 ≤ start)%Z → (0 ≤ size)%Z →
  Gas.Array_slice l start (size + start)
  = take (Z.to_nat size) (drop (Z.to_nat start) l).
Proof.
  intros Hstart Hsize. unfold Gas.Array_slice, Gas.clamp_index.
  destruct (Z.ltb_spec start 0) as [?|_]; [lia|].
  destruct (Z.ltb_spec (size + start) 0) as [?|_]; [lia|].
  replace (Z.to_nat (size + start)) with (Z.to_nat size + Z.to_nat start)%nat by lia.
  generalize (Z.to_nat size) (Z.to_nat start). intros b a.
  destruct (decide (a ≤ length l)%nat) as [Hle|Hgt].
  - rewrite (Nat.min_l a) by done.
    replace (Nat.min (b + a) (length l) - a)%nat with (Nat.min b (length (drop a l)))
      by (rewrite length_drop; lia).
    change (firstn ?n ?x) with (take n x). change (skipn ?n ?x) with (drop n x).
    rewrite <- take_take. by rewrite firstn_all.
  - rewrite (Nat.min_r a), (Nat.min_r (b + a)) by lia.
    change (firstn ?n ?x) with (take n x). change (skipn ?n ?x) with (drop n x).
    rewrite Nat.sub_diag, (drop_ge l a) by lia. by rewrite take_nil.
Qed.

Lemma Array_slice_from_end {A} (l : list A) (size : Z) :
  (size < 0)%Z →
  Gas.Array_slice l 0 size = take (Z.to_nat (Z.of_nat (length l) + size)) l.
Proof.
  intros Hsize. unfold Gas.Array_slice, Gas.clamp_index.
  destruct (Z.ltb_spec size 0) as [_|?]; [|lia]. cbn [Z.ltb Z.compare Z.to_nat Nat.min].
  rewrite Nat.sub_0_r. cbn [skipn]. f_equal. lia.
Qed.

(** X20: with the three tokens in the dictionary, [pickTokenAddresses]
    gives the addresses of the symbols AAA, BBB, CCC from position
    [offset] (0 when there is none) on, [size] of them or as many as are
    left: never more than three, and none for an offset of three or
    more.  A negative [size] without offset counts from the end: it
    gives all but the last [-size] addresses. *)
Theorem pickTokenAddresses_window (tokens : Gas.TokenList) (t1 t2 t3 : Gas.Contract)
    (size : Z) (offset : option Z) :
  obj_get tokens "AAA" = Some t1 →
  obj_get tokens "BBB" = Some t2 →
  obj_get tokens "CCC" = Some t3 →
  let addresses := [Gas.address t1; Gas.address t2; Gas.address t3] in
  ((0 ≤ size)%Z → (0 ≤ Gas.or_zero offset)%Z →
   Gas.pickTokenAddresses tokens size offset
   = Ret (take (Z.to_nat size) (drop (Z.to_nat (Gas.or_zero offset)) addresses))) ∧
  ((size < 0)%Z →
   Gas.pickTokenAddresses tokens size None = Ret (take (Z.to_nat (3 + size)) addresses)).
Proof.
  intros H1 H2 H3 addresses.
  set (g := fun symbol => match obj_get tokens symbol with
                          | Some token => Gas.address token
                          | None => ""
                          end).
  assert (Hg : ∀ l, (∀ x, x ∈ l → x ∈ Gas.tokenSymbols) →
            Artifacts.map_outcome
              (fun symbol =>
                 match obj_get tokens symbol with
                 | Some token => Ret (Gas.address token)
                 | None => Throw (TypeError
                             "Cannot read properties of undefined (reading 'address')")
                 end) l
            = Ret (map g l)).
  { intros l Hl. apply map_outcome_map. intros x Hx. unfold g.
    specialize (Hl x Hx). unfold Gas.tokenSymbols in Hl.
    repeat (apply elem_of_cons in Hl as [->|Hl]; [by rewrite ?H1, ?H2, ?H3|]).
    by apply elem_of_nil in Hl. }
  assert (Hmap : map g Gas.tokenSymbols = addresses).
  { unfold g, addresses. cbn [map Gas.tokenSymbols]. by rewrite H1, H2, H3. }
  split.
  - intros Hsize Hoff. unfold Gas.pickTokenAddresses.
    rewrite Array_slice_window by done.
    rewrite Hg.
    + change (map g ?l) with (g <$> l). rewrite fmap_take, fmap_drop.
      change (g <$> Gas.tokenSymbols) with (map g Gas.tokenSymbols). by rewrite Hmap.
    + intros x Hx. eapply elem_of_sublist; [exact Hx|].
      etrans; [apply sublist_take|apply sublist_drop].
  - intros Hsize. unfold Gas.pickTokenAddresses. cbn [Gas.or_zero].
    rewrite Z.add_0_r, Array_slice_from_end by done.
    rewrite Hg.
    + change (map g ?l) with (g <$> l). rewrite fmap_take.
      change (g <$> Gas.tokenSymbols) with (map g Gas.tokenSymbols). rewrite Hmap.
      reflexivity.
    + intros x Hx. eapply elem_of_sublist; [exact Hx|apply sublist_take].
Qed.

Lemma pickTokenAddresses_window_witness :
  Gas.pickTokenAddresses Cases.three_tokens 5 (Some 1%Z) = Ret ["0x0b"; "0x0c"] ∧
  Gas.pickTokenAddresses Cases.three_tokens (-1) None = Ret ["0x0a"; "0x0b"].
Proof.
  destruct (pickTokenAddresses_window Cases.three_tokens
              {| Gas.address := "0x0a" |} {| Gas.address := "0x0b" |}
              {| Gas.address := "0x0c" |} 5 (Some 1%Z) eq_refl eq_refl eq_refl)
    as [H _].
  destruct (pickTokenAddresses_window Cases.three_tokens
              {| Gas.address := "0x0a" |} {| Gas.address := "0x0b" |}
              {| Gas.address := "0x0c" |} (-1) None eq_refl eq_refl eq_refl)
    as [_ H'].
  split.
  - apply H; simpl; lia.
  - apply H'. lia.
Defined.

(** X21: when one of the symbols that the window selects is not in the
    dictionary, [pickTokenAddresses] does not skip it: it fails with the
    type error of reading [address] of [undefined]. *)
Theorem pickTokenAddresses_missing_token (tokens : Gas.TokenList) (size : Z)
    (offset : option Z) (symbol : string) :
  symbol ∈ Gas.Array_slice Gas.tokenSymbols (Gas.or_zero offset)
             (size + Gas.or_zero offset) →
  obj_get tokens symbol = None →
  Gas.pickTokenAddresses tokens size offset
  = Throw (TypeError "Cannot read properties of undefined (reading 'address')").
Proof.
  intros Hin Hnone. unfold Gas.pickTokenAddresses.
  apply (map_outcome_throws _ _ _ symbol); [done|by rewrite Hnone|].
  intros y _. destruct (obj_get tokens y); eauto.
Qed.

Lemma pickTokenAddresses_missing_token_witness :
  Gas.pickTokenAddresses [("AAA", {| Gas.address := "0x0a" |})] 2 None
  = Throw (TypeError "Cannot read properties of undefined (reading 'address')").
Proof.
  apply (pickTokenAddresses_missing_token [("AAA", {| Gas.address := "0x0a" |})] 2 None
           "BBB").
  - vm_compute. apply list_elem_of_further, list_elem_of_here.
  - reflexivity.
Defined.
